(** * Checkout pipeline of the storefront client (CartPage.js, MarketPage.js)

    A shallow embedding of [src/APP/src/screens/CartPage.js] (the cart total
    and [handleCheckout]) and of [handleAddToCart] of
    [src/APP/src/screens/MarketPage.js], with the properties the
    specification states about them.

    Layout:
    - [JS]           the ECMAScript built-ins the code calls: binary64 numbers,
                     [parseFloat], [Number.prototype.toFixed], [Number::toString];
    - [Cart]         the cart items and the cart context;
    - [Task]         a free monad for the [async] handler: every state setter,
                     console call and awaited collaborator call is a node of
                     the tree;
    - [CartPage]     the component: [totalPrice], [handleCheckout], the alert,
                     the checkout button, and the event loop that runs them;
    - [MarketPage]   [handleAddToCart];
    - [Paths]        properties of handlers along every path, recognisers of
                     events, invariants of the event loop, sample data;
    - [DecimalTotal] the total as the specification words it, and prices
                     in whole cents;
    - [Calls]        what an attempt sends to its collaborators;
    - [Handler]      the semantics of handlers for any component;
    - [JSString]     the string and array built-ins of the market screen;
    - [MarketList]   the product list of MarketPage.js: [fetchAllProducts],
                     [sortData], [handleSortOption], [filterData], the
                     effect on [products];
    - [ReviewPopup]  components/ReviewPopup.js: [fetchReviews],
                     [handleAddReviewClick], [handleSubmitReview] and the
                     event loop of the popup;
    - the lemmas and the theorems. *)

From Stdlib Require Import ZArith QArith Qround Qabs Qpower List String Ascii Bool Lia Lqa.
From Stdlib Require Import Permutation.
From Stdlib Require Import Sorted.
From Stdlib Require Import SpecFloat DecimalString.
Import ListNotations.

Set Implicit Arguments.

Local Open Scope Z_scope.

(* ================================================================== *)
(** * ECMAScript numbers and the built-ins used by the cart total       *)
(* ================================================================== *)

Module JS.

(** A JS Number is an IEEE-754 binary64 value.  [spec_float] is the
    Standard Library's specification of such values (sign, mantissa,
    exponent; no NaN payload, as in JS). *)
Definition Number := spec_float.

Definition prec : Z := 53.
Definition emax : Z := 1024.

Definition NaN : Number := S754_nan.
Definition pos_zero : Number := S754_zero false.

(** [x + y] on Numbers: round-to-nearest, ties-to-even. *)
Definition add (x y : Number) : Number := SFadd prec emax x y.

(** The mathematical value of a finite Number, as an exact rational. *)
Definition pow2 (e : Z) : Q :=
  match e with
  | Z0 => 1%Q
  | Zpos p => inject_Z (Z.pow_pos 2 p)
  | Zneg p => Qmake 1 (Pos.pow 2 p)
  end.

Definition value (x : Number) : option Q :=
  match x with
  | S754_zero _ => Some 0%Q
  | S754_finite s m e =>
      Some (Qmult (inject_Z (if s then Zneg m else Zpos m)) (pow2 e))
  | S754_infinity _ | S754_nan => None
  end.

(** The Number nearest to [c * 10^j] (ties to even), signed by [neg]:
    the rounding ECMAScript applies to the mathematical value of a
    numeric literal.  For [j < 0] the quotient is computed with at least
    64 significant bits and a sticky bit, which [binary_round] then
    rounds once. *)
Definition of_decimal (neg : bool) (c : Z) (j : Z) : Number :=
  match c with
  | Zpos p =>
      match j with
      | Zneg k =>
          let d := Z.pow_pos 10 k in
          let s := Z.max 0 (Z.log2 d + 64 - Z.log2 c) in
          let (q, r) := Z.div_eucl (c * 2 ^ s) d in
          let m := 2 * q + (if r =? 0 then 0 else 1) in
          binary_round prec emax neg (Z.to_pos m) (- s - 1)
      | _ => binary_round prec emax neg (Z.to_pos (c * 10 ^ j)) 0
      end
  | _ => S754_zero neg
  end.

(** ** Scanning a [StrDecimalLiteral] *)

Definition is_digit (a : ascii) : bool :=
  let n := nat_of_ascii a in (48 <=? n)%nat && (n <=? 57)%nat.

Definition digit_value (a : ascii) : Z := Z.of_nat (nat_of_ascii a) - 48.

(** A String is held as the UTF-8 encoding of its code points: a
    character of ASCII is one byte, any other character is two to four
    bytes, none of them below 128.  (A String with an unpaired surrogate
    has no such encoding and is left out.)

    [StrWhiteSpaceChar] is [WhiteSpace] or [LineTerminator]: TAB, LF, VT,
    FF, CR, SP, U+00A0, U+1680, U+2000 to U+200A, U+2028, U+2029, U+202F,
    U+205F, U+3000 and U+FEFF.  The first six are one byte. *)
Definition is_white_space1 (a : ascii) : bool :=
  let n := nat_of_ascii a in
  ((9 <=? n)%nat && (n <=? 13)%nat) || (n =? 32)%nat.

(** U+00A0 NO-BREAK SPACE is the two bytes C2 A0. *)
Definition is_white_space2 (a b : ascii) : bool :=
  ((nat_of_ascii a =? 194)%nat && (nat_of_ascii b =? 160)%nat).

(** The others are three bytes: E1 9A 80 (U+1680), E2 80 80 to E2 80 8A
    (U+2000 to U+200A), E2 80 A8 and E2 80 A9 (U+2028, U+2029), E2 80 AF
    (U+202F), E2 81 9F (U+205F), E3 80 80 (U+3000) and EF BB BF
    (U+FEFF). *)
Definition is_white_space3 (a b c : ascii) : bool :=
  let n := nat_of_ascii a in
  let m := nat_of_ascii b in
  let k := nat_of_ascii c in
  ((n =? 225) && (m =? 154) && (k =? 128))%nat ||
  ((n =? 226) && (m =? 128) &&
   (((128 <=? k) && (k <=? 138)) || (k =? 168) || (k =? 169) || (k =? 175)))%nat ||
  ((n =? 226) && (m =? 129) && (k =? 159))%nat ||
  ((n =? 227) && (m =? 128) && (k =? 128))%nat ||
  ((n =? 239) && (m =? 187) && (k =? 191))%nat.

(** The String without the white space in front of it. *)
Fixpoint trim_start (s : string) : string :=
  match s with
  | String a r1 =>
      if is_white_space1 a then trim_start r1
      else
        match r1 with
        | String b r2 =>
            if is_white_space2 a b then trim_start r2
            else
              match r2 with
              | String c r3 => if is_white_space3 a b c then trim_start r3 else s
              | EmptyString => s
              end
        | EmptyString => s
        end
  | EmptyString => s
  end.

(** [DecimalDigits], longest match: the value read so far, the number
    of digits read, and the rest of the input. *)
Fixpoint take_digits (acc : Z) (count : Z) (s : string) : Z * Z * string :=
  match s with
  | String a rest =>
      if is_digit a then take_digits (10 * acc + digit_value a) (count + 1) rest
      else (acc, count, s)
  | EmptyString => (acc, count, s)
  end.

(** [ExponentPart], when one is present and complete; 0 otherwise (the
    longest prefix that is a literal then stops before the [e]). *)
Definition exponent_part (s : string) : Z :=
  match s with
  | String a rest =>
      if (Ascii.eqb a "e" || Ascii.eqb a "E")%bool then
        let '(neg, rest') :=
          match rest with
          | String "-" r => (true, r)
          | String "+" r => (false, r)
          | _ => (false, rest)
          end in
        let '(v, n, _) := take_digits 0 0 rest' in
        if n =? 0 then 0 else if neg then - v else v
      else 0
  | EmptyString => 0
  end.

Definition infinity_literal : string := "Infinity".

(** What the longest prefix that is a [StrDecimalLiteral] denotes:
    nothing, an infinity, or the decimal [c * 10^j] with its sign. *)
Inductive Literal :=
| NotANumber
| InfinityLiteral (neg : bool)
| Decimal (neg : bool) (c : Z) (j : Z).

(** [StrUnsignedDecimalLiteral], longest prefix. *)
Definition unsigned_literal (neg : bool) (s : string) : Literal :=
  if String.prefix infinity_literal s then InfinityLiteral neg
  else
    let '(iv, ic, rest) := take_digits 0 0 s in
    match rest with
    | String "." rest' =>
        let '(mv, fc, rest'') := take_digits iv 0 rest' in
        if (ic =? 0) && (fc =? 0) then NotANumber
        else Decimal neg mv (exponent_part rest'' - fc)
    | _ =>
        if ic =? 0 then NotANumber else Decimal neg iv (exponent_part rest)
    end.

(** Leading white space is skipped, then an optional sign is read. *)
Definition scan (s : string) : Literal :=
  match trim_start s with
  | String "-" rest => unsigned_literal true rest
  | String "+" rest => unsigned_literal false rest
  | t => unsigned_literal false t
  end.

Definition number_of (l : Literal) : Number :=
  match l with
  | NotANumber => NaN
  | InfinityLiteral neg => S754_infinity neg
  | Decimal neg c j => of_decimal neg c j
  end.

(** [parseFloat(string)] on a String argument. *)
Definition parseFloat_string (s : string) : Number := number_of (scan s).

(** ** Printing Numbers *)

Local Open Scope string_scope.

Definition Number_eqb (x y : Number) : bool :=
  match x, y with
  | S754_zero s, S754_zero s' => Bool.eqb s s'
  | S754_infinity s, S754_infinity s' => Bool.eqb s s'
  | S754_nan, S754_nan => true
  | S754_finite s m e, S754_finite s' m' e' =>
      Bool.eqb s s' && Pos.eqb m m' && Z.eqb e e'
  | _, _ => false
  end.

Definition pow10 (j : Z) : Q :=
  match j with
  | Z0 => 1%Q
  | Zpos p => inject_Z (Z.pow_pos 10 p)
  | Zneg p => Qmake 1 (Pos.pow 10 p)
  end.

(** The mathematical value of a decimal literal, before any rounding. *)
Definition literal_value (l : Literal) : option Q :=
  match l with
  | Decimal neg c j => Some (Qmult (inject_Z (if neg then (- c)%Z else c)) (pow10 j))
  | NotANumber | InfinityLiteral _ => None
  end.

(** The decimal digits of a natural number ("0" for zero). *)
Definition digits_of (z : Z) : string :=
  NilZero.string_of_uint (N.to_uint (Z.to_N z)).

Definition num_digits (z : Z) : Z := Z.of_nat (String.length (digits_of z)).

Fixpoint zeros (n : nat) : string :=
  match n with
  | O => EmptyString
  | S n' => String "0" (zeros n')
  end.

(** The [n] with [10^(n-1) <= q < 10^n], for [q > 0]. *)
Definition decade (q : Q) : Z :=
  let guess :=
    if Qle_bool 1 q then num_digits (Qfloor q)
    else 1 - num_digits (Qfloor (Qinv q)) in
  if Qle_bool (pow10 (guess + 1)) q then guess + 2
  else if Qle_bool (pow10 guess) q then guess + 1
  else if Qle_bool (pow10 (guess - 1)) q then guess
  else guess - 1.

(** The candidates [c * 10^j] with [k] digits on either side of [q]; the
    one that reads back as [x] is kept, the nearer to [q] when both do
    (the even one on a tie). *)
Definition candidate (x : Number) (q : Q) (n0 k : Z) : option Z :=
  let j := n0 - k in
  let lo := Qfloor (Qdiv q (pow10 j)) in
  let hi := lo + 1 in
  let ok c := Number_eqb (of_decimal false c j) x in
  let below := Qminus q (Qmult (inject_Z lo) (pow10 j)) in
  let above := Qminus (Qmult (inject_Z hi) (pow10 j)) q in
  match ok lo, ok hi with
  | true, true =>
      match Qcompare below above with
      | Lt => Some lo
      | Gt => Some hi
      | Eq => Some (if Z.even lo then lo else hi)
      end
  | true, false => Some lo
  | false, true => Some hi
  | false, false => None
  end.

Fixpoint shortest (x : Number) (q : Q) (n0 : Z) (ks : list Z) : Z * Z :=
  match ks with
  | [] => (Qfloor (Qdiv q (pow10 (n0 - 17))), n0 - 17)
  | k :: ks' =>
      match candidate x q n0 k with
      | Some c => (c, n0 - k)
      | None => shortest x q n0 ks'
      end
  end.

Fixpoint strip_zeros_rev (r : list ascii) : list ascii :=
  match r with
  | "0"%char :: r' => strip_zeros_rev r'
  | _ => r
  end.

Definition strip_trailing_zeros (s : string) : string :=
  string_of_list_ascii (rev (strip_zeros_rev (rev (list_ascii_of_string s)))).

(** [Number::toString(x)] in radix 10, for a positive finite [x] of
    mathematical value [q]. *)
Definition toString_pos (x : Number) (q : Q) : string :=
  let n0 := decade q in
  let '(c, j) := shortest x q n0 [1;2;3;4;5;6;7;8;9;10;11;12;13;14;15;16;17] in
  let all := digits_of c in
  let n := j + Z.of_nat (String.length all) in
  let s := strip_trailing_zeros all in
  let k := Z.of_nat (String.length s) in
  if ((k <=? n) && (n <=? 21))%Z then s ++ zeros (Z.to_nat (n - k))
  else if ((0 <? n) && (n <=? 21))%Z then
    substring 0 (Z.to_nat n) s ++ "." ++ substring (Z.to_nat n) (Z.to_nat (k - n)) s
  else if ((-6 <? n) && (n <=? 0))%Z then "0." ++ zeros (Z.to_nat (- n)) ++ s
  else
    let e := n - 1 in
    let exponent := (if (e <? 0)%Z then "e-" else "e+") ++ digits_of (Z.abs e) in
    if (k =? 1)%Z then s ++ exponent
    else substring 0 1 s ++ "." ++ substring 1 (Z.to_nat (k - 1)) s ++ exponent.

Definition toString (x : Number) : string :=
  match x with
  | S754_nan => "NaN"
  | S754_zero _ => "0"
  | S754_infinity s => if s then "-Infinity" else "Infinity"
  | S754_finite s m e =>
      let ax := S754_finite false m e in
      let q := Qmult (inject_Z (Zpos m)) (pow2 e) in
      (if s then "-" else "") ++ toString_pos ax q
  end.

(** [n / 100] written with two fraction digits, as step 10 of
    [Number.prototype.toFixed] does for [fractionDigits = 2]. *)
Definition fixed2_digits (n : Z) : string :=
  let m := if (n =? 0)%Z then "0" else digits_of n in
  let k := String.length m in
  let m := if (k <=? 2)%nat then zeros (3 - k) ++ m else m in
  let k := String.length m in
  substring 0 (k - 2) m ++ "." ++ substring (k - 2) 2 m.

(** [x.toFixed(2)]: the integer [n] for which [n / 100 - x] is as close to
    zero as possible, the larger one when there are two; Numbers that
    are not finite, or at least [10^21] in magnitude, are printed by
    [toString]. *)
Definition toFixed2 (x : Number) : string :=
  match x with
  | S754_nan | S754_infinity _ => toString x
  | S754_zero _ => fixed2_digits 0
  | S754_finite s m e =>
      let q := Qmult (inject_Z (Zpos m)) (pow2 e) in
      (if s then "-" else "") ++
      (if Qle_bool (pow10 21) q then toString (S754_finite false m e)
       else fixed2_digits (Qfloor (Qplus (Qmult q (inject_Z 100)) (Qmake 1 2))))
  end.

(** [parseFloat(v)] first converts [v] to a String. *)
Definition parseFloat_number (x : Number) : Number :=
  parseFloat_string (toString x).

End JS.

(* ================================================================== *)
(** * The cart                                                          *)
(* ================================================================== *)

Module Cart.

(** [item.price] reaches the screen as a JSON value: a Number or a String
    ([parseFloat] accepts both). *)
Inductive Price :=
| PriceNumber (x : JS.Number)
| PriceString (s : string).

(** A product as the screens read it.  MarketPage reads [name], CartPage
    reads [examName]. *)
Record CartItem := {
  _id : string;
  name : string;
  examName : string;
  subjectName : string;
  subjectCode : string;
  price : Price;
  image : string
}.

(** [parseFloat(item.price)] *)
Definition parseFloat (v : Price) : JS.Number :=
  match v with
  | PriceNumber x => JS.parseFloat_number x
  | PriceString s => JS.parseFloat_string s
  end.

Definition has_id (id : string) (cartItems : list CartItem) : bool :=
  existsb (fun item => String.eqb (_id item) id) cartItems.

(** Modelled from the spec: [addToCart] of [contexts/CartContext], which
    is not among the sources.  Section 4.1: "inserts if id not present;
    returns whether insertion occurred"; the cart is "ordered by
    insertion". *)
Definition addToCart (item : CartItem) (cartItems : list CartItem)
  : bool * list CartItem :=
  if has_id (_id item) cartItems then (false, cartItems)
  else (true, cartItems ++ [item]).

(** Modelled from the spec: [removeFromCart] of [contexts/CartContext].
    Section 4.1: "remove(id): idempotent; removing an absent id is a
    no-op". *)
Definition removeFromCart (id : string) (cartItems : list CartItem)
  : list CartItem :=
  filter (fun item => negb (String.eqb (_id item) id)) cartItems.

(** Modelled from the spec: [clearCart] of [contexts/CartContext].
    Section 4.1: "clear(): empties the collection". *)
Definition clearCart (cartItems : list CartItem) : list CartItem := [].

End Cart.

(* ================================================================== *)
(** * Asynchronous handlers as trees of operations                      *)
(* ================================================================== *)

Module Task.

Section Free.
Variable Op : Type -> Type.

(** A handler either has finished with a value, or performs an
    operation and continues with its result. *)
Inductive t (A : Type) : Type :=
| Ret (a : A)
| Vis (R : Type) (op : Op R) (k : R -> t A).

Arguments Ret {A} a.
Arguments Vis {A R} op k.

Fixpoint bind {A B : Type} (m : t A) (f : A -> t B) : t B :=
  match m with
  | Ret a => f a
  | Vis op k => Vis op (fun r => bind (k r) f)
  end.

Definition perform {R : Type} (op : Op R) : t R := Vis op (fun r => Ret r).
End Free.

Arguments Ret {Op A} a.
Arguments Vis {Op A R} op k.
Arguments perform {Op R} op.

Module Notations.
Declare Scope task_scope.
Delimit Scope task_scope with task.
Notation "x <- m ;; k" := (bind m (fun x => k))
  (at level 61, m at next level, right associativity) : task_scope.
Notation "m ;; k" := (bind m (fun _ => k))
  (at level 61, right associativity) : task_scope.
End Notations.

End Task.

(* ================================================================== *)
(** * CartPage.js                                                       *)
(* ================================================================== *)

Module CartPage.

Import Cart.
Import Task.Notations.
Local Open Scope string_scope.
Local Open Scope task_scope.

(** ** Values exchanged with the collaborators *)

(** The [error] of a Stripe payment-sheet result. *)
Module StripeError.
Record t := { code : string; message : string }.
End StripeError.

(** [{ error }] as [initPaymentSheet] and [presentPaymentSheet] resolve
    it: [None] when [error] is undefined. *)
Definition SheetResult := option StripeError.t.

(** A value caught by [catch (error)], as far as the handler reads it:
    [error.message], [None] when it is undefined. *)
Module JsError.
Record t := { message : option string }.
End JsError.

(** [new Error(message)] *)
Definition new_Error (message : string) : JsError.t :=
  {| JsError.message := Some message |}.

(** What an awaited promise settles to. *)
Inductive Settled (A : Type) :=
| Fulfilled (a : A)
| Rejected (reason : JsError.t).
Arguments Fulfilled {A} a.
Arguments Rejected {A} reason.

(** [orderItem] of the created order, as the success branch reads it:
    [orderItem.examName] and [orderItem.product.pdfLink].  [product] is
    [None] when it is null or undefined. *)
Module Product.
Record t := { pdfLink : option string }.
End Product.

Module CreatedItem.
Record t := { examName : option string; product : option Product.t }.
End CreatedItem.

(** [response.data]; [orderItems] is [None] when it is not an array. *)
Module CreatedOrder.
Record t := { orderItems : option (list CreatedItem.t) }.
End CreatedOrder.

(** The body [api.createOrder] resolves to. *)
Module Response.
Record t := {
  success : bool;
  data : option CreatedOrder.t;
  message : option string
}.
End Response.

Module OrderItem.
Record t := {
  product : string;
  examName : string;
  subjectName : string;
  subjectCode : string;
  price : Price;
  image : string;
  quantity : Z
}.
End OrderItem.

Module PaymentResult.
Record t := { clientSecret : string }.
End PaymentResult.

(** Milliseconds since the epoch. *)
Definition Date := Z.

(** [orderData] *)
Module OrderData.
Record t := {
  orderItems : list OrderItem.t;
  totalPrice : JS.Number;
  paymentMethod : string;
  isPaid : bool;
  paidAt : option Date;
  paymentResult : PaymentResult.t
}.
End OrderData.

Module SheetParams.
Record t := {
  paymentIntentClientSecret : string;
  merchantDisplayName : string
}.
End SheetParams.

(** ** The alert *)

(** What the [onPress] closures of the alert buttons do. *)
Inductive Action :=
| HideAlert                    (* setAlertVisible(false) *)
| ClearCart                    (* clearCart() *)
| Navigate (route : string).   (* navigation.navigate(route) *)

Module Button.
Record t := { text : string; onPress : list Action }.
End Button.

(** What [console.error] is given after its label. *)
Inductive Logged :=
| LogStripeError (e : StripeError.t)
| LogError (e : JsError.t).

(** ** Operations of the component

    Modelled from the spec: the collaborators the handler awaits are not
    among the sources ([services/api], the Stripe SDK).  Section 6 gives
    what they resolve to: [fetchPaymentIntent] to the client secret or
    null, [initPaymentSheet] and [presentPaymentSheet] to [{ error? }],
    the order API to [{ success, data?, message? }] or to no response at
    all (a rejection).  Only [api.createOrder], which is awaited inside
    [try], is taken to reject. *)

Inductive Op : Type -> Type :=
(* React state setters *)
| setLoading (b : bool) : Op unit
| setAlertTitle (s : string) : Op unit
| setAlertMessage (s : string) : Op unit
| setAlertIcon (s : string) : Op unit
| setAlertButtons (bs : list Button.t) : Op unit
| setAlertVisible (b : bool) : Op unit
(* cart context and navigation *)
| removeFromCart (id : string) : Op unit
| clearCart : Op unit
| navigation_navigate (route : string) : Op unit
(* the engine *)
| console_error (label : string) (e : Logged) : Op unit
| console_log (line : string) : Op unit
| new_Date : Op Date
| TypeError : Op JsError.t   (* a property read on undefined or null *)
(* awaited collaborators *)
| fetchPaymentIntent (amount : string) : Op (option string)
| initPaymentSheet (params : SheetParams.t) : Op SheetResult
| presentPaymentSheet : Op SheetResult
| api_createOrder (orderData : OrderData.t) : Op (Settled Response.t).

Definition Task := Task.t Op.

Definition do {R} (op : Op R) : Task R := Task.perform op.

(** [await op] *)
Definition await {R} (op : Op R) : Task R := Task.perform op.

(** The operations a handler awaits; it is suspended at these. *)
Definition is_await {R} (op : Op R) : bool :=
  match op with
  | fetchPaymentIntent _ | initPaymentSheet _
  | presentPaymentSheet | api_createOrder _ => true
  | _ => false
  end.

(** ** Exceptions inside [try] *)

Definition throw {A} (e : JsError.t) : Task (JsError.t + A) := Task.Ret (inl e).

Definition attempt {A} (m : Task A) : Task (JsError.t + A) :=
  a <- m ;; Task.Ret (inr a).

Definition and_then {A B} (m : Task (JsError.t + A)) (f : A -> Task (JsError.t + B))
  : Task (JsError.t + B) :=
  r <- m ;;
  match r with
  | inl e => Task.Ret (inl e)
  | inr a => f a
  end.

Definition try_catch {A} (body : Task (JsError.t + A)) (handler : JsError.t -> Task A)
  : Task A :=
  r <- body ;;
  match r with
  | inl e => handler e
  | inr a => Task.Ret a
  end.

(** [await p] for a promise that may reject. *)
Definition await_or_throw {A} (op : Op (Settled A)) : Task (JsError.t + A) :=
  r <- await op ;;
  match r with
  | Fulfilled a => Task.Ret (inr a)
  | Rejected e => throw e
  end.

Notation "x <-! m ;; k" := (and_then m (fun x => k))
  (at level 61, m at next level, right associativity) : task_scope.
Notation "m ;;! k" := (and_then m (fun _ => k))
  (at level 61, right associativity) : task_scope.

(** ** JS truthiness of the values the handler tests *)

(** [!!s] for a String-or-undefined/null. *)
Definition truthy (s : option string) : bool :=
  match s with
  | Some s => negb (String.eqb s "")
  | None => false
  end.

(** [a || b] where [a] is a String or undefined. *)
Definition or_else (a : option string) (b : string) : string :=
  match a with
  | Some s => if String.eqb s "" then b else s
  | None => b
  end.

(** A template-literal substitution of a String or undefined. *)
Definition subst (v : option string) : string :=
  match v with
  | Some s => s
  | None => "undefined"
  end.

(** ** The total (lines 44-46)

    [cartItems.reduce((sum, item) => sum + parseFloat(item.price), 0).toFixed(2)] *)
Definition totalPrice (cartItems : list CartItem) : string :=
  JS.toFixed2
    (fold_left (fun sum item => JS.add sum (parseFloat (price item)))
               cartItems JS.pos_zero).

(** ** The alert as every branch configures it *)

Definition show_alert (title message icon : string) (buttons : list Button.t)
  : Task unit :=
  do (setAlertTitle title) ;;
  do (setAlertMessage message) ;;
  do (setAlertIcon icon) ;;
  do (setAlertButtons buttons) ;;
  do (setAlertVisible true).

(** [{ text: 'OK', onPress: () => setAlertVisible(false) }] *)
Definition ok_button : Button.t :=
  {| Button.text := "OK"; Button.onPress := [HideAlert] |}.

(** The button of the 'Order Placed' alert (lines 170-177). *)
Definition order_placed_button : Button.t :=
  {| Button.text := "OK";
     Button.onPress := [HideAlert; ClearCart; Navigate "PurchaseHistory"] |}.

(** ** handleCheckout (lines 89-192) *)

(** [cartItems.map((item) => ({ product: item._id, ..., quantity: 1 }))] *)
Definition order_item (item : CartItem) : OrderItem.t :=
  {| OrderItem.product := _id item;
     OrderItem.examName := examName item;
     OrderItem.subjectName := subjectName item;
     OrderItem.subjectCode := subjectCode item;
     OrderItem.price := price item;
     OrderItem.image := image item;
     OrderItem.quantity := 1 |}.

(** [createdOrder.orderItems.forEach((orderItem) => console.log(...))] *)
Fixpoint log_pdf_links (orderItems : list CreatedItem.t) : Task (JsError.t + unit) :=
  match orderItems with
  | [] => Task.Ret (inr tt)
  | orderItem :: rest =>
      match CreatedItem.product orderItem with
      | None => e <- do TypeError ;; throw e
      | Some product =>
          do (console_log ("PDF Link for " ++ subst (CreatedItem.examName orderItem)
                            ++ ": " ++ subst (Product.pdfLink product))) ;;
          log_pdf_links rest
      end
  end.

Definition forEach_log (orderItems : option (list CreatedItem.t))
  : Task (JsError.t + unit) :=
  match orderItems with
  | None => e <- do TypeError ;; throw e
  | Some items => log_pdf_links items
  end.

(** The [try] block (lines 138-182). *)
Definition create_order (cartItems : list CartItem) (totalPrice clientSecret : string)
  : Task (JsError.t + unit) :=
  paidAt <-! attempt (do new_Date) ;;
  let orderData :=
    {| OrderData.orderItems := map order_item cartItems;
       OrderData.totalPrice := JS.parseFloat_string totalPrice;
       OrderData.paymentMethod := "Card";
       OrderData.isPaid := true;
       OrderData.paidAt := Some paidAt;
       OrderData.paymentResult := {| PaymentResult.clientSecret := clientSecret |} |} in
  response <-! await_or_throw (api_createOrder orderData) ;;
  match Response.success response, Response.data response with
  | true, Some createdOrder =>
      forEach_log (CreatedOrder.orderItems createdOrder) ;;!
      attempt
        (show_alert "Order Placed"
           "You have successfully purchased the products in your cart. Check your purchase history for details."
           "checkmark-circle"
           [order_placed_button])
  | _, _ =>
      throw (new_Error (or_else (Response.message response) "Failed to place order."))
  end.

(** The [catch] block (lines 183-190). *)
Definition checkout_failed (error : JsError.t) : Task unit :=
  do (console_error "Checkout Error:" (LogError error)) ;;
  show_alert "Checkout Failed"
    (or_else (JsError.message error) "An error occurred during checkout.")
    "close-circle"
    [ok_button].

(** The handler closes over [cartItems] and [totalPrice] of the render
    in which the button was pressed. *)
Definition handleCheckout (cartItems : list CartItem) : Task unit :=
  let totalPrice := totalPrice cartItems in
  do (setLoading true) ;;
  if (List.length cartItems =? 0)%nat then
    show_alert "Cart Empty" "Your cart is empty. Add items before checkout."
      "cart-outline" [ok_button] ;;
    do (setLoading false)
  else
    (* Get Payment Intent *)
    clientSecret <- await (fetchPaymentIntent totalPrice) ;;
    if negb (truthy clientSecret) then
      do (setLoading false)
    else
      let clientSecret := or_else clientSecret "" in
      (* Initialize Payment Sheet *)
      initResult <- await (initPaymentSheet
                             {| SheetParams.paymentIntentClientSecret := clientSecret;
                                SheetParams.merchantDisplayName := "Your App Name" |}) ;;
      match initResult with
      | Some initError =>
          do (console_error "initPaymentSheet Error:" (LogStripeError initError)) ;;
          show_alert "Payment Failed" (StripeError.message initError)
            "cart-outline" [ok_button] ;;
          do (setLoading false)
      | None =>
          (* Present Payment Sheet *)
          presentResult <- await presentPaymentSheet ;;
          match presentResult with
          | Some paymentError =>
              do (console_error "Payment Error:" (LogStripeError paymentError)) ;;
              show_alert "Payment Failed" (StripeError.message paymentError)
                "cart-outline" [ok_button] ;;
              do (setLoading false)
          | None =>
              (* If payment success, create order *)
              try_catch (create_order cartItems totalPrice clientSecret)
                        checkout_failed ;;
              do (setLoading false)
          end
      end.

(** ** The component's state *)

Record Page := {
  cartItems : list CartItem;      (* CartContext *)
  loading : bool;
  alertVisible : bool;
  alertTitle : string;
  alertMessage : string;
  alertIcon : string;
  alertButtons : list Button.t
}.

(** The state at mount: [useState(false)], [useState('')], [useState([])]. *)
Definition mount (cartItems : list CartItem) : Page :=
  {| cartItems := cartItems; loading := false; alertVisible := false;
     alertTitle := ""; alertMessage := ""; alertIcon := ""; alertButtons := [] |}.

(** The effect of an operation on the state. *)
Definition update {R} (op : Op R) (p : Page) : Page :=
  match op with
  | setLoading b =>
      {| cartItems := cartItems p; loading := b; alertVisible := alertVisible p;
         alertTitle := alertTitle p; alertMessage := alertMessage p;
         alertIcon := alertIcon p; alertButtons := alertButtons p |}
  | setAlertTitle s =>
      {| cartItems := cartItems p; loading := loading p; alertVisible := alertVisible p;
         alertTitle := s; alertMessage := alertMessage p;
         alertIcon := alertIcon p; alertButtons := alertButtons p |}
  | setAlertMessage s =>
      {| cartItems := cartItems p; loading := loading p; alertVisible := alertVisible p;
         alertTitle := alertTitle p; alertMessage := s;
         alertIcon := alertIcon p; alertButtons := alertButtons p |}
  | setAlertIcon s =>
      {| cartItems := cartItems p; loading := loading p; alertVisible := alertVisible p;
         alertTitle := alertTitle p; alertMessage := alertMessage p;
         alertIcon := s; alertButtons := alertButtons p |}
  | setAlertButtons bs =>
      {| cartItems := cartItems p; loading := loading p; alertVisible := alertVisible p;
         alertTitle := alertTitle p; alertMessage := alertMessage p;
         alertIcon := alertIcon p; alertButtons := bs |}
  | setAlertVisible b =>
      {| cartItems := cartItems p; loading := loading p; alertVisible := b;
         alertTitle := alertTitle p; alertMessage := alertMessage p;
         alertIcon := alertIcon p; alertButtons := alertButtons p |}
  | removeFromCart id =>
      {| cartItems := Cart.removeFromCart id (cartItems p); loading := loading p;
         alertVisible := alertVisible p;
         alertTitle := alertTitle p; alertMessage := alertMessage p;
         alertIcon := alertIcon p; alertButtons := alertButtons p |}
  | clearCart =>
      {| cartItems := Cart.clearCart (cartItems p); loading := loading p;
         alertVisible := alertVisible p;
         alertTitle := alertTitle p; alertMessage := alertMessage p;
         alertIcon := alertIcon p; alertButtons := alertButtons p |}
  | _ => p
  end.

(** What the component did, as an observer records it: an operation
    performed together with what it returned (for an awaited call, what it
    settled to), or an awaited call issued and not yet settled. *)
Inductive Event :=
| Did (R : Type) (op : Op R) (result : R)
| Called (R : Type) (op : Op R).
Arguments Did {R} op result.
Arguments Called {R} op.

(** ** One checkout attempt against given collaborators *)

(** What the collaborators and the engine answer during one attempt. *)
Record Env := {
  intent : option string;              (* fetchPaymentIntent *)
  initResult : SheetResult;            (* initPaymentSheet *)
  presentResult : SheetResult;         (* presentPaymentSheet *)
  orderResult : Settled Response.t;    (* api.createOrder *)
  now : Date;                          (* new Date() *)
  typeError : JsError.t                (* the engine's TypeError *)
}.

Definition answer (env : Env) {R} (op : Op R) : R :=
  match op in Op R return R with
  | setLoading _ | setAlertTitle _ | setAlertMessage _ | setAlertIcon _
  | setAlertButtons _ | setAlertVisible _ | removeFromCart _ | clearCart
  | navigation_navigate _ | console_error _ _ | console_log _ => tt
  | new_Date => now env
  | TypeError => typeError env
  | fetchPaymentIntent _ => intent env
  | initPaymentSheet _ => initResult env
  | presentPaymentSheet => presentResult env
  | api_createOrder _ => orderResult env
  end.

(** What an observer records when [op] is performed and returns [r]:
    an awaited call is first issued, then settles. *)
Definition events_of {R} (op : Op R) (r : R) : list Event :=
  if is_await op then [Called op; Did op r] else [Did op r].

(** Runs a handler to its end, every await settling at once: the
    result, the state it leaves, and what it did, oldest first. *)
Fixpoint run {A} (env : Env) (m : Task A) (p : Page) : A * Page * list Event :=
  match m with
  | Task.Ret a => (a, p, [])
  | Task.Vis op k =>
      let r := answer env op in
      let '(a, p', evs) := run env (k r) (update op p) in
      (a, p', (events_of op r ++ evs)%list)
  end.

Definition final {A} (x : A * Page * list Event) : Page := snd (fst x).
Definition trace {A} (x : A * Page * list Event) : list Event := snd x.

(** ** The event loop

    Between two awaits the handler runs without interruption; at an
    await it is suspended and the page handles whatever comes next: a
    press, or the settlement of a pending call. *)

(** A handler suspended at [await op]. *)
Inductive Suspended :=
| Waiting (R : Type) (op : Op R) (k : R -> Task unit).
Arguments Waiting {R} op k.

(** Runs a handler up to its next await. *)
Fixpoint advance (env : Env) (m : Task unit) (p : Page)
  : Page * list Event * option Suspended :=
  match m with
  | Task.Ret _ => (p, [], None)
  | Task.Vis op k =>
      if is_await op then (p, [Called op], Some (Waiting op k))
      else
        let r := answer env op in
        let '(p', evs, s) := advance env (k r) (update op p) in
        (p', Did op r :: evs, s)
  end.

Record Config := {
  page : Page;
  pending : list Suspended;   (* the attempts in flight *)
  history : list Event        (* oldest first *)
}.

Definition idle (p : Page) : Config :=
  {| page := p; pending := []; history := [] |}.

(** The closure of an alert button. *)
Definition perform_action (a : Action) : Task unit :=
  match a with
  | HideAlert => do (setAlertVisible false)
  | ClearCart => do clearCart
  | Navigate route => do (navigation_navigate route)
  end.

Fixpoint perform_actions (acts : list Action) : Task unit :=
  match acts with
  | [] => Task.Ret tt
  | a :: rest => perform_action a ;; perform_actions rest
  end.

(** [onClose={() => setAlertVisible(false)}] (line 275) *)
Definition alert_onClose : Task unit := do (setAlertVisible false).

(** The footer is rendered when [cartItems.length > 0] (line 247) and
    its button is [disabled={loading}] (line 260).  The page an input
    meets is the one rendered from the state the previous input left. *)
Definition checkout_enabled (p : Page) : bool :=
  (0 <? List.length (cartItems p))%nat && negb (loading p).

(** Modelled from the spec: [CustomAlert] is not among the sources.
    Section 6 has the notification surface accept a title, a message, an
    icon and buttons, "each button has a label and an action": while the
    alert is visible, pressing a button runs its [onPress] and dismissing
    the alert runs [onClose]. *)
Inductive Input :=
| PressCheckout (env : Env)     (* the Checkout button, onPress={handleCheckout} *)
| Settle (n : nat) (env : Env)  (* the call the n-th attempt awaits settles *)
| PressAlertButton (n : nat)    (* the n-th button of the alert *)
| CloseAlert                    (* the alert's onClose *)
| PressTrash (id : string).     (* the trash icon of a rendered item *)

Fixpoint remove_nth {A} (n : nat) (l : list A) : list A :=
  match n, l with
  | _, [] => []
  | O, _ :: l' => l'
  | S n', a :: l' => a :: remove_nth n' l'
  end.

Definition opt_list {A} (o : option A) : list A :=
  match o with
  | Some a => [a]
  | None => []
  end.

(** Starts a synchronous or asynchronous handler on the page. *)
Definition start (env : Env) (m : Task unit) (c : Config) : Config :=
  let '(p', evs, s) := advance env m (page c) in
  {| page := p'; pending := pending c ++ opt_list s; history := history c ++ evs |}.

(** The handlers of the alert and of the trash icon ask nothing of the
    collaborators or of the engine; they run against this environment. *)
Definition empty_env : Env :=
  {| intent := None; initResult := None; presentResult := None;
     orderResult := Rejected {| JsError.message := None |};
     now := 0%Z; typeError := {| JsError.message := None |} |}.

(** One input handled: the handler it starts, or resumes, runs up to its
    next await. *)
Definition step (i : Input) (c : Config) : Config :=
  match i with
  | PressCheckout env =>
      if checkout_enabled (page c)
      then start env (handleCheckout (cartItems (page c))) c
      else c
  | Settle n env =>
      match nth_error (pending c) n with
      | Some (Waiting op k) =>
          let r := answer env op in
          let '(p', evs, s) := advance env (k r) (page c) in
          {| page := p';
             pending := remove_nth n (pending c) ++ opt_list s;
             history := history c ++ Did op r :: evs |}
      | None => c
      end
  | PressAlertButton n =>
      if alertVisible (page c) then
        match nth_error (alertButtons (page c)) n with
        | Some b => start empty_env (perform_actions (Button.onPress b)) c
        | None => c
        end
      else c
  | CloseAlert =>
      if alertVisible (page c) then start empty_env alert_onClose c else c
  | PressTrash id =>
      if has_id id (cartItems (page c))
      then start empty_env (do (removeFromCart id)) c
      else c
  end.

Definition exec (inputs : list Input) (c : Config) : Config :=
  fold_left (fun c i => step i c) inputs c.

End CartPage.

(* ================================================================== *)
(** * MarketPage.js                                                     *)
(* ================================================================== *)

Module MarketPage.

Import Cart.
Local Open Scope string_scope.

(** The cart of the context and the alert state of the screen. *)
Record Page := {
  cartItems : list CartItem;
  alertVisible : bool;
  alertTitle : string;
  alertMessage : string;
  alertIcon : string;
  alertButtons : list CartPage.Button.t
}.

Definition setAlertTitle (s : string) (p : Page) : Page :=
  {| cartItems := cartItems p; alertVisible := alertVisible p; alertTitle := s;
     alertMessage := alertMessage p; alertIcon := alertIcon p;
     alertButtons := alertButtons p |}.

Definition setAlertMessage (s : string) (p : Page) : Page :=
  {| cartItems := cartItems p; alertVisible := alertVisible p;
     alertTitle := alertTitle p; alertMessage := s; alertIcon := alertIcon p;
     alertButtons := alertButtons p |}.

Definition setAlertIcon (s : string) (p : Page) : Page :=
  {| cartItems := cartItems p; alertVisible := alertVisible p;
     alertTitle := alertTitle p; alertMessage := alertMessage p; alertIcon := s;
     alertButtons := alertButtons p |}.

Definition setAlertButtons (bs : list CartPage.Button.t) (p : Page) : Page :=
  {| cartItems := cartItems p; alertVisible := alertVisible p;
     alertTitle := alertTitle p; alertMessage := alertMessage p;
     alertIcon := alertIcon p; alertButtons := bs |}.

Definition setAlertVisible (b : bool) (p : Page) : Page :=
  {| cartItems := cartItems p; alertVisible := b;
     alertTitle := alertTitle p; alertMessage := alertMessage p;
     alertIcon := alertIcon p; alertButtons := alertButtons p |}.

(** [addToCart(item)] through the context: the cart is updated and the
    call returns whether the item was inserted. *)
Definition addToCart (item : CartItem) (p : Page) : bool * Page :=
  let '(added, cart) := Cart.addToCart item (cartItems p) in
  (added,
   {| cartItems := cart; alertVisible := alertVisible p;
      alertTitle := alertTitle p; alertMessage := alertMessage p;
      alertIcon := alertIcon p; alertButtons := alertButtons p |}).

(** [handleAddToCart] (lines 168-186), returning [added] with the state. *)
Definition handleAddToCart (item : CartItem) (p : Page) : bool * Page :=
  let '(added, p) := addToCart item p in
  let p :=
    if added then
      setAlertIcon "cart"
        (setAlertMessage (name item ++ " has been added to your cart.")
           (setAlertTitle "Success" p))
    else
      setAlertIcon "information-circle"
        (setAlertMessage (name item ++ " is already in your cart.")
           (setAlertTitle "Info" p)) in
  (added, setAlertVisible true (setAlertButtons [CartPage.ok_button] p)).

End MarketPage.

(* ================================================================== *)
(** * Properties of handlers, along every path                          *)
(* ================================================================== *)

Module Paths.

Import Cart CartPage.

(** [always next ok post m s]: whatever the operations of [m] return,
    every operation is issued in a state where [ok] allows it, and [m]
    ends in a state satisfying [post].  The state is a ghost: [next]
    updates it on every recorded event. *)
Section Always.
Variable S : Type.
Variable next : S -> Event -> S.
Variable ok : S -> forall R, Op R -> Prop.

Fixpoint always {A} (post : A -> S -> Prop) (m : Task A) (s : S) : Prop :=
  match m with
  | Task.Ret a => post a s
  | Task.Vis op k =>
      ok s op /\ forall r, always post (k r) (fold_left next (events_of op r) s)
  end.

(** The same discipline read off a record of events: a call when it is
    issued, a synchronous operation when it is done. *)
Definition issued_ok (s : S) (e : Event) : Prop :=
  match e with
  | Called op => ok s op
  | Did op _ => is_await op = false -> ok s op
  end.

Fixpoint valid (s : S) (evs : list Event) : Prop :=
  match evs with
  | [] => True
  | e :: evs' => issued_ok s e /\ valid (next s e) evs'
  end.
End Always.

(** ** Recognisers of events *)

Definition is_some {A} (o : option A) : bool :=
  match o with
  | Some _ => true
  | None => false
  end.

(** The order API is called. *)
Definition is_order_call (e : Event) : bool :=
  match e with
  | Called op => match op with api_createOrder _ => true | _ => false end
  | Did _ _ => false
  end.

Definition order_calls (evs : list Event) : nat :=
  List.length (filter is_order_call evs).

(** [response.success && response.data] *)
Definition persisted (response : Response.t) : bool :=
  Response.success response && is_some (Response.data response).

(** The order API has answered that the order is persisted. *)
Definition is_confirmation (e : Event) : bool :=
  match e with
  | Did op r =>
      match op in Op R return R -> bool with
      | api_createOrder _ => fun r =>
          match r with
          | Fulfilled response => persisted response
          | Rejected _ => false
          end
      | _ => fun _ => false
      end r
  | Called _ => false
  end.

(** The payment sheet has been presented and returned no error. *)
Definition is_payment_confirmed (e : Event) : bool :=
  match e with
  | Did op r =>
      match op in Op R return R -> bool with
      | presentPaymentSheet => fun r => negb (is_some r)
      | _ => fun _ => false
      end r
  | Called _ => false
  end.

Definition is_clear (e : Event) : bool :=
  match e with
  | Did op _ => match op with clearCart => true | _ => false end
  | Called _ => false
  end.

Definition is_navigate (e : Event) : bool :=
  match e with
  | Did op _ => match op with navigation_navigate _ => true | _ => false end
  | Called _ => false
  end.

(** A collaborator is called over the network or the native bridge. *)
Definition is_network (e : Event) : bool :=
  match e with
  | Called _ => true
  | Did op _ => is_await op
  end.

Definition clears (b : Button.t) : bool :=
  existsb (fun a => match a with ClearCart => true | _ => false end)
          (Button.onPress b).

(** ** The loading flag *)

Definition flag_next (s : bool) (e : Event) : bool :=
  match e with
  | Did op _ => match op with setLoading b => b | _ => s end
  | Called _ => s
  end.

(** Every await happens with the flag set. *)
Definition flag_ok (s : bool) R (op : Op R) : Prop :=
  is_await op = true -> s = true.

(** [m] awaits only while the flag is set, and ends with the flag
    cleared. *)
Definition closes {A} (m : Task A) (s : bool) : Prop :=
  always flag_next flag_ok (fun _ s' => s' = false) m s.

(** What holds of a suspended attempt however its call settles. *)
Definition resumes (s : Suspended)
  (P : forall R, Op R -> R -> Task unit -> Prop) : Prop :=
  match s with
  | Waiting op k => forall r, P _ op r (k r)
  end.

Definition awaits_call (s : Suspended) : bool :=
  match s with
  | Waiting op _ => is_await op
  end.

(** At most one attempt is in flight, and [loading] says whether one is. *)
Definition guarded (c : Config) : Prop :=
  (pending c = [] /\ loading (page c) = false) \/
  (exists s,
      pending c = [s] /\ loading (page c) = true /\
      resumes s (fun _ _ _ m => closes m true)).

(** ** Calls to the order API *)

Definition once_next (n : nat) (e : Event) : nat :=
  if is_order_call e then S n else n.

Definition once_ok (n : nat) R (op : Op R) : Prop :=
  match op with
  | api_createOrder _ => n = O
  | _ => True
  end.

Definition once {A} (m : Task A) (n : nat) : Prop :=
  always once_next once_ok (fun _ _ => True) m n.

(** ** Clearing the cart *)

Definition confirmed_next (s : bool) (e : Event) : bool :=
  s || is_confirmation e.

(** The cart is cleared, and a button that clears it is installed, only
    once an order is confirmed. *)
Definition clear_ok (s : bool) R (op : Op R) : Prop :=
  match op with
  | clearCart => s = true
  | setAlertButtons bs => existsb clears bs = true -> s = true
  | _ => True
  end.

Definition clears_after_order {A} (m : Task A) (s : bool) : Prop :=
  always confirmed_next clear_ok (fun _ _ => True) m s.

(** ** Submitting a paid order *)

Definition paid_next (s : bool) (e : Event) : bool :=
  s || is_payment_confirmed e.

(** An order is submitted only after the payment sheet returned without
    error, and then as paid, with its payment date. *)
Definition submit_ok (s : bool) R (op : Op R) : Prop :=
  match op with
  | api_createOrder d =>
      s = true /\ OrderData.isPaid d = true /\ OrderData.paidAt d <> None
  | _ => True
  end.

(** ** The inputs of a script *)

Definition is_press (i : Input) : bool :=
  match i with
  | PressCheckout _ => true
  | _ => false
  end.

Definition no_press (inputs : list Input) : bool :=
  forallb (fun i => negb (is_press i)) inputs.

(** ** What the collaborators answer *)

(** [forEach] over the created order's items reads every item. *)
Definition loggable (response : Response.t) : bool :=
  match Response.data response with
  | Some createdOrder =>
      match CreatedOrder.orderItems createdOrder with
      | Some items => forallb (fun i => is_some (CreatedItem.product i)) items
      | None => false
      end
  | None => false
  end.

(** Every step of the attempt succeeds. *)
Definition succeeds (env : Env) : bool :=
  truthy (intent env) && negb (is_some (initResult env)) &&
  negb (is_some (presentResult env)) &&
  match orderResult env with
  | Fulfilled response => persisted response && loggable response
  | Rejected _ => false
  end.

(** The attempt fails before the order is submitted. *)
Definition fails_early (env : Env) : bool :=
  negb (truthy (intent env)) || is_some (initResult env) ||
  is_some (presentResult env).

(** ** What [run] and the event loop do with a handler *)

(** [log_pdf_links], as [run] performs it. *)
Fixpoint log_events (env : Env) (orderItems : list CreatedItem.t) : list Event :=
  match orderItems with
  | [] => []
  | orderItem :: rest =>
      match CreatedItem.product orderItem with
      | None => [Did TypeError (typeError env)]
      | Some product =>
          Did (console_log ("PDF Link for " ++ subst (CreatedItem.examName orderItem)
                             ++ ": " ++ subst (Product.pdfLink product))%string) tt
          :: log_events env rest
      end
  end.

Definition log_result (env : Env) (orderItems : list CreatedItem.t)
  : JsError.t + unit :=
  if forallb (fun i => is_some (CreatedItem.product i)) orderItems
  then inr tt else inl (typeError env).

(** The awaits of [m] when the answers are those of [env]. *)
Fixpoint awaits {A} (env : Env) (m : Task A) : nat :=
  match m with
  | Task.Ret _ => O
  | Task.Vis op k => (if is_await op then 1 else 0) + awaits env (k (answer env op))
  end.

Definition count_next (n : nat) (e : Event) : nat :=
  match e with
  | Called _ => S n
  | Did _ _ => n
  end.

Definition count_ok (bound : nat) (n : nat) R (op : Op R) : Prop :=
  is_await op = true -> (n < bound)%nat.

(** ** Invariants of the event loop *)

(** The order API has been called once at most, and no attempt in flight
    will call it a second time. *)
Definition within_budget (c : Config) : Prop :=
  guarded c /\ (order_calls (history c) <= 1)%nat /\
  forall w, In w (pending c) ->
    resumes w (fun _ _ _ m => once m (order_calls (history c))).

Definition order_confirmed (c : Config) : bool :=
  existsb is_confirmation (history c).

(** The cart was cleared, and can be cleared from the alert, only after
    a confirmation; the attempts in flight keep it so. *)
Definition clears_guarded (c : Config) : Prop :=
  valid confirmed_next clear_ok false (history c) /\
  (existsb clears (alertButtons (page c)) = true -> order_confirmed c = true) /\
  forall w, In w (pending c) ->
    awaits_call w = true /\
    resumes w (fun _ op r m =>
      clears_after_order m (confirmed_next (order_confirmed c) (Did op r))).

Local Open Scope string_scope.

(** The environment in which the presentation of the payment sheet
    resolves to [result]. *)
Definition with_presentResult (env : Env) (result : SheetResult) : Env :=
  {| intent := intent env; initResult := initResult env;
     presentResult := result; orderResult := orderResult env;
     now := now env; typeError := typeError env |}.

(** ** Sample data *)

Definition sample_item : CartItem :=
  {| _id := "p1"; name := "Algebra notes"; examName := "Algebra";
     subjectName := "Mathematics"; subjectCode := "MTH101";
     price := PriceString "12.50"; image := "algebra.png" |}.

Definition sample_cart : list CartItem := [sample_item].

Definition sample_response : Response.t :=
  {| Response.success := true;
     Response.data :=
       Some {| CreatedOrder.orderItems :=
                 Some [{| CreatedItem.examName := Some "Algebra";
                          CreatedItem.product :=
                            Some {| Product.pdfLink := Some "algebra.pdf" |} |}] |};
     Response.message := None |}.

(** Every collaborator succeeds. *)
Definition success_env : Env :=
  {| intent := Some "pi_secret"; initResult := None; presentResult := None;
     orderResult := Fulfilled sample_response; now := 1700000000000%Z;
     typeError := {| JsError.message := Some "TypeError" |} |}.

(** The payment-intent provider returns null. *)
Definition no_intent_env : Env :=
  {| intent := None; initResult := None; presentResult := None;
     orderResult := Fulfilled sample_response; now := 1700000000000%Z;
     typeError := {| JsError.message := Some "TypeError" |} |}.

(** The initialisation of the payment sheet returns an error. *)
Definition init_error_env : Env :=
  {| intent := Some "pi_secret";
     initResult := Some {| StripeError.code := "Failed";
                           StripeError.message := "No such payment_intent" |};
     presentResult := None;
     orderResult := Fulfilled sample_response; now := 1700000000000%Z;
     typeError := {| JsError.message := Some "TypeError" |} |}.

(** The user closes the payment sheet. *)
Definition canceled : StripeError.t :=
  {| StripeError.code := "Canceled";
     StripeError.message := "The payment has been canceled" |}.

(** Another error of the payment sheet, with the same message. *)
Definition declined : StripeError.t :=
  {| StripeError.code := "Failed";
     StripeError.message := "The payment has been canceled" |}.

(** The alert is shown. *)
Definition is_notification (e : Event) : bool :=
  match e with
  | Did op _ => match op with setAlertVisible b => b | _ => false end
  | Called _ => false
  end.

(** The alert is configured or shown. *)
Definition is_alert (e : Event) : bool :=
  match e with
  | Did op _ =>
      match op with
      | setAlertTitle _ | setAlertMessage _ | setAlertIcon _
      | setAlertButtons _ | setAlertVisible _ => true
      | _ => false
      end
  | Called _ => false
  end.

(** The page shows the alert with the single OK button that hides it. *)
Definition shows (p : Page) (title message icon : string) : Prop :=
  alertVisible p = true /\ alertTitle p = title /\ alertMessage p = message /\
  alertIcon p = icon /\ alertButtons p = [ok_button].

Fixpoint first_index (f : Event -> bool) (evs : list Event) : option nat :=
  match evs with
  | [] => None
  | e :: evs' =>
      if f e then Some O
      else match first_index f evs' with
           | Some n => Some (S n)
           | None => None
           end
  end.

(** The order of the terminal actions as section 4.2, rule 6 has it:
    the cart is cleared, then the navigation, then the notification. *)
Definition clear_navigate_notify (evs : list Event) : Prop :=
  exists i j k,
    first_index is_clear evs = Some i /\
    first_index is_navigate evs = Some j /\
    first_index is_notification evs = Some k /\
    (i < j)%nat /\ (j < k)%nat.

(** The cart after the removals of a script. *)
Fixpoint after_trash (inputs : list Input) (cart : list CartItem) : list CartItem :=
  match inputs with
  | [] => cart
  | PressTrash id :: rest => after_trash rest (Cart.removeFromCart id cart)
  | _ :: rest => after_trash rest cart
  end.

End Paths.

(* ================================================================== *)
(** * The total as the specification words it                           *)
(* ================================================================== *)

Module DecimalTotal.

Import Cart CartPage.
Local Open Scope string_scope.

(** The amount a price denotes, exactly: the decimal a String spells, the
    value of a Number. *)
Definition decimal_value (v : Price) : option Q :=
  match v with
  | PriceString s => JS.literal_value (JS.scan s)
  | PriceNumber x => JS.value x
  end.

(** Section 4.1: "the exact decimal sum of price over the snapshot". *)
Fixpoint exact_sum (cartItems : list CartItem) : option Q :=
  match cartItems with
  | [] => Some 0%Q
  | item :: rest =>
      match decimal_value (price item), exact_sum rest with
      | Some d, Some q => Some (Qplus d q)
      | _, _ => None
      end
  end.

(** A non-negative amount in hundredths, rounded half up. *)
Definition round2 (q : Q) : Z :=
  Qfloor (Qplus (Qmult q (inject_Z 100)) (Qmake 1 2)).

(** Section 3: the decimal sum of the item prices, rounded to 2 decimal
    places. *)
Definition spec_totalPrice (cartItems : list CartItem) : option string :=
  match exact_sum cartItems with
  | Some q => Some (JS.fixed2_digits (round2 q))
  | None => None
  end.

(** Adding [item] to the running sum [acc] loses nothing: the price is
    a non-negative amount that [parseFloat] reads exactly, and the
    binary64 sum is the exact sum. *)
Definition exact_step (acc : JS.Number) (item : CartItem) : bool :=
  let x := parseFloat (price item) in
  match decimal_value (price item), JS.value x, JS.value acc, JS.value (JS.add acc x) with
  | Some d, Some vx, Some va, Some vs =>
      Qeq_bool vx d && Qle_bool 0 d && Qeq_bool vs (Qplus va vx)
  | _, _, _, _ => false
  end.

Fixpoint exact_from (acc : JS.Number) (cartItems : list CartItem) : bool :=
  match cartItems with
  | [] => true
  | item :: rest =>
      exact_step acc item && exact_from (JS.add acc (parseFloat (price item))) rest
  end.

(** No step of the reduction rounds. *)
Definition exact (cartItems : list CartItem) : bool :=
  exact_from JS.pos_zero cartItems.

Definition priced (id p : string) : CartItem :=
  {| _id := id; name := id; examName := id; subjectName := "Mathematics";
     subjectCode := "MTH101"; price := PriceString p; image := "" |}.

(** Prices beyond the integers that binary64 holds exactly. *)
Definition large_cart : list CartItem :=
  [priced "a" "10000000000000000"; priced "b" "1"; priced "c" "1"].

(** A price that is not a binary fraction, half a cent above 1.01. *)
Definition tie_cart : list CartItem := [priced "a" "1.015"].

(** Prices that are binary fractions. *)
Definition exact_cart : list CartItem :=
  [priced "a" "12.50"; priced "b" "7.25"; priced "c" "0.125"].

(** ** Prices in cents *)

(** The amount in cents that a decimal literal spells, when it is not
    negative and is a whole number of cents. *)
Definition cents_of (l : JS.Literal) : option Z :=
  match l with
  | JS.Decimal false c j =>
      if (c <? 0)%Z then None
      else if (0 <=? j + 2)%Z then Some (c * 10 ^ (j + 2))%Z
      else if (c mod 10 ^ (- (j + 2)) =? 0)%Z then Some (c / 10 ^ (- (j + 2)))%Z
      else None
  | _ => None
  end.

(** The price in cents: of a String, what it spells; of a Number, what
    the String of the Number spells, which is what [parseFloat] reads.
    ECMAScript prints every finite Number so that it reads back as
    itself; here that is asked of the Number. *)
Definition cents (v : Price) : option Z :=
  match v with
  | PriceString s => cents_of (JS.scan s)
  | PriceNumber x =>
      if JS.Number_eqb (JS.parseFloat_number x) x then cents_of (JS.scan (JS.toString x))
      else None
  end.

(** The sum of the prices, in cents, when every price is in cents. *)
Fixpoint cents_sum (cartItems : list CartItem) : option Z :=
  match cartItems with
  | [] => Some 0
  | item :: rest =>
      match cents (price item), cents_sum rest with
      | Some t, Some T => Some (t + T)
      | _, _ => None
      end
  end.

(** A Number that is not negative: a zero or a positive finite one. *)
Definition nonneg (x : JS.Number) : Prop :=
  match x with
  | S754_zero _ => True
  | S754_finite s _ _ => s = false
  | _ => False
  end.

(** How far from an amount below [2^k] [parseFloat] may read it: half a
    unit in the last place of binary64, and what the quotient of
    [JS.of_decimal] leaves out. *)
Definition read_error (k : Z) : Q := (JS.pow2 (k - 54) + JS.pow2 (k - 65))%Q.

(** What one item may add to the distance between the binary64 sum and
    the sum of the cents, below [2^k]: the error of [parseFloat] and
    that of the addition. *)
Definition step_error (k : Z) : Q := (JS.pow2 (k - 53) + JS.pow2 (k - 65))%Q.

(** An item whose price is the Number that the literal [c * 10^j]
    denotes. *)
Definition numbered (id : string) (c j : Z) : CartItem :=
  {| _id := id; name := id; examName := id; subjectName := "Mathematics";
     subjectCode := "MTH101"; price := PriceNumber (JS.of_decimal false c j);
     image := "" |}.

(** Prices of an ordinary catalogue, the last two as Numbers (0.1 and
    0.2). *)
Definition ordinary_cart : list CartItem :=
  [priced "a" "19.99"; priced "b" "5.01"; numbered "c" 1 (-1); numbered "d" 2 (-1)].

(** One price in cents, a cent above [2^46]. *)
Definition beyond_cart : list CartItem := [priced "a" "70368744177664.01"].

End DecimalTotal.

(* ================================================================== *)
(** * What an attempt sends to the collaborators                        *)
(* ================================================================== *)

Module Calls.

Import Cart CartPage.
Local Open Scope string_scope.

(** The collaborators of [handleCheckout], in the order of its text. *)
Inductive Collaborator :=
| IntentProvider   (* fetchPaymentIntent *)
| SheetInit        (* initPaymentSheet *)
| SheetPresent     (* presentPaymentSheet *)
| OrderApi.        (* api.createOrder *)

Definition pipeline : list Collaborator :=
  [IntentProvider; SheetInit; SheetPresent; OrderApi].

Definition callee (e : Event) : option Collaborator :=
  match e with
  | Called op =>
      match op with
      | fetchPaymentIntent _ => Some IntentProvider
      | initPaymentSheet _ => Some SheetInit
      | presentPaymentSheet => Some SheetPresent
      | api_createOrder _ => Some OrderApi
      | _ => None
      end
  | Did _ _ => None
  end.

(** The collaborators called, oldest first. *)
Definition callees (evs : list Event) : list Collaborator :=
  flat_map (fun e => opt_list (callee e)) evs.

(** The amount an intent is requested for. *)
Definition amount_of (e : Event) : option string :=
  match e with
  | Called op => match op with fetchPaymentIntent amount => Some amount | _ => None end
  | Did _ _ => None
  end.

Definition amounts (evs : list Event) : list string :=
  flat_map (fun e => opt_list (amount_of e)) evs.

(** The parameters the payment sheet is initialised with. *)
Definition sheet_of (e : Event) : option SheetParams.t :=
  match e with
  | Called op => match op with initPaymentSheet params => Some params | _ => None end
  | Did _ _ => None
  end.

Definition sheets (evs : list Event) : list SheetParams.t :=
  flat_map (fun e => opt_list (sheet_of e)) evs.

(** The order submitted to the order API. *)
Definition draft_of (e : Event) : option OrderData.t :=
  match e with
  | Called op => match op with api_createOrder orderData => Some orderData | _ => None end
  | Did _ _ => None
  end.

Definition drafts (evs : list Event) : list OrderData.t :=
  flat_map (fun e => opt_list (draft_of e)) evs.

(** The secret the intent provider answered last. *)
Definition secret_next (s : option string) (e : Event) : option string :=
  match e with
  | Did op r =>
      match op in Op R return R -> option string with
      | fetchPaymentIntent _ => fun r => r
      | _ => fun _ => s
      end r
  | Called _ => s
  end.

(** What is sent is computed from the snapshot [cartItems] and from the
    secret received: the intent is requested for the displayed total, the
    sheet is initialised with the secret, and the order mirrors the
    snapshot and carries the total and the secret. *)
Definition snapshot_ok (cartItems : list CartItem) (s : option string)
  R (op : Op R) : Prop :=
  match op with
  | fetchPaymentIntent amount => amount = totalPrice cartItems
  | initPaymentSheet params =>
      s = Some (SheetParams.paymentIntentClientSecret params) /\
      SheetParams.merchantDisplayName params = "Your App Name"
  | api_createOrder d =>
      OrderData.orderItems d = map order_item cartItems /\
      OrderData.totalPrice d = JS.parseFloat_string (totalPrice cartItems) /\
      OrderData.paymentMethod d = "Card" /\
      s = Some (PaymentResult.clientSecret (OrderData.paymentResult d))
  | _ => True
  end.

(** The same read off a submitted order. *)
Definition mirrors (cartItems : list CartItem) (d : OrderData.t) : Prop :=
  OrderData.orderItems d = map order_item cartItems /\
  OrderData.totalPrice d = JS.parseFloat_string (totalPrice cartItems) /\
  OrderData.paymentMethod d = "Card".

(** The attempts in flight were started on the snapshot [cartItems]. *)
Definition on_snapshot (cartItems : list CartItem) (c : Config) : Prop :=
  (forall a, In a (amounts (history c)) -> a = totalPrice cartItems) /\
  (forall d, In d (drafts (history c)) -> mirrors cartItems d) /\
  forall w, In w (pending c) ->
    Paths.resumes w (fun _ op r m =>
      exists s, Paths.always secret_next (snapshot_ok cartItems)
                  (fun _ _ => True) m s).

(** How far down the pipeline the answers of [env] let an attempt go:
    a collaborator is reached when every one before it has succeeded. *)
Definition reached (env : Env) (cartItems : list CartItem) : nat :=
  if (List.length cartItems =? 0)%nat then 0
  else if negb (truthy (intent env)) then 1
  else if Paths.is_some (initResult env) then 2
  else if Paths.is_some (presentResult env) then 3
  else 4.

(** The 'Cart Empty' alert is being configured. *)
Definition is_cart_empty_alert (e : Event) : bool :=
  match e with
  | Did op _ =>
      match op with
      | setAlertTitle title => String.eqb title "Cart Empty"
      | _ => false
      end
  | Called _ => false
  end.

(** An operation that does not configure it. *)
Definition not_cart_empty (_ : unit) R (op : Op R) : Prop :=
  match op with
  | setAlertTitle title => String.eqb title "Cart Empty" = false
  | _ => True
  end.

(** No attempt, past or in flight, takes the empty-cart branch. *)
Definition never_empty (c : Config) : Prop :=
  existsb is_cart_empty_alert (history c) = false /\
  forall w, In w (pending c) ->
    Paths.awaits_call w = true /\
    Paths.resumes w (fun _ op r m =>
      Paths.always (fun s _ => s) not_cart_empty (fun _ _ => True) m tt).

End Calls.

(* ================================================================== *)
(** * Handlers of any component                                         *)
(* ================================================================== *)

(** The semantics of [CartPage], for a component given by its
    operations, its state and what its collaborators answer. *)
Module Handler.

Local Unset Implicit Arguments.

Section Semantics.
Variable Op : Type -> Type.
Variable State : Type.
Variable Env : Type.
Variable is_await : forall R, Op R -> bool.
Variable update : forall R, Op R -> State -> State.
Variable answer : Env -> forall R, Op R -> R.

Inductive Event :=
| Did (R : Type) (op : Op R) (result : R)
| Called (R : Type) (op : Op R).

Definition events_of {R} (op : Op R) (r : R) : list Event :=
  if is_await R op then [Called R op; Did R op r] else [Did R op r].

(** Runs a handler to its end, every await settling at once. *)
Fixpoint run {A} (env : Env) (m : Task.t Op A) (s : State)
  : A * State * list Event :=
  match m with
  | Task.Ret a => (a, s, [])
  | Task.Vis op k =>
      let r := answer env _ op in
      let '(a, s', evs) := run env (k r) (update _ op s) in
      (a, s', events_of op r ++ evs)
  end.

(** A handler suspended at an await. *)
Inductive Suspended :=
| Waiting (R : Type) (op : Op R) (k : R -> Task.t Op unit).

(** Runs a handler up to its next await. *)
Fixpoint advance (env : Env) (m : Task.t Op unit) (s : State)
  : State * list Event * option Suspended :=
  match m with
  | Task.Ret _ => (s, [], None)
  | Task.Vis op k =>
      if is_await _ op then (s, [Called _ op], Some (Waiting _ op k))
      else
        let r := answer env _ op in
        let '(s', evs, w) := advance env (k r) (update _ op s) in
        (s', Did _ op r :: evs, w)
  end.

Record Config := {
  state : State;
  pending : list Suspended;
  history : list Event
}.

Definition idle (s : State) : Config :=
  {| state := s; pending := []; history := [] |}.

Definition start (env : Env) (m : Task.t Op unit) (c : Config) : Config :=
  let '(s', evs, w) := advance env m (state c) in
  {| state := s'; pending := pending c ++ CartPage.opt_list w;
     history := history c ++ evs |}.

(** The call the n-th suspended handler awaits settles. *)
Definition settle (n : nat) (env : Env) (c : Config) : Config :=
  match nth_error (pending c) n with
  | Some (Waiting _ op k) =>
      let r := answer env _ op in
      let '(s', evs, w) := advance env (k r) (state c) in
      {| state := s';
         pending := CartPage.remove_nth n (pending c) ++ CartPage.opt_list w;
         history := history c ++ Did _ op r :: evs |}
  | None => c
  end.

(** [always next ok post m g]: whatever the operations of [m] return,
    every operation is issued in a ghost state where [ok] allows it, and
    [m] ends in one satisfying [post]. *)
Section Always.
Variable G : Type.
Variable next : G -> Event -> G.
Variable ok : G -> forall R, Op R -> Prop.

Fixpoint always {A} (post : A -> G -> Prop) (m : Task.t Op A) (g : G) : Prop :=
  match m with
  | Task.Ret a => post a g
  | Task.Vis op k =>
      ok g _ op /\ forall r, always post (k r) (fold_left next (events_of op r) g)
  end.

Definition issued_ok (g : G) (e : Event) : Prop :=
  match e with
  | Called _ op => ok g _ op
  | Did _ op _ => is_await _ op = false -> ok g _ op
  end.

Fixpoint valid (g : G) (evs : list Event) : Prop :=
  match evs with
  | [] => True
  | e :: evs' => issued_ok g e /\ valid (next g e) evs'
  end.
End Always.

Definition resumes (w : Suspended)
  (P : forall R, Op R -> R -> Task.t Op unit -> Prop) : Prop :=
  match w with
  | Waiting _ op k => forall r, P _ op r (k r)
  end.

Definition awaits_call (w : Suspended) : bool :=
  match w with
  | Waiting _ op _ => is_await _ op
  end.

End Semantics.

Arguments Did {Op R} op result.
Arguments Called {Op R} op.
Arguments Waiting {Op R} op k.
Arguments state {Op State} c.
Arguments pending {Op State} c.
Arguments history {Op State} c.
Arguments idle {Op State} s.

(** ** Exceptions inside [try] *)

Section Exceptions.
Variable Op : Type -> Type.
Variable E : Type.

Definition throw {A} (e : E) : Task.t Op (E + A) := Task.Ret (inl e).

Definition attempt {A} (m : Task.t Op A) : Task.t Op (E + A) :=
  Task.bind m (fun a => Task.Ret (inr a)).

Definition and_then {A B} (m : Task.t Op (E + A)) (f : A -> Task.t Op (E + B))
  : Task.t Op (E + B) :=
  Task.bind m (fun r =>
    match r with
    | inl e => Task.Ret (inl e)
    | inr a => f a
    end).

Definition try_catch {A} (body : Task.t Op (E + A)) (handler : E -> Task.t Op A)
  : Task.t Op A :=
  Task.bind body (fun r =>
    match r with
    | inl e => handler e
    | inr a => Task.Ret a
    end).
End Exceptions.

Arguments throw {Op E A} e.
Arguments attempt {Op E A} m.
Arguments and_then {Op E A B} m f.
Arguments try_catch {Op E A} body handler.

Module Notations.
Notation "x <-! m ;; k" := (and_then m (fun x => k))
  (at level 61, m at next level, right associativity) : task_scope.
Notation "m ;;! k" := (and_then m (fun _ => k))
  (at level 61, right associativity) : task_scope.
End Notations.

End Handler.

(* ================================================================== *)
(** * ECMAScript strings and arrays as the market screen uses them      *)
(* ================================================================== *)

Module JSString.

Local Open Scope string_scope.

(** A line terminator of the source text inside a template literal. *)
Definition LF : string := String (ascii_of_nat 10) "".

(** [String.prototype.toUpperCase] on the letters of ASCII; the other
    characters of ASCII have no upper case and stay.  The bytes of a
    character outside ASCII stay as well: its upper case is not
    computed.  Two Strings that this makes equal differ in the case of
    ASCII letters only, and ECMAScript gives them the same upper case
    too. *)
Definition upper (a : ascii) : ascii :=
  let n := nat_of_ascii a in
  if ((97 <=? n) && (n <=? 122))%nat then ascii_of_nat (n - 32) else a.

Fixpoint toUpperCase (s : string) : string :=
  match s with
  | EmptyString => EmptyString
  | String a rest => String (upper a) (toUpperCase rest)
  end.

(** [s.indexOf(searchString)]: the first position at which
    [searchString] occurs, or -1. *)
Definition indexOf (s searchString : string) : Z :=
  match String.index 0 searchString s with
  | Some n => Z.of_nat n
  | None => -1
  end.

(** A query of [n] spaces. *)
Fixpoint spaces (n : nat) : string :=
  match n with
  | O => ""
  | S n' => String " " (spaces n')
  end.

(** The String without the white space behind it: what is left when the
    rest is white space only is dropped.  (No white space character
    begins with a byte that continues another character, so a rest that
    is white space only begins at a character.) *)
Fixpoint trim_end (s : string) : string :=
  match s with
  | EmptyString => EmptyString
  | String a rest =>
      if JS.trim_start s =? "" then EmptyString else String a (trim_end rest)
  end.

(** [String.prototype.trim]: white space, that of [JS.trim_start], is
    removed at both ends. *)
Definition trim (s : string) : string := trim_end (JS.trim_start s).

(** U+00A0 NO-BREAK SPACE and U+2003 EM SPACE. *)
Definition NBSP : string := String (ascii_of_nat 194) (String (ascii_of_nat 160) "").
Definition EM_SPACE : string :=
  String (ascii_of_nat 226) (String (ascii_of_nat 128) (String (ascii_of_nat 131) "")).

(** What [Array.prototype.sort] makes of the Number a comparator
    returns: negative, zero or positive, NaN counting as +0. *)
Definition sign (v : JS.Number) : comparison :=
  match v with
  | S754_zero _ | S754_nan => Eq
  | S754_infinity s | S754_finite s _ _ => if s then Lt else Gt
  end.

(** [x - y] on Numbers. *)
Definition sub (x y : JS.Number) : JS.Number := SFsub JS.prec JS.emax x y.

(** [a <= b] on Numbers: false when either is NaN. *)
Definition le (a b : JS.Number) : bool := SFleb a b.

(** The Number an integer literal of the source denotes. *)
Definition literal (n : Z) : JS.Number := JS.of_decimal false n 0.

(** [Array.prototype.sort(comparefn)].  For a consistent comparator
    ECMAScript determines the result: the elements in ascending order of
    the comparator, those that compare equal in the order they had (the
    sort is stable since ES2019).  This is that order, built by inserting
    the elements from the last to the first. *)
Section Sort.
Variable A : Type.
Variable comparefn : A -> A -> comparison.

Fixpoint insert (x : A) (sorted : list A) : list A :=
  match sorted with
  | [] => [x]
  | y :: rest =>
      match comparefn x y with
      | Gt => y :: insert x rest
      | _ => x :: sorted
      end
  end.

Definition Array_sort (l : list A) : list A := fold_right insert [] l.

(** [a <= b] for the comparator. *)
Definition before (a b : A) : bool :=
  match comparefn a b with
  | Gt => false
  | _ => true
  end.

(** The comparator is consistent on the elements of [l]: swapping its
    arguments swaps its answer, and [before] is transitive. *)
Definition consistent (l : list A) : bool :=
  forallb (fun a => forallb (fun b =>
    match comparefn a b, comparefn b a with
    | Lt, Gt | Eq, Eq | Gt, Lt => true
    | _, _ => false
    end &&
    forallb (fun c => implb (before a b && before b c) (before a c)) l) l) l.

(** The same as a proposition: the comparator is a total preorder on
    the elements of [l]. *)
Definition preorder_on (l : list A) : Prop :=
  (forall a b, In a l -> In b l -> comparefn a b = CompOpp (comparefn b a)) /\
  (forall a b c, In a l -> In b l -> In c l ->
     before a b = true -> before b c = true -> before a c = true).

(** The elements that compare equal to [a]. *)
Definition same_as (a : A) (l : list A) : list A :=
  filter (fun b => match comparefn a b with Eq => true | _ => false end) l.
End Sort.

End JSString.

(* ================================================================== *)
(** * MarketPage.js: the product list                                   *)
(* ================================================================== *)

Module MarketList.

Import Cart.
Import Task.Notations Handler.Notations.
Local Open Scope string_scope.
Local Open Scope task_scope.

(** ** Values exchanged with the product API *)

(** [response.data]; [data] is [None] when [response.data.data] is
    undefined or null. *)
Module Payload.
Record t := { data : option (list CartItem) }.
End Payload.

(** [response.message]: left out, null, or a text. *)
Inductive Message :=
| Undefined
| Null
| Text (s : string).

(** The body [fetchProducts] resolves to. *)
Module Response.
Record t := {
  success : bool;
  data : option Payload.t;
  message : Message
}.
End Response.

(** ** The alert *)

(** What the [onPress] closures of the alert buttons do.  The Retry
    button calls the [fetchAllProducts] of the render that installed it,
    with the [sortOption] it closed over. *)
Inductive Action :=
| HideAlert                                          (* setAlertVisible(false) *)
| Refetch (sortOption : string) (isRefreshing : bool). (* fetchAllProducts(isRefreshing) *)

Module Button.
Record t := { text : string; onPress : list Action }.
End Button.

(** ** Operations of the component

    Modelled from the spec: [fetchProducts] of [services/api] is not
    among the sources.  The handler reads [success], [data.data] and
    [message] of what it resolves to and awaits it inside [try]: like the
    order API of section 6 it resolves to [{ success, data?, message? }]
    or rejects. *)
Inductive Op : Type -> Type :=
| setProducts (data : option (list CartItem)) : Op unit
| setFilteredData (data : list CartItem) : Op unit
| setSortOption (option : string) : Op unit
| setSortModalVisible (b : bool) : Op unit
| setLoading (b : bool) : Op unit
| setError (e : option string) : Op unit
| setRefreshing (b : bool) : Op unit
| setAlertTitle (s : string) : Op unit
| setAlertMessage (s : string) : Op unit
| setAlertIcon (s : string) : Op unit
| setAlertButtons (bs : list Button.t) : Op unit
| setAlertVisible (b : bool) : Op unit
| console_error (label : string) (e : CartPage.JsError.t) : Op unit
| TypeError : Op CartPage.JsError.t   (* a property read on, or a spread of, undefined *)
| fetchProducts : Op (CartPage.Settled Response.t).

Definition Task := Task.t Op.

Definition do {R} (op : Op R) : Task R := Task.perform op.
Definition await {R} (op : Op R) : Task R := Task.perform op.

Definition is_await {R} (op : Op R) : bool :=
  match op with
  | fetchProducts => true
  | _ => false
  end.

(** [await p] for a promise that may reject. *)
Definition await_or_throw {A} (op : Op (CartPage.Settled A)) : Task (CartPage.JsError.t + A) :=
  r <- await op ;;
  match r with
  | CartPage.Fulfilled a => Task.Ret (inr a)
  | CartPage.Rejected e => Handler.throw e
  end.

(** [new Error(message)]: an undefined [message] leaves the error with
    the empty message of [Error.prototype]; any other is converted to a
    String, null to "null". *)
Definition new_Error (message : Message) : CartPage.JsError.t :=
  {| CartPage.JsError.message :=
       Some match message with
            | Text s => s
            | Null => "null"
            | Undefined => ""
            end |}.

(** ** getNumberOfColumns (lines 116-121) *)

(** [width] is the width of the window. *)
Definition getNumberOfColumns (width : JS.Number) : Z :=
  if JSString.le width (JSString.literal 375) then 1
  else if JSString.le width (JSString.literal 800) then 2
  else if JSString.le width (JSString.literal 1200) then 3
  else 4.

(** ** sortData (lines 126-138) *)

Section Locale.
(** The sign of [a.localeCompare(b)] in the locale of the device. *)
Variable localeCompare : string -> string -> comparison.

Definition sortData (dataToSort : list CartItem) (option : string) : list CartItem :=
  let sortedData := dataToSort in
  if option =? "Name (A-Z)" then
    JSString.Array_sort (fun a b => localeCompare (name a) (name b)) sortedData
  else if option =? "Name (Z-A)" then
    JSString.Array_sort (fun a b => localeCompare (name b) (name a)) sortedData
  else if option =? "Price (Low to High)" then
    JSString.Array_sort
      (fun a b => JSString.sign (JSString.sub (parseFloat (price a)) (parseFloat (price b))))
      sortedData
  else if option =? "Price (High to Low)" then
    JSString.Array_sort
      (fun a b => JSString.sign (JSString.sub (parseFloat (price b)) (parseFloat (price a))))
      sortedData
  else sortedData.

(** The comparator [sortData] sorts with, when it sorts. *)
Definition comparator (option : string)
  : Datatypes.option (CartItem -> CartItem -> comparison) :=
  if option =? "Name (A-Z)" then
    Some (fun a b => localeCompare (name a) (name b))
  else if option =? "Name (Z-A)" then
    Some (fun a b => localeCompare (name b) (name a))
  else if option =? "Price (Low to High)" then
    Some (fun a b => JSString.sign (JSString.sub (parseFloat (price a)) (parseFloat (price b))))
  else if option =? "Price (High to Low)" then
    Some (fun a b => JSString.sign (JSString.sub (parseFloat (price b)) (parseFloat (price a))))
  else None.

(** ** fetchAllProducts (lines 71-109) *)

(** The button of the error alert (lines 99-105). *)
Definition retry_button (sortOption : string) (isRefreshing : bool) : Button.t :=
  {| Button.text := "Retry";
     Button.onPress := [HideAlert; Refetch sortOption isRefreshing] |}.

(** The [try] block (lines 73-87). *)
Definition fetch_products (sortOption : string) (isRefreshing : bool)
  : Task (CartPage.JsError.t + unit) :=
  Handler.attempt
    (if isRefreshing then do (setRefreshing true) else do (setLoading true)) ;;!
  response <-! await_or_throw fetchProducts ;;
  Handler.attempt
    (if isRefreshing then do (setRefreshing false) else do (setLoading false)) ;;!
  if Response.success response then
    match Response.data response with
    | None => e <- do TypeError ;; Handler.throw e
    | Some payload =>
        Handler.attempt (do (setProducts (Payload.data payload))) ;;!
        match Payload.data payload with
        | None => e <- do TypeError ;; Handler.throw e
        | Some data =>
            Handler.attempt
              (do (setFilteredData (sortData data sortOption)) ;;
               do (setError None))
        end
    end
  else
    Handler.throw (new_Error (Response.message response)).

(** The [catch] block (lines 88-108). *)
Definition fetch_failed (sortOption : string) (isRefreshing : bool) (err : CartPage.JsError.t)
  : Task unit :=
  do (console_error "Fetch error:" err) ;;
  do (setError (CartPage.JsError.message err)) ;;
  do (setLoading false) ;;
  do (setRefreshing false) ;;
  do (setAlertTitle "Error") ;;
  do (setAlertMessage (CartPage.or_else (CartPage.JsError.message err) "Failed to fetch products.")) ;;
  do (setAlertIcon "alert-circle") ;;
  do (setAlertButtons [retry_button sortOption isRefreshing]) ;;
  do (setAlertVisible true).

(** The handler closes over [sortOption] of its render. *)
Definition fetchAllProducts (sortOption : string) (isRefreshing : bool) : Task unit :=
  Handler.try_catch (fetch_products sortOption isRefreshing)
                    (fetch_failed sortOption isRefreshing).

(** ** handleSortOption (lines 140-144) *)

(** The handler closes over [filteredData] of its render. *)
Definition handleSortOption (filteredData : list CartItem) (option : string)
  : Task unit :=
  do (setSortOption option) ;;
  do (setFilteredData (sortData filteredData option)) ;;
  do (setSortModalVisible false).

(** ** filterData (lines 147-158) *)

(** The template literal of lines 149-153, line breaks and indentation
    included. *)
Definition itemData (item : CartItem) : string :=
  JSString.LF ++ "        " ++ JSString.toUpperCase (subjectName item) ++
  JSString.LF ++ "        " ++ JSString.toUpperCase (subjectCode item) ++
  JSString.LF ++ "        " ++ JSString.toUpperCase (name item) ++
  JSString.LF ++ "      ".

(** The callback of [products.filter]. *)
Definition matches (text : string) (item : CartItem) : bool :=
  let textData := JSString.toUpperCase text in
  (-1 <? JSString.indexOf (itemData item) textData)%Z.

(** The handler closes over [products] and [sortOption]; [products] is
    [None] when [setProducts] was given undefined. *)
Definition filterData (products : Datatypes.option (list CartItem)) (sortOption : string)
  (text : string) : Task (CartPage.JsError.t + unit) :=
  match products with
  | None => e <- do TypeError ;; Handler.throw e
  | Some products =>
      let newData := filter (matches text) products in
      Handler.attempt (do (setFilteredData (sortData newData sortOption)))
  end.

(** ** The effect on [products] (lines 286-293)

    [setFilteredData(sortData(products, sortOption))], run by React after
    a render in which [products] is not the value of the render before.
    [sortData] spreads [products]: the spread of undefined throws. *)
Definition sort_effect (products : Datatypes.option (list CartItem)) (sortOption : string)
  : Task (CartPage.JsError.t + unit) :=
  match products with
  | None => e <- do TypeError ;; Handler.throw e
  | Some products => Handler.attempt (do (setFilteredData (sortData products sortOption)))
  end.

(** The closure of an alert button. *)
Definition perform_action (a : Action) : Task unit :=
  match a with
  | HideAlert => do (setAlertVisible false)
  | Refetch sortOption isRefreshing => fetchAllProducts sortOption isRefreshing
  end.

Fixpoint perform_actions (acts : list Action) : Task unit :=
  match acts with
  | [] => Task.Ret tt
  | a :: rest => perform_action a ;; perform_actions rest
  end.

End Locale.

(** ** The component's state *)

Record State := {
  products : option (list CartItem);
  filteredData : list CartItem;
  sortOption : string;
  sortModalVisible : bool;
  loading : bool;
  error : option string;
  refreshing : bool;
  alertVisible : bool;
  alertTitle : string;
  alertMessage : string;
  alertIcon : string;
  alertButtons : list Button.t
}.

(** The state at mount (lines 47-65). *)
Definition mount : State :=
  {| products := Some []; filteredData := []; sortOption := "Default";
     sortModalVisible := false; loading := false; error := None;
     refreshing := false; alertVisible := false; alertTitle := "";
     alertMessage := ""; alertIcon := ""; alertButtons := [] |}.

(** What a setter does to the state.  What React does once the state has
    changed, the effect on [products] included, is [rendered] below. *)
Definition update {R} (op : Op R) (s : State) : State :=
  match op with
  | setProducts data =>
      {| products := data; filteredData := filteredData s;
         sortOption := sortOption s; sortModalVisible := sortModalVisible s;
         loading := loading s; error := error s; refreshing := refreshing s;
         alertVisible := alertVisible s; alertTitle := alertTitle s;
         alertMessage := alertMessage s; alertIcon := alertIcon s;
         alertButtons := alertButtons s |}
  | setFilteredData data =>
      {| products := products s; filteredData := data;
         sortOption := sortOption s; sortModalVisible := sortModalVisible s;
         loading := loading s; error := error s; refreshing := refreshing s;
         alertVisible := alertVisible s; alertTitle := alertTitle s;
         alertMessage := alertMessage s; alertIcon := alertIcon s;
         alertButtons := alertButtons s |}
  | setSortOption option =>
      {| products := products s; filteredData := filteredData s;
         sortOption := option; sortModalVisible := sortModalVisible s;
         loading := loading s; error := error s; refreshing := refreshing s;
         alertVisible := alertVisible s; alertTitle := alertTitle s;
         alertMessage := alertMessage s; alertIcon := alertIcon s;
         alertButtons := alertButtons s |}
  | setSortModalVisible b =>
      {| products := products s; filteredData := filteredData s;
         sortOption := sortOption s; sortModalVisible := b;
         loading := loading s; error := error s; refreshing := refreshing s;
         alertVisible := alertVisible s; alertTitle := alertTitle s;
         alertMessage := alertMessage s; alertIcon := alertIcon s;
         alertButtons := alertButtons s |}
  | setLoading b =>
      {| products := products s; filteredData := filteredData s;
         sortOption := sortOption s; sortModalVisible := sortModalVisible s;
         loading := b; error := error s; refreshing := refreshing s;
         alertVisible := alertVisible s; alertTitle := alertTitle s;
         alertMessage := alertMessage s; alertIcon := alertIcon s;
         alertButtons := alertButtons s |}
  | setError e =>
      {| products := products s; filteredData := filteredData s;
         sortOption := sortOption s; sortModalVisible := sortModalVisible s;
         loading := loading s; error := e; refreshing := refreshing s;
         alertVisible := alertVisible s; alertTitle := alertTitle s;
         alertMessage := alertMessage s; alertIcon := alertIcon s;
         alertButtons := alertButtons s |}
  | setRefreshing b =>
      {| products := products s; filteredData := filteredData s;
         sortOption := sortOption s; sortModalVisible := sortModalVisible s;
         loading := loading s; error := error s; refreshing := b;
         alertVisible := alertVisible s; alertTitle := alertTitle s;
         alertMessage := alertMessage s; alertIcon := alertIcon s;
         alertButtons := alertButtons s |}
  | setAlertTitle t =>
      {| products := products s; filteredData := filteredData s;
         sortOption := sortOption s; sortModalVisible := sortModalVisible s;
         loading := loading s; error := error s; refreshing := refreshing s;
         alertVisible := alertVisible s; alertTitle := t;
         alertMessage := alertMessage s; alertIcon := alertIcon s;
         alertButtons := alertButtons s |}
  | setAlertMessage m =>
      {| products := products s; filteredData := filteredData s;
         sortOption := sortOption s; sortModalVisible := sortModalVisible s;
         loading := loading s; error := error s; refreshing := refreshing s;
         alertVisible := alertVisible s; alertTitle := alertTitle s;
         alertMessage := m; alertIcon := alertIcon s;
         alertButtons := alertButtons s |}
  | setAlertIcon i =>
      {| products := products s; filteredData := filteredData s;
         sortOption := sortOption s; sortModalVisible := sortModalVisible s;
         loading := loading s; error := error s; refreshing := refreshing s;
         alertVisible := alertVisible s; alertTitle := alertTitle s;
         alertMessage := alertMessage s; alertIcon := i;
         alertButtons := alertButtons s |}
  | setAlertButtons bs =>
      {| products := products s; filteredData := filteredData s;
         sortOption := sortOption s; sortModalVisible := sortModalVisible s;
         loading := loading s; error := error s; refreshing := refreshing s;
         alertVisible := alertVisible s; alertTitle := alertTitle s;
         alertMessage := alertMessage s; alertIcon := alertIcon s;
         alertButtons := bs |}
  | setAlertVisible b =>
      {| products := products s; filteredData := filteredData s;
         sortOption := sortOption s; sortModalVisible := sortModalVisible s;
         loading := loading s; error := error s; refreshing := refreshing s;
         alertVisible := b; alertTitle := alertTitle s;
         alertMessage := alertMessage s; alertIcon := alertIcon s;
         alertButtons := alertButtons s |}
  | _ => s
  end.

(** ** One run against a given backend *)

Record Env := {
  fetched : CartPage.Settled Response.t;   (* fetchProducts *)
  typeError : CartPage.JsError.t                    (* the engine's TypeError *)
}.

Definition answer (env : Env) {R} (op : Op R) : R :=
  match op in Op R return R with
  | TypeError => typeError env
  | fetchProducts => fetched env
  | _ => tt
  end.

Definition Event := Handler.Event Op.

Definition run {A} (env : Env) (m : Task A) (s : State) : A * State * list Event :=
  Handler.run Op State Env (@is_await) (@update) (@answer) env m s.

Definition final {A} (x : A * State * list Event) : State := snd (fst x).
Definition trace {A} (x : A * State * list Event) : list Event := snd x.

(** ** What React makes of a run

    React renders the component with the state the setters have left,
    then runs the effect of lines 286-293 when [products] is not the
    value of the render before, that is, when [setProducts] was called:
    the backend's array is a fresh one, and undefined replaces an array.
    The effect runs outside any [try] and the screen has no error
    boundary: when it throws, React unmounts the page. *)
Inductive Page :=
| Unmounted
| Mounted (s : State).

Definition stores_products (e : Event) : bool :=
  match e with
  | Handler.Did op _ => match op with setProducts _ => true | _ => false end
  | Handler.Called _ => false
  end.

Definition rendered {A} (localeCompare : string -> string -> comparison) (env : Env)
  (r : A * State * list Event) : Page :=
  if existsb stores_products (trace r) then
    match run env (sort_effect localeCompare (products (final r)) (sortOption (final r)))
              (final r) with
    | (inl _, _, _) => Unmounted
    | (inr _, s', _) => Mounted s'
    end
  else Mounted (final r).

(** ** What the screen renders (lines 398-453) *)

(** [{loading && <ActivityIndicator/>}] *)
Definition shows_spinner (s : State) : bool := loading s.

(** [{error && !loading && (...)}]: the inline error with its Retry. *)
Definition shows_inline_error (s : State) : bool :=
  CartPage.truthy (error s) && negb (loading s).

(** [{!error && <FlatList data={filteredData} .../>}] *)
Definition shows_list (s : State) : bool := negb (CartPage.truthy (error s)).

(** The backend answers with the products. *)
Definition delivers (env : Env) : option (list CartItem) :=
  match fetched env with
  | CartPage.Fulfilled response =>
      if Response.success response then
        match Response.data response with
        | Some payload => Payload.data payload
        | None => None
        end
      else None
  | CartPage.Rejected _ => None
  end.

(** What the [catch] block catches: the rejection, the error thrown on
    [success: false], or the TypeError of a response without its data. *)
Definition failure (env : Env) : option CartPage.JsError.t :=
  match fetched env with
  | CartPage.Fulfilled response =>
      if Response.success response then
        match Response.data response with
        | Some payload =>
            match Payload.data payload with
            | Some _ => None
            | None => Some (typeError env)
            end
        | None => Some (typeError env)
        end
      else Some (new_Error (Response.message response))
  | CartPage.Rejected e => Some e
  end.

(** The backend answers [success] with a data object that has no
    [data]: [setProducts(undefined)] is reached. *)
Definition stores_undefined (env : Env) : bool :=
  match fetched env with
  | CartPage.Fulfilled response =>
      Response.success response &&
      match Response.data response with
      | Some payload => match Payload.data payload with Some _ => false | None => true end
      | None => false
      end
  | CartPage.Rejected _ => false
  end.

(** Network calls in a record of events. *)
Definition is_fetch (e : Event) : bool :=
  match e with
  | Handler.Called op => match op with fetchProducts => true | _ => false end
  | Handler.Did _ _ => false
  end.

(** ** Sample data *)

Definition product (id name subject code price : string) : CartItem :=
  {| _id := id; Cart.name := name; examName := name; subjectName := subject;
     subjectCode := code; Cart.price := PriceString price; image := "" |}.

Definition sample_products : list CartItem :=
  [product "p1" "Physics notes" "Physics" "PHY101" "20.00";
   product "p2" "Algebra notes" "Mathematics" "MTH101" "12.50";
   product "p3" "calculus drills" "Mathematics" "MTH102" "12.50"].

(** The comparator of 'Price (Low to High)'. *)
Definition by_price (a b : CartItem) : comparison :=
  JSString.sign (JSString.sub (parseFloat (price a)) (parseFloat (price b))).

(** The backend answers with the sample products. *)
Definition delivering_env : Env :=
  {| fetched :=
       CartPage.Fulfilled
         {| Response.success := true;
            Response.data := Some {| Payload.data := Some sample_products |};
            Response.message := Undefined |};
     typeError := {| CartPage.JsError.message := Some "TypeError" |} |}.

(** The backend refuses, without a message. *)
Definition refusing_env : Env :=
  {| fetched :=
       CartPage.Fulfilled
         {| Response.success := false; Response.data := None;
            Response.message := Undefined |};
     typeError := {| CartPage.JsError.message := Some "TypeError" |} |}.

(** The backend refuses with [message: null]. *)
Definition null_message_env : Env :=
  {| fetched :=
       CartPage.Fulfilled
         {| Response.success := false; Response.data := None;
            Response.message := Null |};
     typeError := {| CartPage.JsError.message := Some "TypeError" |} |}.

(** The backend answers [success] without [data.data]. *)
Definition empty_handed_env : Env :=
  {| fetched :=
       CartPage.Fulfilled
         {| Response.success := true;
            Response.data := Some {| Payload.data := None |};
            Response.message := Undefined |};
     typeError := {| CartPage.JsError.message := Some "undefined is not iterable" |} |}.

End MarketList.

(* ================================================================== *)
(** * components/ReviewPopup.js                                         *)
(* ================================================================== *)

Module ReviewPopup.

Import Task.Notations Handler.Notations.
Local Open Scope string_scope.
Local Open Scope task_scope.

(** ** Values exchanged with the review API *)

(** A review as [renderReview] reads it; [userName] is [review.user?.name]. *)
Module Review.
Record t := {
  _id : string;
  userName : option string;
  rating : JS.Number;
  comment : string;
  createdAt : string
}.
End Review.

(** The body [api.getProductReviewsAPI] resolves to; [data] is [None]
    when [response.data] is undefined or null (an array, even an empty
    one, is truthy). *)
Module Reviews.
Record t := { data : option (list Review.t); message : option string }.
End Reviews.

(** The body [api.addOrUpdateReview] resolves to. *)
Module Submitted.
Record t := { success : bool; message : option string }.
End Submitted.

(** ** The alert *)

(** What the [onPress] closures of the alert buttons do. *)
Inductive Action :=
| HideAlert                    (* setAlertVisible(false) *)
| HideForm                     (* setShowAddReviewForm(false) *)
| ClosePopup                   (* closePopup() *)
| Navigate (route : string).   (* navigation.navigate(route) *)

Module Button.
Record t := { text : string; style : option string; onPress : list Action }.
End Button.

(** ** Operations of the component

    Modelled from the spec: [services/api] is not among the sources.
    The handlers read [data] and [message], or [success] and [message],
    of what its calls resolve to and await them inside [try]: like the
    order API of section 6 they resolve to a response body or reject.
    [closePopup] is a prop of the component. *)
Inductive Op : Type -> Type :=
(* React state setters *)
| setReviews (data : list Review.t) : Op unit
| setLoading (b : bool) : Op unit
| setError (e : string) : Op unit
| setShowAddReviewForm (b : bool) : Op unit
| setRating (n : Z) : Op unit
| setComment (s : string) : Op unit
| setSubmitting (b : bool) : Op unit
| setAlertTitle (s : string) : Op unit
| setAlertMessage (s : string) : Op unit
| setAlertIcon (s : string) : Op unit
| setAlertButtons (bs : list Button.t) : Op unit
| setAlertVisible (b : bool) : Op unit
(* props and navigation *)
| closePopup : Op unit
| navigation_navigate (route : string) : Op unit
(* the engine *)
| console_log (data : option (list Review.t)) : Op unit
| console_error (label : option string) (e : CartPage.JsError.t) : Op unit
(* awaited collaborators *)
| api_getProductReviewsAPI (productId : string) : Op (CartPage.Settled Reviews.t)
| api_addOrUpdateReview (productId : string) (rating : Z) (comment : string)
    : Op (CartPage.Settled Submitted.t).

Definition Task := Task.t Op.

Definition do {R} (op : Op R) : Task R := Task.perform op.
Definition await {R} (op : Op R) : Task R := Task.perform op.

Definition is_await {R} (op : Op R) : bool :=
  match op with
  | api_getProductReviewsAPI _ | api_addOrUpdateReview _ _ _ => true
  | _ => false
  end.

(** [await p] for a promise that may reject. *)
Definition await_or_throw {A} (op : Op (CartPage.Settled A)) : Task (CartPage.JsError.t + A) :=
  r <- await op ;;
  match r with
  | CartPage.Fulfilled a => Task.Ret (inr a)
  | CartPage.Rejected e => Handler.throw e
  end.

Definition show_alert (title message icon : string) (buttons : list Button.t)
  : Task unit :=
  do (setAlertTitle title) ;;
  do (setAlertMessage message) ;;
  do (setAlertIcon icon) ;;
  do (setAlertButtons buttons) ;;
  do (setAlertVisible true).

(** [{ text: 'OK', onPress: () => setAlertVisible(false) }] *)
Definition ok_button : Button.t :=
  {| Button.text := "OK"; Button.style := None; Button.onPress := [HideAlert] |}.

(** ** fetchReviews (lines 752-770 of the file that holds the component) *)

Definition fetch_reviews (productId : string) : Task (CartPage.JsError.t + unit) :=
  Handler.attempt (do (setLoading true)) ;;!
  response <-! await_or_throw (api_getProductReviewsAPI productId) ;;
  Handler.attempt (do (console_log (Reviews.data response))) ;;!
  match Reviews.data response with
  | Some data => Handler.attempt (do (setReviews data))
  | None =>
      Handler.throw
        (CartPage.new_Error
           (CartPage.or_else (Reviews.message response) "Failed to fetch reviews."))
  end ;;!
  Handler.attempt (do (setLoading false)).

Definition fetch_reviews_failed (err : CartPage.JsError.t) : Task unit :=
  do (console_error None err) ;;
  do (setError (CartPage.or_else (CartPage.JsError.message err)
                  "An error occurred while fetching reviews.")) ;;
  do (setLoading false).

Definition fetchReviews (productId : string) : Task unit :=
  Handler.try_catch (fetch_reviews productId) fetch_reviews_failed.

(** ** handleAddReviewClick (lines 773-799) *)

Definition cancel_button : Button.t :=
  {| Button.text := "Cancel"; Button.style := Some "cancel";
     Button.onPress := [HideAlert] |}.

Definition login_button : Button.t :=
  {| Button.text := "Login"; Button.style := None;
     Button.onPress := [HideForm; ClosePopup; Navigate "Login"; HideAlert] |}.

Definition handleAddReviewClick (isAuthenticated : bool) : Task unit :=
  if negb isAuthenticated then
    show_alert "Authentication Required" "You need to be logged in to add a review."
      "warning" [cancel_button; login_button]
  else
    do (setShowAddReviewForm true).

(** ** handleSubmitReview (lines 802-857) *)

(** The button of the 'Success' alert (lines 836-842). *)
Definition submitted_button : Button.t :=
  {| Button.text := "OK"; Button.style := None;
     Button.onPress := [HideAlert; ClosePopup] |}.

(** The [try] block (lines 821-851). *)
Definition submit_review (productId : string) (rating : Z) (comment : string)
  : Task (CartPage.JsError.t + unit) :=
  Handler.attempt (do (setSubmitting true)) ;;!
  response <-! await_or_throw (api_addOrUpdateReview productId rating comment) ;;
  if Submitted.success response then
    Handler.attempt
      (fetchReviews productId ;;
       do (setRating 0) ;;
       do (setComment "") ;;
       do (setShowAddReviewForm false) ;;
       show_alert "Success" "Your review has been submitted." "checkmark-circle"
         [submitted_button])
  else
    Handler.attempt
      (show_alert "Error"
         (CartPage.or_else (Submitted.message response) "Failed to submit review.")
         "close-circle" [ok_button]).

(** The handler closes over [rating] and [comment] of its render; the
    [finally] block runs after the [try] and its [catch], which throws
    nothing. *)
Definition handleSubmitReview (productId : string) (rating : Z) (comment : string)
  : Task unit :=
  if (rating <? 1)%Z || (5 <? rating)%Z then
    show_alert "Error" "Please provide a rating between 1 and 5."
      "alert-circle-outline" [ok_button]
  else if JSString.trim comment =? "" then
    show_alert "Empty Comment" "Please enter a comment." "information-circle"
      [ok_button]
  else
    Handler.try_catch (submit_review productId rating comment)
      (fun err => do (console_error (Some "Review submission error:") err)) ;;
    do (setSubmitting false).

(** ** The other closures of the form and of the alert *)

(** The Cancel button of the form (lines 955-959). *)
Definition cancel_form : Task unit :=
  do (setShowAddReviewForm false) ;;
  do (setRating 0) ;;
  do (setComment "").

Definition perform_action (a : Action) : Task unit :=
  match a with
  | HideAlert => do (setAlertVisible false)
  | HideForm => do (setShowAddReviewForm false)
  | ClosePopup => do closePopup
  | Navigate route => do (navigation_navigate route)
  end.

Fixpoint perform_actions (acts : list Action) : Task unit :=
  match acts with
  | [] => Task.Ret tt
  | a :: rest => perform_action a ;; perform_actions rest
  end.

(** ** The component's state *)

Record State := {
  reviews : list Review.t;
  loading : bool;
  error : option string;
  showAddReviewForm : bool;
  rating : Z;
  comment : string;
  submitting : bool;
  alertVisible : bool;
  alertTitle : string;
  alertMessage : string;
  alertIcon : string;
  alertButtons : list Button.t
}.

(** The state at mount (lines 727-742). *)
Definition mount : State :=
  {| reviews := []; loading := true; error := None; showAddReviewForm := false;
     rating := 0; comment := ""; submitting := false; alertVisible := false;
     alertTitle := ""; alertMessage := ""; alertIcon := ""; alertButtons := [] |}.

Definition update {R} (op : Op R) (s : State) : State :=
  match op with
  | setReviews data =>
      {| reviews := data; loading := loading s; error := error s;
         showAddReviewForm := showAddReviewForm s; rating := rating s;
         comment := comment s; submitting := submitting s;
         alertVisible := alertVisible s; alertTitle := alertTitle s;
         alertMessage := alertMessage s; alertIcon := alertIcon s;
         alertButtons := alertButtons s |}
  | setLoading b =>
      {| reviews := reviews s; loading := b; error := error s;
         showAddReviewForm := showAddReviewForm s; rating := rating s;
         comment := comment s; submitting := submitting s;
         alertVisible := alertVisible s; alertTitle := alertTitle s;
         alertMessage := alertMessage s; alertIcon := alertIcon s;
         alertButtons := alertButtons s |}
  | setError e =>
      {| reviews := reviews s; loading := loading s; error := Some e;
         showAddReviewForm := showAddReviewForm s; rating := rating s;
         comment := comment s; submitting := submitting s;
         alertVisible := alertVisible s; alertTitle := alertTitle s;
         alertMessage := alertMessage s; alertIcon := alertIcon s;
         alertButtons := alertButtons s |}
  | setShowAddReviewForm b =>
      {| reviews := reviews s; loading := loading s; error := error s;
         showAddReviewForm := b; rating := rating s;
         comment := comment s; submitting := submitting s;
         alertVisible := alertVisible s; alertTitle := alertTitle s;
         alertMessage := alertMessage s; alertIcon := alertIcon s;
         alertButtons := alertButtons s |}
  | setRating n =>
      {| reviews := reviews s; loading := loading s; error := error s;
         showAddReviewForm := showAddReviewForm s; rating := n;
         comment := comment s; submitting := submitting s;
         alertVisible := alertVisible s; alertTitle := alertTitle s;
         alertMessage := alertMessage s; alertIcon := alertIcon s;
         alertButtons := alertButtons s |}
  | setComment c =>
      {| reviews := reviews s; loading := loading s; error := error s;
         showAddReviewForm := showAddReviewForm s; rating := rating s;
         comment := c; submitting := submitting s;
         alertVisible := alertVisible s; alertTitle := alertTitle s;
         alertMessage := alertMessage s; alertIcon := alertIcon s;
         alertButtons := alertButtons s |}
  | setSubmitting b =>
      {| reviews := reviews s; loading := loading s; error := error s;
         showAddReviewForm := showAddReviewForm s; rating := rating s;
         comment := comment s; submitting := b;
         alertVisible := alertVisible s; alertTitle := alertTitle s;
         alertMessage := alertMessage s; alertIcon := alertIcon s;
         alertButtons := alertButtons s |}
  | setAlertTitle t =>
      {| reviews := reviews s; loading := loading s; error := error s;
         showAddReviewForm := showAddReviewForm s; rating := rating s;
         comment := comment s; submitting := submitting s;
         alertVisible := alertVisible s; alertTitle := t;
         alertMessage := alertMessage s; alertIcon := alertIcon s;
         alertButtons := alertButtons s |}
  | setAlertMessage m =>
      {| reviews := reviews s; loading := loading s; error := error s;
         showAddReviewForm := showAddReviewForm s; rating := rating s;
         comment := comment s; submitting := submitting s;
         alertVisible := alertVisible s; alertTitle := alertTitle s;
         alertMessage := m; alertIcon := alertIcon s;
         alertButtons := alertButtons s |}
  | setAlertIcon i =>
      {| reviews := reviews s; loading := loading s; error := error s;
         showAddReviewForm := showAddReviewForm s; rating := rating s;
         comment := comment s; submitting := submitting s;
         alertVisible := alertVisible s; alertTitle := alertTitle s;
         alertMessage := alertMessage s; alertIcon := i;
         alertButtons := alertButtons s |}
  | setAlertButtons bs =>
      {| reviews := reviews s; loading := loading s; error := error s;
         showAddReviewForm := showAddReviewForm s; rating := rating s;
         comment := comment s; submitting := submitting s;
         alertVisible := alertVisible s; alertTitle := alertTitle s;
         alertMessage := alertMessage s; alertIcon := alertIcon s;
         alertButtons := bs |}
  | setAlertVisible b =>
      {| reviews := reviews s; loading := loading s; error := error s;
         showAddReviewForm := showAddReviewForm s; rating := rating s;
         comment := comment s; submitting := submitting s;
         alertVisible := b; alertTitle := alertTitle s;
         alertMessage := alertMessage s; alertIcon := alertIcon s;
         alertButtons := alertButtons s |}
  | _ => s
  end.

(** ** One run against a given backend *)

Record Env := {
  reviewsResult : CartPage.Settled Reviews.t;     (* api.getProductReviewsAPI *)
  submitResult : CartPage.Settled Submitted.t     (* api.addOrUpdateReview *)
}.

Definition answer (env : Env) {R} (op : Op R) : R :=
  match op in Op R return R with
  | api_getProductReviewsAPI _ => reviewsResult env
  | api_addOrUpdateReview _ _ _ => submitResult env
  | _ => tt
  end.

Definition Event := Handler.Event Op.

Definition run {A} (env : Env) (m : Task A) (s : State) : A * State * list Event :=
  Handler.run Op State Env (@is_await) (@update) (@answer) env m s.

Definition final {A} (x : A * State * list Event) : State := snd (fst x).
Definition trace {A} (x : A * State * list Event) : list Event := snd x.

(** ** What the popup renders (lines 982-1029) *)

Inductive View :=
| Spinner                     (* loading *)
| ErrorView (message : string)
| Form                        (* renderAddReviewForm() *)
| ReviewList.                 (* the reviews, or 'No reviews yet.' *)

Definition view (s : State) : View :=
  if loading s then Spinner
  else if CartPage.truthy (error s) then ErrorView (CartPage.or_else (error s) "")
  else if showAddReviewForm s then Form
  else ReviewList.

(** [{!showAddReviewForm && !loading && !error && (...)}] *)
Definition add_review_enabled (s : State) : bool :=
  negb (showAddReviewForm s) && negb (loading s) && negb (CartPage.truthy (error s)).

(** The form is rendered; its Submit button is [disabled={submitting}]. *)
Definition form_rendered (s : State) : bool :=
  negb (loading s) && negb (CartPage.truthy (error s)) && showAddReviewForm s.

Definition submit_enabled (s : State) : bool :=
  form_rendered s && negb (submitting s).

(** ** The event loop *)

Definition Config := Handler.Config Op State.

Definition start (env : Env) (m : Task unit) (c : Config) : Config :=
  Handler.start Op State Env (@is_await) (@update) (@answer) env m c.

(** The handlers started by a press perform nothing that is answered
    before their first await; they start against this environment. *)
Definition no_env : Env :=
  {| reviewsResult := CartPage.Rejected {| CartPage.JsError.message := None |};
     submitResult := CartPage.Rejected {| CartPage.JsError.message := None |} |}.

(** The props of the component. *)
Record Props := { productId : string; isAuthenticated : bool }.

(** Modelled from the spec: [CustomAlert] is not among the sources; as
    in section 6, pressing a button of the visible alert runs its
    [onPress], dismissing it runs [onClose]. *)
Inductive Input :=
| Settle (n : nat) (env : Env)   (* the call the n-th handler awaits settles *)
| PressAddReview                 (* the 'Add a Review' button *)
| PressStar (index : Z)          (* the star [index] of the form, from 0 *)
| ChangeComment (text : string)  (* onChangeText={setComment} *)
| PressSubmit                    (* the 'Submit Review' button *)
| PressCancel                    (* the Cancel button of the form *)
| PressAlertButton (n : nat)     (* the n-th button of the alert *)
| CloseAlert                     (* the alert's onClose *)
| PressClose.                    (* the close button, onPress={closePopup} *)

Definition step (props : Props) (i : Input) (c : Config) : Config :=
  let s := Handler.state c in
  match i with
  | Settle n env =>
      Handler.settle Op State Env (@is_await) (@update) (@answer) n env c
  | PressAddReview =>
      if add_review_enabled s
      then start no_env (handleAddReviewClick (isAuthenticated props)) c
      else c
  | PressStar index =>
      if form_rendered s && (0 <=? index)%Z && (index <? 5)%Z
      then start no_env (do (setRating (index + 1))) c
      else c
  | ChangeComment text =>
      if form_rendered s then start no_env (do (setComment text)) c else c
  | PressSubmit =>
      if submit_enabled s
      then start no_env (handleSubmitReview (productId props) (rating s) (comment s)) c
      else c
  | PressCancel =>
      if form_rendered s then start no_env cancel_form c else c
  | PressAlertButton n =>
      if alertVisible s then
        match nth_error (alertButtons s) n with
        | Some b => start no_env (perform_actions (Button.onPress b)) c
        | None => c
        end
      else c
  | CloseAlert =>
      if alertVisible s then start no_env (do (setAlertVisible false)) c else c
  | PressClose => start no_env (do closePopup) c
  end.

Definition exec (props : Props) (inputs : list Input) (c : Config) : Config :=
  fold_left (fun c i => step props i c) inputs c.

(** The popup once mounted: the effect of lines 748-750 has called
    [fetchReviews]. *)
Definition mounted (props : Props) : Config :=
  start no_env (fetchReviews (productId props)) (Handler.idle mount).

(** ** Recognisers of events *)

(** The review API is asked to store a review. *)
Definition is_submission (e : Event) : bool :=
  match e with
  | Handler.Called op =>
      match op with api_addOrUpdateReview _ _ _ => true | _ => false end
  | Handler.Did _ _ => false
  end.

(** A collaborator is called. *)
Definition is_call (e : Event) : bool :=
  match e with
  | Handler.Called _ => true
  | Handler.Did _ _ => false
  end.

(** The alert is configured or shown. *)
Definition is_alert (e : Event) : bool :=
  match e with
  | Handler.Did op _ =>
      match op with
      | setAlertTitle _ | setAlertMessage _ | setAlertIcon _
      | setAlertButtons _ | setAlertVisible _ => true
      | _ => false
      end
  | Handler.Called _ => false
  end.

(** The review the form holds passes the checks of lines 803-818. *)
Definition acceptable (rating : Z) (comment : string) : bool :=
  (1 <=? rating)%Z && (rating <=? 5)%Z && negb (JSString.trim comment =? "").

(** An operation the popup of a visitor who is not logged in may
    perform. *)
Definition anonymous_ok (_ : unit) R (op : Op R) : Prop :=
  match op with
  | api_addOrUpdateReview _ _ _ => False
  | setShowAddReviewForm b => b = false
  | _ => True
  end.

(** [m] neither opens the form nor submits a review. *)
Definition harmless (m : Task unit) : Prop :=
  Handler.always Op (@is_await) unit (fun g _ => g) anonymous_ok (fun _ _ => True) m tt.

(** The form has never been opened and no handler in flight opens it or
    submits a review. *)
Definition anonymous (c : Config) : Prop :=
  showAddReviewForm (Handler.state c) = false /\
  existsb is_submission (Handler.history c) = false /\
  forall w, In w (Handler.pending c) ->
    Handler.awaits_call Op (@is_await) w = true /\
    Handler.resumes Op w (fun _ _ _ m => harmless m).

(** ** One submission at a time *)

(** Submissions sent and not yet answered. *)
Definition unanswered_next (n : nat) (e : Event) : nat :=
  match e with
  | Handler.Called op =>
      match op with api_addOrUpdateReview _ _ _ => S n | _ => n end
  | Handler.Did op _ =>
      match op with api_addOrUpdateReview _ _ _ => Nat.pred n | _ => n end
  end.

Definition unanswered (evs : list Event) : nat := fold_left unanswered_next evs O.

Definition awaits_submission (w : Handler.Suspended Op) : bool :=
  match w with
  | Handler.Waiting op _ =>
      match op with api_addOrUpdateReview _ _ _ => true | _ => false end
  end.

(** An operation of a handler that is not submitting a review. *)
Definition quiet_ok (_ : unit) R (op : Op R) : Prop :=
  match op with
  | api_addOrUpdateReview _ _ _ => False
  | setSubmitting _ => False
  | _ => True
  end.

Definition quiet (m : Task unit) : Prop :=
  Handler.always Op (@is_await) unit (fun g _ => g) quiet_ok (fun _ _ => True) m tt.

(** [submitting] as the handler that submits leaves it. *)
Definition submitting_next (f : bool) (e : Event) : bool :=
  match e with
  | Handler.Did op _ => match op with setSubmitting b => b | _ => f end
  | Handler.Called _ => f
  end.

(** What the handler does once its review is sent: it awaits only with
    [submitting] raised, neither raises it nor submits again, and lowers
    it before it ends. *)
Definition finishing_ok (f : bool) R (op : Op R) : Prop :=
  match op with
  | api_addOrUpdateReview _ _ _ => False
  | setSubmitting b => b = false
  | api_getProductReviewsAPI _ => f = true
  | _ => True
  end.

Definition finishing (m : Task unit) (f : bool) : Prop :=
  Handler.always Op (@is_await) bool submitting_next finishing_ok
    (fun _ f' => f' = false) m f.

Definition quiet_handler (w : Handler.Suspended Op) : Prop :=
  awaits_submission w = false /\
  Handler.resumes Op w (fun _ _ _ m => quiet m).

Definition submitting_handler (w : Handler.Suspended Op) : Prop :=
  Handler.resumes Op w (fun _ _ _ m => finishing m true).

(** [submitting] is raised exactly while one handler is submitting; the
    submissions unanswered are the one it awaits, if it awaits it. *)
Definition one_at_a_time (c : Config) : Prop :=
  exists (owner : option (Handler.Suspended Op)) (others : list (Handler.Suspended Op)),
    Permutation (Handler.pending c) (CartPage.opt_list owner ++ others) /\
    Forall quiet_handler others /\
    match owner with
    | None =>
        submitting (Handler.state c) = false /\ unanswered (Handler.history c) = O
    | Some w =>
        submitting (Handler.state c) = true /\ submitting_handler w /\
        unanswered (Handler.history c) = if awaits_submission w then 1%nat else O
    end.

(** ** The rating of the form *)

(** The rating is only set to a number of stars, or reset. *)
Definition rating_ok (_ : unit) R (op : Op R) : Prop :=
  match op with
  | setRating n => (0 <= n <= 5)%Z
  | _ => True
  end.

Definition rates_in_range (m : Task unit) : Prop :=
  Handler.always Op (@is_await) unit (fun g _ => g) rating_ok (fun _ _ => True) m tt.

Definition rated (c : Config) : Prop :=
  (0 <= rating (Handler.state c) <= 5)%Z /\
  forall w, In w (Handler.pending c) ->
    Handler.resumes Op w (fun _ _ _ m => rates_in_range m).

(** ** Sample data *)

Definition visitor : Props := {| productId := "p1"; isAuthenticated := false |}.

Definition sample_review : Review.t :=
  {| Review._id := "r1"; Review.userName := Some "Amina";
     Review.rating := JS.parseFloat_string "4"; Review.comment := "Clear notes.";
     Review.createdAt := "2024-05-01T10:00:00.000Z" |}.

(** The review API stores the review and lists the reviews. *)
Definition accepting_env : Env :=
  {| reviewsResult :=
       CartPage.Fulfilled {| Reviews.data := Some [sample_review];
                             Reviews.message := None |};
     submitResult :=
       CartPage.Fulfilled {| Submitted.success := true;
                             Submitted.message := None |} |}.

(** The review API refuses the review. *)
Definition refusing_env : Env :=
  {| reviewsResult :=
       CartPage.Fulfilled {| Reviews.data := Some [sample_review];
                             Reviews.message := None |};
     submitResult :=
       CartPage.Fulfilled {| Submitted.success := false;
                             Submitted.message := Some "Purchase the product first." |} |}.

(** The network is down. *)
Definition offline_env : Env :=
  {| reviewsResult := CartPage.Rejected {| CartPage.JsError.message := Some "Network Error" |};
     submitResult := CartPage.Rejected {| CartPage.JsError.message := Some "Network Error" |} |}.

(** The state after a fetch of the reviews has failed. *)
Definition failed_state : State :=
  {| reviews := []; loading := false; error := Some "Network Error";
     showAddReviewForm := false; rating := 0; comment := ""; submitting := false;
     alertVisible := false; alertTitle := ""; alertMessage := ""; alertIcon := "";
     alertButtons := [] |}.

End ReviewPopup.

(* ================================================================== *)
(** * The built-ins on known values                                     *)
(* ================================================================== *)

(** [parseFloat("0.1")] is the binary64 number [0x1.999999999999ap-4]. *)
Example parseFloat_tenth :
  JS.parseFloat_string "0.1" = S754_finite false 7205759403792794 (-56).
Proof. vm_compute. reflexivity. Qed.

(** [0.1 + 0.2] prints as [0.30000000000000004]. *)
Example add_tenth_fifth :
  JS.toString (JS.add (JS.parseFloat_string "0.1") (JS.parseFloat_string "0.2"))
  = "0.30000000000000004"%string.
Proof. vm_compute. reflexivity. Qed.

(** The longest prefix that is a literal is read; nothing else is. *)
Example parseFloat_prefixes :
  map JS.parseFloat_string
      ["  12.50 USD"; "5.e3"; ".5e"; "-0"; "1e400"; "abc"; "."; "-Infinity"]%string
  = [S754_finite false 7036874417766400 (-49);
     S754_finite false 5497558138880000 (-40);
     S754_finite false 4503599627370496 (-53);
     S754_zero true; S754_infinity false; S754_nan; S754_nan;
     S754_infinity true].
Proof. vm_compute. reflexivity. Qed.

Example toString_known :
  map (fun s => JS.toString (JS.parseFloat_string s))
      ["1e21"; "123456789012345680000"; "0.000001"; "1e-7"; "5e-324";
       "1.7976931348623157e308"; "9007199254740993"; "100"; "-1.50"]%string
  = ["1e+21"; "123456789012345680000"; "0.000001"; "1e-7"; "5e-324";
     "1.7976931348623157e+308"; "9007199254740992"; "100"; "-1.5"]%string.
Proof. vm_compute. reflexivity. Qed.

Example toFixed_known :
  map (fun s => JS.toFixed2 (JS.parseFloat_string s))
      ["0.1"; "1.005"; "8.345"; "0.125"; "-0.001"; "-0"; "1234.5678";
       "1e21"; "abc"; "Infinity"]%string
  = ["0.10"; "1.00"; "8.35"; "0.13"; "-0.00"; "0.00"; "1234.57";
     "1e+21"; "NaN"; "Infinity"]%string.
Proof. vm_compute. reflexivity. Qed.

(** A Number that goes through [parseFloat] comes back as it was. *)
Example parseFloat_number_known :
  map JS.parseFloat_number
      [JS.parseFloat_string "0.1"; JS.parseFloat_string "12.5";
       S754_zero true; S754_nan; S754_infinity false]
  = [JS.parseFloat_string "0.1"; JS.parseFloat_string "12.5";
     S754_zero false; S754_nan; S754_infinity false].
Proof. vm_compute. reflexivity. Qed.

(** White space is skipped in front of a literal, that outside ASCII
    too: NO-BREAK SPACE, EM SPACE. *)
Example parseFloat_white_space :
  map JS.parseFloat_string
      [JSString.NBSP ++ "12.50"; JSString.EM_SPACE ++ JSString.NBSP ++ " 12.50"]%string
  = [JS.parseFloat_string "12.50"; JS.parseFloat_string "12.50"].
Proof. vm_compute. reflexivity. Qed.

(** [trim] removes it at both ends and nowhere else; ZERO WIDTH SPACE
    (E2 80 8B) is no white space. *)
Example trim_known :
  map JSString.trim
      [JSString.NBSP; JSString.EM_SPACE ++ " " ++ JSString.NBSP;
       " a" ++ JSString.NBSP ++ "b " ++ JSString.EM_SPACE; "  ";
       String (ascii_of_nat 226) (String (ascii_of_nat 128) (String (ascii_of_nat 139) ""))]%string
  = [""; ""; "a" ++ JSString.NBSP ++ "b"; "";
     String (ascii_of_nat 226) (String (ascii_of_nat 128) (String (ascii_of_nat 139) ""))]%string.
Proof. vm_compute. reflexivity. Qed.

(* ================================================================== *)
(** * Lemmas on handlers and on the event loop                          *)
(* ================================================================== *)

Import Cart CartPage Paths.

Arguments totalPrice : simpl never.
Arguments JS.parseFloat_string : simpl never.

Section AlwaysFacts.
Variable S : Type.
Variable next : S -> Event -> S.
Variable ok : S -> forall R, Op R -> Prop.

Lemma always_bind {A B} (post : B -> S -> Prop) (m : Task A) (f : A -> Task B) s :
  always next ok (fun a s' => always next ok post (f a) s') m s ->
  always next ok post (Task.bind m f) s.
Proof.
  revert s; induction m as [a | R op k IH]; intros s; simpl; auto.
  intros [Hok Hk]; split; auto.
Qed.

Lemma valid_app s evs evs' :
  valid next ok s (evs ++ evs') <->
  valid next ok s evs /\ valid next ok (fold_left next evs s) evs'.
Proof.
  revert s; induction evs as [| e evs IH]; intros s; simpl.
  - tauto.
  - rewrite IH; tauto.
Qed.

Lemma valid_events_of s R (op : Op R) r : ok s op -> valid next ok s (events_of op r).
Proof.
  intros Hok; unfold events_of; destruct (is_await op) eqn:E; simpl;
    rewrite ?E; intuition congruence.
Qed.

(** A handler that keeps the discipline leaves a record that shows it. *)
Lemma always_run {A} env (post : A -> S -> Prop) (m : Task A) p s :
  always next ok post m s ->
  valid next ok s (trace (run env m p)) /\
  post (fst (fst (run env m p))) (fold_left next (trace (run env m p)) s).
Proof.
  revert p s; induction m as [a | R op k IH]; intros p s; simpl.
  - auto.
  - intros [Hok Hk].
    specialize (IH (answer env op) (update op p) _ (Hk (answer env op))).
    destruct (run env (k (answer env op)) (update op p)) as [[a p'] evs].
    unfold trace in *; simpl in *.
    rewrite valid_app, fold_left_app.
    destruct IH; split; [split|]; auto using valid_events_of.
Qed.

(** The same up to the next await, where the discipline passes to the
    continuation. *)
Lemma always_advance env (post : unit -> S -> Prop) (m : Task unit) p s :
  always next ok post m s ->
  let '(p', evs, susp) := advance env m p in
  valid next ok s evs /\
  match susp with
  | None => post tt (fold_left next evs s)
  | Some (Waiting op k) =>
      forall r, always next ok post (k r) (next (fold_left next evs s) (Did op r))
  end.
Proof.
  revert p s; induction m as [[] | R op k IH]; intros p s; simpl.
  - auto.
  - intros [Hok Hk]. destruct (is_await op) eqn:E.
    + simpl. split; [tauto|]. intros r. specialize (Hk r).
      unfold events_of in Hk; rewrite E in Hk. exact Hk.
    + specialize (IH (answer env op) (update op p) _ (Hk (answer env op))).
      destruct (advance env (k (answer env op)) (update op p)) as [[p' evs] susp].
      unfold events_of in IH; rewrite E in IH. simpl in *.
      destruct IH as [Hv Hs]. split; [split; auto|]. exact Hs.
Qed.

(** The loop that logs the PDF links only talks to the engine. *)
Hypothesis ok_log : forall s line, ok s (console_log line).
Hypothesis ok_type_error : forall s, ok s TypeError.
Hypothesis next_log : forall s line, next s (Did (console_log line) tt) = s.
Hypothesis next_type_error : forall s e, next s (Did TypeError e) = s.

Lemma log_pdf_links_always (post : JsError.t + unit -> S -> Prop) items s :
  (forall r, post r s) -> always next ok post (log_pdf_links items) s.
Proof.
  intros Hpost; induction items as [| orderItem rest IH]; simpl; auto.
  destruct (CreatedItem.product orderItem) as [product |]; simpl.
  - split; auto. intros []. rewrite next_log. exact IH.
  - split; auto. intros e. rewrite next_type_error. apply Hpost.
Qed.

Lemma forEach_log_always (post : JsError.t + unit -> S -> Prop) orderItems s :
  (forall r, post r s) -> always next ok post (forEach_log orderItems) s.
Proof.
  intros Hpost; destruct orderItems as [items |]; simpl.
  - now apply log_pdf_links_always.
  - split; auto. intros e. rewrite next_type_error. apply Hpost.
Qed.
End AlwaysFacts.

(** Walks down a handler, one operation and one answer at a time. *)
Ltac walk tac :=
  repeat first
    [ progress cbn
    | match goal with
      | |- _ /\ _ => split
      | |- forall _ : Settled Response.t, _ => intros [[? ? ?] | ?]
      | |- forall _, _ => intro
      | |- always _ _ _ (match ?x with _ => _ end) _ => destruct x
      | |- always _ _ _ (and_then _ _) _ => unfold and_then
      | |- always _ _ _ (Task.bind _ _) _ => apply always_bind
      | |- always _ _ _ (forEach_log _) _ =>
          apply forEach_log_always; [tac | tac | tac | tac | ]
      end
    | solve [tac] ].

Lemma handleCheckout_closes items s : closes (handleCheckout items) s.
Proof.
  unfold closes, handleCheckout.
  destruct items as [| item items];
    walk ltac:(unfold flag_ok; cbn; intros; discriminate || reflexivity || auto).
Qed.

Lemma handleCheckout_once items : once (handleCheckout items) 0.
Proof.
  unfold once, handleCheckout.
  destruct items as [| item items];
    walk ltac:(unfold once_ok, once_next; cbn; intros; reflexivity || auto).
Qed.

Lemma handleCheckout_clears_after_order items s :
  clears_after_order (handleCheckout items) s.
Proof.
  unfold clears_after_order, handleCheckout.
  destruct items as [| item items];
    walk ltac:(unfold clear_ok, confirmed_next; cbn; intros;
               rewrite ?orb_false_r, ?orb_true_r;
               discriminate || reflexivity || auto).
Qed.

Lemma handleCheckout_submits_paid items :
  always paid_next submit_ok (fun _ _ => True) (handleCheckout items) false.
Proof.
  unfold handleCheckout.
  destruct items as [| item items];
    walk ltac:(unfold submit_ok, paid_next; cbn; intros;
               rewrite ?orb_false_r, ?orb_true_r;
               discriminate || reflexivity || auto).
Qed.

(** ** The event loop keeps every invariant that each step keeps *)

Lemma exec_app inputs inputs' c :
  exec (inputs ++ inputs') c = exec inputs' (exec inputs c).
Proof. unfold exec; apply fold_left_app. Qed.

Lemma exec_invariant (I : Config -> Prop) :
  (forall i c, I c -> I (step i c)) ->
  forall inputs c, I c -> I (exec inputs c).
Proof.
  intros Hstep inputs; induction inputs as [| i inputs IH]; intros c Hc; simpl; auto.
Qed.

(** The same for the scripts in which Checkout is not pressed. *)
Lemma exec_invariant_no_press (I : Config -> Prop) :
  (forall i c, is_press i = false -> I c -> I (step i c)) ->
  forall inputs c, no_press inputs = true -> I c -> I (exec inputs c).
Proof.
  intros Hstep inputs; induction inputs as [| i inputs IH]; intros c Hnp Hc; simpl; auto.
  simpl in Hnp; apply andb_true_iff in Hnp as [Hi Hnp].
  apply IH; auto. apply Hstep; auto. now apply negb_true_iff.
Qed.

(** ** What the handlers of the alert and of the trash icon do *)

Lemma advance_perform_actions env acts p :
  exists p' evs,
    advance env (perform_actions acts) p = (p', evs, None) /\
    loading p' = loading p /\ alertButtons p' = alertButtons p /\
    filter is_order_call evs = [] /\
    (existsb is_clear evs = true ->
     existsb (fun a => match a with ClearCart => true | _ => false end) acts = true).
Proof.
  revert p; induction acts as [| a acts IH]; intros p.
  - exists p, []; simpl; repeat split; auto.
  - destruct a; simpl;
      match goal with
      | |- context [advance env (perform_actions acts) ?q] =>
          destruct (IH q) as (p' & evs & -> & Hl & Hb & Hc & Hclr)
      end;
      eexists; eexists; (split; [reflexivity |]); simpl; repeat split; auto.
Qed.

Lemma update_loading R (op : Op R) r p :
  loading (update op p) = flag_next (loading p) (Did op r).
Proof. destruct op; reflexivity. Qed.

Lemma flag_next_await R (op : Op R) r s :
  is_await op = true -> flag_next s (Did op r) = s.
Proof. destruct op; simpl; intros; congruence. Qed.

(** ** The loading flag guards the attempts *)

Lemma advance_closes env m p :
  closes m (loading p) ->
  let '(p', evs, susp) := advance env m p in
  match susp with
  | None => loading p' = false
  | Some (Waiting op k) => loading p' = true /\ forall r, closes (k r) true
  end.
Proof.
  unfold closes.
  revert p; induction m as [[] | R op k IH]; intros p; simpl; auto.
  intros [Hok Hk]. destruct (is_await op) eqn:E.
  - pose proof (Hok E) as Ht. split; auto. intros r.
    specialize (Hk r). unfold events_of in Hk; rewrite E in Hk.
    cbn [fold_left] in Hk.
    change (flag_next (loading p) (Called op)) with (loading p) in Hk.
    rewrite (flag_next_await op r _ E), Ht in Hk. exact Hk.
  - specialize (Hk (answer env op)).
    unfold events_of in Hk; rewrite E in Hk. cbn [fold_left] in Hk.
    rewrite <- update_loading in Hk. specialize (IH _ _ Hk).
    destruct (advance env (k (answer env op)) (update op p)) as [[p' evs] susp].
    exact IH.
Qed.

Lemma guarded_step i c : guarded c -> guarded (step i c).
Proof.
  intros G. destruct i as [env | n env | n | | id]; simpl.
  - unfold checkout_enabled.
    destruct (0 <? List.length (cartItems (page c)))%nat; simpl; auto.
    destruct (loading (page c)) eqn:L; simpl; auto.
    destruct G as [[Hp _] | (w & _ & Hl & _)]; [| congruence].
    unfold start.
    pose proof (advance_closes env (handleCheckout (cartItems (page c))) (page c)) as H.
    rewrite L in H. specialize (H (handleCheckout_closes _ _)).
    destruct (advance env (handleCheckout (cartItems (page c))) (page c)) as [[p' evs] susp].
    rewrite Hp; simpl. destruct susp as [[R op k] |]; simpl.
    + right. exists (Waiting op k). simpl. tauto.
    + left; auto.
  - destruct G as [[Hp Hl] | ([R op k] & Hp & Hl & Hk)].
    + rewrite Hp. destruct n; simpl; left; rewrite ?Hp; auto.
    + rewrite Hp. destruct n as [| n]; simpl.
      * pose proof (advance_closes env (k (answer env op)) (page c)) as H.
        rewrite Hl in H. specialize (H (Hk _)).
        destruct (advance env (k (answer env op)) (page c)) as [[p' evs] susp].
        simpl. destruct susp as [[R' op' k'] |]; simpl.
        -- right. exists (Waiting op' k'). simpl. tauto.
        -- left; auto.
      * destruct n; simpl; right; exists (Waiting op k); auto.
  - destruct (alertVisible (page c)); auto.
    destruct (nth_error (alertButtons (page c)) n) as [b |]; auto.
    unfold start.
    destruct (advance_perform_actions empty_env (Button.onPress b) (page c))
      as (p' & evs & -> & Hl & _).
    simpl. rewrite app_nil_r. unfold guarded; simpl. rewrite Hl. exact G.
  - destruct (alertVisible (page c)); auto.
    unfold guarded, start; simpl. rewrite app_nil_r. exact G.
  - destruct (has_id id (cartItems (page c))); auto.
    unfold guarded, start; simpl. rewrite app_nil_r. exact G.
Qed.

Lemma guarded_idle items : guarded (idle (mount items)).
Proof. left; auto. Qed.

Lemma guarded_exec inputs items : guarded (exec inputs (idle (mount items))).
Proof. apply exec_invariant; auto using guarded_step, guarded_idle. Qed.

(** While an attempt is in flight the Checkout button does nothing. *)
Lemma press_ignored env c :
  guarded c -> pending c <> [] -> step (PressCheckout env) c = c.
Proof.
  intros [[Hp _] | (w & _ & Hl & _)] Hne; [congruence |].
  simpl. unfold checkout_enabled. rewrite Hl, andb_false_r. reflexivity.
Qed.

Lemma advance_suspends_at_await env m p p' evs w :
  advance env m p = (p', evs, Some w) -> awaits_call w = true.
Proof.
  revert p p' evs; induction m as [[] | R' op' k' IH]; intros p p' evs; simpl.
  - discriminate.
  - destruct (is_await op') eqn:E.
    + intros H; inversion H; subst. exact E.
    + destruct (advance env (k' (answer env op')) (update op' p)) as [[q evs'] susp] eqn:A.
      intros H; inversion H; subst. eapply IH; eauto.
Qed.

Lemma In_remove_nth {A} (x : A) n l : In x (remove_nth n l) -> In x l.
Proof.
  revert n; induction l as [| a l IH]; intros [| n]; simpl; auto.
  intros [-> | H]; eauto.
Qed.

(** ** At most one call to the order API per attempt *)

Lemma order_calls_app evs evs' :
  order_calls (evs ++ evs') = (order_calls evs + order_calls evs')%nat.
Proof. unfold order_calls. now rewrite filter_app, length_app. Qed.

Lemma fold_once evs n : fold_left once_next evs n = (n + order_calls evs)%nat.
Proof.
  revert n; induction evs as [| e evs IH]; intros n; simpl.
  - unfold order_calls; simpl; lia.
  - rewrite IH. unfold once_next, order_calls; simpl.
    destruct (is_order_call e); simpl; lia.
Qed.

Lemma valid_once_bound evs n :
  valid once_next once_ok n evs -> (n <= 1)%nat -> (n + order_calls evs <= 1)%nat.
Proof.
  revert n; induction evs as [| e evs IH]; intros n; simpl.
  - unfold order_calls; simpl; lia.
  - intros [He Hv] Hn. specialize (IH _ Hv).
    unfold once_next in IH. unfold order_calls in *; simpl.
    destruct e as [R op r | R op]; simpl in *.
    + apply IH; auto.
    + destruct op; simpl in *; try (apply IH; lia).
      subst n. specialize (IH ltac:(lia)). lia.
Qed.

Lemma within_budget_step i c :
  is_press i = false -> within_budget c -> within_budget (step i c).
Proof.
  intros Hi (G & Hn & Hk).
  split; [now apply guarded_step |].
  destruct i as [env | n env | n | | id]; simpl in *; try discriminate.
  - destruct (nth_error (pending c) n) as [[R op k] |] eqn:N; [| auto].
    pose proof (nth_error_In _ _ N) as Hin.
    pose proof (Hk _ Hin (answer env op)) as Ho. simpl in Ho.
    pose proof (always_advance once_next once_ok env (fun _ _ => True) (k (answer env op)) (page c) _ Ho) as H.
    destruct (advance env (k (answer env op)) (page c)) as [[p' evs] susp].
    destruct H as [Hv Hs]. simpl.
    assert (Hc : order_calls (history c ++ Did op (answer env op) :: evs)
                 = (order_calls (history c) + order_calls evs)%nat).
    { rewrite order_calls_app. unfold order_calls; simpl. reflexivity. }
    rewrite Hc. split; [now apply valid_once_bound |].
    intros w Hin'.
    destruct G as [[Hp _] | (w0 & Hp & _)]; rewrite Hp in *.
    + destruct n; discriminate.
    + destruct n as [| n]; simpl in *; [| destruct n; discriminate].
      destruct susp as [[R1 op1 k1] |]; simpl in Hin'; [| tauto].
      destruct Hin' as [<- | []]. simpl. intros r.
      specialize (Hs r). rewrite fold_once in Hs. exact Hs.
  - destruct (alertVisible (page c)); auto.
    destruct (nth_error (alertButtons (page c)) n) as [b |]; auto.
    unfold start.
    destruct (advance_perform_actions empty_env (Button.onPress b) (page c))
      as (p' & evs & -> & _ & _ & Hc & _).
    simpl. rewrite app_nil_r, order_calls_app.
    unfold order_calls at 2 4. rewrite Hc; simpl. rewrite Nat.add_0_r. auto.
  - destruct (alertVisible (page c)); auto.
    unfold start; simpl. rewrite app_nil_r, order_calls_app.
    unfold order_calls at 2 4; simpl. rewrite Nat.add_0_r. auto.
  - destruct (has_id id (cartItems (page c))); auto.
    unfold start; simpl. rewrite app_nil_r, order_calls_app.
    unfold order_calls at 2 4; simpl. rewrite Nat.add_0_r. auto.
Qed.

(** ** The cart is cleared only after the order is confirmed *)

Lemma fold_confirmed evs s :
  fold_left confirmed_next evs s = s || existsb is_confirmation evs.
Proof.
  revert s; induction evs as [| e evs IH]; intros s; simpl.
  - now rewrite orb_false_r.
  - rewrite IH. unfold confirmed_next. now rewrite orb_assoc.
Qed.

Lemma clears_after_order_true {A} (m : Task A) : clears_after_order m true.
Proof.
  unfold clears_after_order.
  induction m as [a | R op k IH]; simpl; auto.
  split.
  - destruct op; simpl; auto.
  - intros r. rewrite fold_confirmed. apply IH.
Qed.

Lemma clears_after_order_mono {A} (m : Task A) s b :
  clears_after_order m s -> clears_after_order m (s || b).
Proof.
  destruct b; [| now rewrite orb_false_r].
  rewrite orb_true_r. intros _. apply clears_after_order_true.
Qed.

Lemma advance_buttons env post m p s :
  always confirmed_next clear_ok post m s ->
  (existsb clears (alertButtons p) = true -> s = true) ->
  let '(p', evs, _) := advance env m p in
  existsb clears (alertButtons p') = true -> fold_left confirmed_next evs s = true.
Proof.
  revert p s; induction m as [[] | R op k IH]; intros p s; simpl; auto.
  intros [Hok Hk] Hb. destruct (is_await op) eqn:E.
  - simpl. intros H. rewrite (Hb H). reflexivity.
  - specialize (Hk (answer env op)).
    unfold events_of in Hk; rewrite E in Hk. cbn [fold_left] in Hk.
    specialize (IH _ (update op p) _ Hk).
    destruct (advance env (k (answer env op)) (update op p)) as [[p' evs] susp].
    simpl. apply IH. intros H. unfold confirmed_next.
    destruct op; simpl in *; try (rewrite (Hb H); reflexivity).
    rewrite (Hok H). reflexivity.
Qed.

Lemma perform_actions_clears acts s :
  (existsb (fun a => match a with ClearCart => true | _ => false end) acts = true ->
   s = true) ->
  clears_after_order (perform_actions acts) s.
Proof.
  unfold clears_after_order.
  revert s; induction acts as [| a acts IH]; intros s H; simpl; auto.
  destruct a; simpl in *; (split; [auto |]); intros []; apply IH;
    unfold confirmed_next; simpl; rewrite orb_false_r; auto.
Qed.

Lemma order_confirmed_app c evs p' ps :
  order_confirmed {| page := p'; pending := ps; history := history c ++ evs |}
  = order_confirmed c || existsb is_confirmation evs.
Proof. unfold order_confirmed; simpl. apply existsb_app. Qed.

Lemma clears_guarded_start env m c :
  clears_guarded c ->
  clears_after_order m (order_confirmed c) ->
  clears_guarded (start env m c).
Proof.
  intros (Hv & Hb & Hp) Hm. unfold start.
  pose proof (always_advance confirmed_next clear_ok env _ m (page c) _ Hm) as H.
  pose proof (@advance_buttons env _ m (page c) _ Hm Hb) as B.
  pose proof (advance_suspends_at_await env m (page c)) as W.
  destruct (advance env m (page c)) as [[p' evs] susp].
  destruct H as [Hv' Hs].
  split; [| split].
  - simpl. apply valid_app. split; auto.
    rewrite fold_confirmed. exact Hv'.
  - rewrite order_confirmed_app. simpl. intros H.
    rewrite <- fold_confirmed. now apply B.
  - rewrite order_confirmed_app. cbn [pending]. intros w Hin.
    apply in_app_or in Hin as [Hin | Hin].
    + destruct (Hp w Hin) as [Hw Hr]. split; auto.
      destruct w as [R op k]; simpl in *. intros r.
      unfold confirmed_next in *.
      rewrite <- orb_assoc, (orb_comm (existsb _ _)), orb_assoc.
      apply clears_after_order_mono, Hr.
    + destruct susp as [w' |]; simpl in Hin; [| tauto].
      destruct Hin as [<- | []]. split; [eapply W; eauto |].
      destruct w' as [R op k]; simpl. intros r.
      specialize (Hs r). rewrite fold_confirmed in Hs. exact Hs.
Qed.

Lemma clears_guarded_step i c : clears_guarded c -> clears_guarded (step i c).
Proof.
  intros K. destruct i as [env | n env | n | | id]; simpl.
  - destruct (checkout_enabled (page c)); auto.
    apply clears_guarded_start; auto. apply handleCheckout_clears_after_order.
  - destruct (nth_error (pending c) n) as [[R op k] |] eqn:N; auto.
    destruct K as (Hv & Hb & Hp).
    destruct (Hp _ (nth_error_In _ _ N)) as [Hw Hr]. simpl in Hw, Hr.
    specialize (Hr (answer env op)).
    pose proof (always_advance confirmed_next clear_ok env _ _ (page c) _ Hr) as H.
    assert (Hb' : existsb clears (alertButtons (page c)) = true ->
                  confirmed_next (order_confirmed c) (Did op (answer env op)) = true).
    { intros Hx. unfold confirmed_next. rewrite (Hb Hx). reflexivity. }
    pose proof (@advance_buttons env _ _ (page c) _ Hr Hb') as B.
    pose proof (advance_suspends_at_await env (k (answer env op)) (page c)) as W.
    destruct (advance env (k (answer env op)) (page c)) as [[p' evs] susp].
    destruct H as [Hv' Hs].
    assert (Hc : forall ps,
               order_confirmed {| page := p'; pending := ps;
                                  history := history c ++ Did op (answer env op) :: evs |}
               = fold_left confirmed_next evs
                   (confirmed_next (order_confirmed c) (Did op (answer env op)))).
    { intros ps. rewrite order_confirmed_app, fold_confirmed. simpl.
      unfold confirmed_next. now rewrite orb_assoc. }
    split; [| split].
    + simpl. apply valid_app. split; auto. rewrite fold_confirmed. simpl.
      split; [| exact Hv'].
      intros Hna. rewrite Hna in Hw. discriminate.
    + rewrite Hc. simpl. exact B.
    + rewrite Hc. cbn [pending]. intros w Hin.
      apply in_app_or in Hin as [Hin | Hin].
      * apply In_remove_nth in Hin. destruct (Hp w Hin) as [Hw' Hr']. split; auto.
        destruct w as [R' op' k']; simpl in *. intros r.
        rewrite fold_confirmed. unfold confirmed_next in *.
        rewrite <- !orb_assoc.
        rewrite (orb_comm (is_confirmation (Did op (answer env op)))).
        rewrite <- !orb_assoc.
        rewrite (orb_comm (existsb is_confirmation evs)).
        rewrite !orb_assoc.
        do 2 apply clears_after_order_mono. apply Hr'.
      * destruct susp as [w' |]; simpl in Hin; [| tauto].
        destruct Hin as [<- | []]. split; [eapply W; eauto |].
        destruct w' as [R' op' k']; simpl. exact Hs.
  - destruct (alertVisible (page c)); auto.
    destruct (nth_error (alertButtons (page c)) n) as [b |] eqn:N; auto.
    apply clears_guarded_start; auto.
    apply perform_actions_clears. intros Hc.
    destruct K as (_ & Hb & _). apply Hb.
    apply existsb_exists. exists b. split; [eapply nth_error_In; eauto | exact Hc].
  - destruct (alertVisible (page c)); auto.
    apply clears_guarded_start; auto.
    unfold clears_after_order, alert_onClose; simpl. auto.
  - destruct (has_id id (cartItems (page c))); auto.
    apply clears_guarded_start; auto.
    unfold clears_after_order; simpl. auto.
Qed.

Lemma clears_guarded_exec inputs items :
  clears_guarded (exec inputs (idle (mount items))).
Proof.
  apply exec_invariant; auto using clears_guarded_step.
  split; [| split]; simpl; auto; try discriminate. tauto.
Qed.

(** ** Running a handler to its end *)

Lemma run_bind {A B} env (m : Task A) (f : A -> Task B) p :
  run env (Task.bind m f) p =
  let '(a, p', evs) := run env m p in
  let '(b, p'', evs') := run env (f a) p' in
  (b, p'', evs ++ evs').
Proof.
  revert p; induction m as [a | R op k IH]; intros p; simpl.
  - destruct (run env (f a) p) as [[b p''] evs']. reflexivity.
  - rewrite IH.
    destruct (run env (k (answer env op)) (update op p)) as [[a p'] evs].
    destruct (run env (f a) p') as [[b p''] evs'].
    now rewrite app_assoc.
Qed.

Lemma run_log_pdf_links env items p :
  run env (log_pdf_links items) p = (log_result env items, p, log_events env items).
Proof.
  unfold log_result.
  induction items as [| orderItem rest IH]; simpl; auto.
  destruct (CreatedItem.product orderItem) as [product |]; simpl; auto.
  rewrite IH. destruct (forallb _ rest); reflexivity.
Qed.

(** ** The event loop, when every await settles at once, is [run] *)

Lemma settle_nothing env n c :
  pending c = [] -> exec (repeat (Settle 0 env) n) c = c.
Proof.
  intros Hp; induction n as [| n IH]; simpl; auto.
  rewrite Hp; simpl. exact IH.
Qed.

Lemma start_settles env m p h :
  exec (repeat (Settle 0 env) (awaits env m))
       (start env m {| page := p; pending := []; history := h |})
  = {| page := final (run env m p); pending := [];
       history := h ++ trace (run env m p) |}.
Proof.
  revert p h; induction m as [[] | R op k IH]; intros p h; simpl.
  - unfold start, final, trace; simpl. reflexivity.
  - unfold start; simpl. destruct (is_await op) eqn:E; simpl.
    + specialize (IH (answer env op) p (h ++ [Called op; Did op (answer env op)])).
      unfold start in IH; simpl in IH.
      assert (Hu : update op p = p) by (destruct op; simpl in *; congruence).
      rewrite Hu.
      destruct (advance env (k (answer env op)) p) as [[p' evs] susp].
      simpl in *. rewrite <- app_assoc in IH. simpl in IH.
      rewrite <- app_assoc. simpl. rewrite IH.
      destruct (run env (k (answer env op)) p) as [[a q] evs'].
      unfold final, trace, events_of; simpl. rewrite E. simpl.
      now rewrite <- app_assoc.
    + specialize (IH (answer env op) (update op p) (h ++ [Did op (answer env op)])).
      unfold start in IH; simpl in IH.
      destruct (advance env (k (answer env op)) (update op p)) as [[p' evs] susp].
      simpl in *. rewrite <- app_assoc in IH. simpl in IH. rewrite IH.
      destruct (run env (k (answer env op)) (update op p)) as [[a q] evs'].
      unfold final, trace, events_of; simpl. rewrite E. simpl.
      now rewrite <- app_assoc.
Qed.

Lemma awaits_bound {A} env (m : Task A) n s :
  always count_next (count_ok n) (fun _ _ => True) m s ->
  (s <= n -> s + awaits env m <= n)%nat.
Proof.
  revert s; induction m as [a | R op k IH]; intros s; simpl.
  - lia.
  - intros [Hok Hk] Hs. specialize (Hk (answer env op)).
    unfold events_of in Hk. unfold count_ok in Hok.
    destruct (is_await op) eqn:E; simpl in Hk.
    + specialize (Hok eq_refl). specialize (IH _ _ Hk). lia.
    + specialize (IH _ _ Hk). lia.
Qed.

Lemma handleCheckout_awaits env items : (awaits env (handleCheckout items) <= 4)%nat.
Proof.
  apply (@awaits_bound unit env (handleCheckout items) 4%nat 0%nat); [| lia].
  unfold handleCheckout.
  destruct items as [| item items];
    walk ltac:(unfold count_ok, count_next; cbn; intros; lia || auto).
Qed.

(** One press, and four settlements at most, run the attempt to its end. *)
Lemma attempt_runs env items :
  items <> [] ->
  exec (PressCheckout env :: repeat (Settle 0 env) 4) (idle (mount items))
  = {| page := final (run env (handleCheckout items) (mount items));
       pending := [];
       history := trace (run env (handleCheckout items) (mount items)) |}.
Proof.
  intros Hne. destruct items as [| item items]; [congruence |].
  pose proof (handleCheckout_awaits env (item :: items)) as Hn.
  replace 4%nat with (awaits env (handleCheckout (item :: items))
                      + (4 - awaits env (handleCheckout (item :: items))))%nat by lia.
  rewrite repeat_app.
  change (exec (PressCheckout env :: ?l) ?c) with (exec l (step (PressCheckout env) c)).
  rewrite exec_app.
  change (step (PressCheckout env) (idle (mount (item :: items))))
    with (start env (handleCheckout (item :: items))
            {| page := mount (item :: items); pending := []; history := [] |}).
  rewrite start_settles. apply settle_nothing. reflexivity.
Qed.

(* ================================================================== *)
(** * The checkout pipeline against its specification                  *)
(* ================================================================== *)

Local Open Scope string_scope.

(** C4. A checkout on an empty cart fails at once with the 'Cart Empty'
    alert: the handler never awaits, and no collaborator is called, the
    payment-intent provider included. *)
Theorem empty_cart_fails_without_any_call : forall env p,
  let r := run env (handleCheckout []) p in
  trace r =
    [Did (setLoading true) tt;
     Did (setAlertTitle "Cart Empty") tt;
     Did (setAlertMessage "Your cart is empty. Add items before checkout.") tt;
     Did (setAlertIcon "cart-outline") tt;
     Did (setAlertButtons [ok_button]) tt;
     Did (setAlertVisible true) tt;
     Did (setLoading false) tt] /\
  existsb is_network (trace r) = false /\
  awaits env (handleCheckout []) = 0%nat /\
  final r =
    {| cartItems := cartItems p; loading := false; alertVisible := true;
       alertTitle := "Cart Empty";
       alertMessage := "Your cart is empty. Add items before checkout.";
       alertIcon := "cart-outline"; alertButtons := [ok_button] |}.
Proof.
  intros env p; cbn. repeat split.
Qed.

(** Splits an environment into the answers the handler branches on. *)
Ltac split_env env :=
  let i := fresh "intent" in
  let a := fresh "init" in
  let b := fresh "present" in
  let o := fresh "order" in
  let n := fresh "now" in
  let t := fresh "typeError" in
  destruct env as [i a b o n t]; cbn in *.

(** C8. Whatever error the presentation of the payment sheet returns, a
    cancellation included, the attempt ends in the one 'Payment Failed'
    alert carrying the error's message; only the message is read, so two
    errors with one message are handled alike, and the order API is not
    called. *)
Theorem present_error_is_one_failure : forall env items p e,
  items <> [] ->
  truthy (intent env) = true ->
  initResult env = None ->
  let r := run (with_presentResult env (Some e)) (handleCheckout items) p in
  final r =
    {| cartItems := cartItems p; loading := false; alertVisible := true;
       alertTitle := "Payment Failed";
       alertMessage := StripeError.message e;
       alertIcon := "cart-outline"; alertButtons := [ok_button] |} /\
  order_calls (trace r) = 0%nat /\
  In (Did (console_error "Payment Error:" (LogStripeError e)) tt) (trace r) /\
  forall e', StripeError.message e' = StripeError.message e ->
    final (run (with_presentResult env (Some e')) (handleCheckout items) p) = final r.
Proof.
  intros env items p e Hne Hi Ha.
  destruct items as [| item items]; [congruence |].
  split_env env. subst.
  unfold handleCheckout. cbn. rewrite Hi. cbn.
  repeat split.
  - do 7 right; left; reflexivity.
  - intros e' He'. rewrite He'. reflexivity.
Qed.

Lemma present_error_is_one_failure_witness :
  alertMessage
    (final (run (with_presentResult success_env (Some canceled))
                (handleCheckout sample_cart) (mount sample_cart)))
  = "The payment has been canceled" /\
  final (run (with_presentResult success_env (Some declined))
             (handleCheckout sample_cart) (mount sample_cart))
  = final (run (with_presentResult success_env (Some canceled))
               (handleCheckout sample_cart) (mount sample_cart)).
Proof.
  pose proof (@present_error_is_one_failure success_env sample_cart
                (mount sample_cart) canceled
                ltac:(discriminate) eq_refl eq_refl) as H.
  cbv zeta in H. destruct H as (Hf & _ & _ & He).
  split.
  - rewrite Hf. reflexivity.
  - apply He. reflexivity.
Defined.

(** Evaluates [run] on [handleCheckout], one case per way the answers of
    the environment can fall. *)
Ltac run_cases :=
  unfold handleCheckout; cbn;
  repeat match goal with
    | |- context [truthy ?i] =>
        let c := fresh "secret" in
        let E := fresh "E" in
        destruct i as [c |]; cbn; [destruct (String.eqb c "") eqn:E; cbn |]
    | |- context [match ?x with Some _ => _ | None => _ end] => destruct x; cbn
    | |- context [match ?x with Fulfilled _ => _ | Rejected _ => _ end] =>
        destruct x as [[[] [[[?|]] |] ?] | ?]; cbn
    | |- context [run _ (Task.bind _ _) _] => rewrite run_bind
    | |- context [run _ (log_pdf_links _) _] =>
        rewrite run_log_pdf_links; unfold log_result; cbn
    | |- context [if forallb ?f ?l then _ else _] =>
        let L := fresh "L" in destruct (forallb f l) eqn:L; cbn
    end.

Lemma existsb_log_events env items (f : Event -> bool) :
  (forall line, f (Did (console_log line) tt) = false) ->
  (forall e, f (Did TypeError e) = false) ->
  existsb f (log_events env items) = false.
Proof.
  intros Hl Ht; induction items as [| i rest IH]; simpl; auto.
  destruct (CreatedItem.product i); simpl; rewrite ?Hl, ?Ht, ?IH; auto.
Qed.

Lemma filter_log_events env items (f : Event -> bool) :
  (forall line, f (Did (console_log line) tt) = false) ->
  (forall e, f (Did TypeError e) = false) ->
  filter f (log_events env items) = [].
Proof.
  intros Hl Ht; induction items as [| i rest IH]; simpl; auto.
  destruct (CreatedItem.product i); simpl; rewrite ?Hl, ?Ht, ?IH; auto.
Qed.

(** C3. A checkout attempt never touches the cart: it leaves its content
    as it was and never clears it; when it fails, no button that would
    clear the cart is put on the alert; and when it fails before the
    order is persisted (no intent, an initialisation error or a
    presentation error) the order API is not called. *)
Theorem failed_checkout_keeps_cart : forall env items p,
  let r := run env (handleCheckout items) p in
  cartItems (final r) = cartItems p /\
  existsb is_clear (trace r) = false /\
  (items = [] \/ succeeds env = false ->
   existsb clears (alertButtons p) = false ->
   existsb clears (alertButtons (final r)) = false) /\
  (items = [] \/ fails_early env = true -> order_calls (trace r) = 0%nat).
Proof.
  intros env items p.
  destruct items as [| item items]; split_env env.
  - cbn. repeat split; auto.
  - unfold succeeds, fails_early, persisted, loggable, order_calls; cbn.
    run_cases; cbn;
      rewrite ?existsb_app, ?filter_app, ?length_app,
              ?(existsb_log_events _ _ is_clear), ?(filter_log_events _ _ is_order_call);
      cbn; repeat split; auto;
      try (intros [? | ?]; congruence || discriminate);
      try (intros [? | ?] ?; congruence || discriminate || auto).
Qed.

Lemma failed_checkout_keeps_cart_witness :
  let r := run init_error_env (handleCheckout sample_cart) (mount sample_cart) in
  cartItems (final r) = sample_cart /\
  existsb clears (alertButtons (final r)) = false /\
  order_calls (trace r) = 0%nat.
Proof.
  pose proof (failed_checkout_keeps_cart init_error_env sample_cart
                (mount sample_cart)) as H.
  cbv zeta in H. destruct H as (Hc & _ & Hb & Ho).
  split; [exact Hc | split].
  - apply Hb; [right |]; reflexivity.
  - apply Ho. right. reflexivity.
Defined.

Lemma or_else_fallback m fallback other :
  fallback <> "" -> or_else (Some (or_else m fallback)) other = or_else m fallback.
Proof.
  intros Hf. unfold or_else.
  destruct m as [s |].
  - destruct (String.eqb s "") eqn:E.
    + destruct (String.eqb fallback "") eqn:F; auto.
      apply String.eqb_eq in F. congruence.
    + now rewrite E.
  - destruct (String.eqb fallback "") eqn:F; auto.
    apply String.eqb_eq in F. congruence.
Qed.

(** C7, as the code has it.  A failure of the initialisation or of the
    presentation of the payment sheet shows 'Payment Failed' with the
    SDK's message as it is; a failure to persist the order shows
    'Checkout Failed' with the message of the rejection or of the
    response when there is one, else a fixed text; when no payment intent
    is returned the handler shows nothing and only clears the loading
    flag. *)
Theorem failures_are_reported_except_intent : forall env items p,
  items <> [] ->
  let r := run env (handleCheckout items) p in
  (truthy (intent env) = false ->
     existsb is_alert (trace r) = false /\
     final r =
       {| cartItems := cartItems p; loading := false;
          alertVisible := alertVisible p; alertTitle := alertTitle p;
          alertMessage := alertMessage p; alertIcon := alertIcon p;
          alertButtons := alertButtons p |}) /\
  (truthy (intent env) = true ->
     (forall e, initResult env = Some e ->
        shows (final r) "Payment Failed" (StripeError.message e) "cart-outline") /\
     (initResult env = None ->
        (forall e, presentResult env = Some e ->
           shows (final r) "Payment Failed" (StripeError.message e) "cart-outline") /\
        (presentResult env = None ->
           (forall e, orderResult env = Rejected e ->
              shows (final r) "Checkout Failed"
                (or_else (JsError.message e) "An error occurred during checkout.")
                "close-circle") /\
           (forall response, orderResult env = Fulfilled response ->
              persisted response = false ->
              shows (final r) "Checkout Failed"
                (or_else (Response.message response) "Failed to place order.")
                "close-circle")))).
Proof.
  intros env items p Hne.
  destruct items as [| item items]; [congruence |].
  split_env env. unfold shows, persisted.
  run_cases; cbn; repeat split; intros; try discriminate; try congruence;
    repeat match goal with
      | H : Some _ = Some _ |- _ => inversion H; subst; clear H
      | H : Rejected _ = Rejected _ |- _ => inversion H; subst; clear H
      | H : Fulfilled _ = Fulfilled _ |- _ => inversion H; subst; clear H
      end; cbn in *; try discriminate; try reflexivity;
    try (apply or_else_fallback; discriminate).
Qed.

Lemma failures_are_reported_except_intent_witness :
  shows (final (run init_error_env (handleCheckout sample_cart) (mount sample_cart)))
        "Payment Failed" "No such payment_intent" "cart-outline".
Proof.
  refine (proj1 (proj2 (failures_are_reported_except_intent init_error_env
                          (items := sample_cart) (mount sample_cart) _) eq_refl) _ eq_refl).
  discriminate.
Defined.

(** C7 as stated fails when the payment-intent provider returns null:
    the handler ends without showing anything. *)
Lemma intent_unavailable_shows_nothing :
  let r := run no_intent_env (handleCheckout sample_cart) (mount sample_cart) in
  alertVisible (final r) = false /\
  alertMessage (final r) = "" /\
  trace r =
    [Did (setLoading true) tt;
     Called (fetchPaymentIntent "12.50");
     Did (fetchPaymentIntent "12.50") None;
     Did (setLoading false) tt].
Proof. vm_compute. repeat split. Qed.

Lemma fold_paid evs s :
  fold_left paid_next evs s = s || existsb is_payment_confirmed evs.
Proof.
  revert s; induction evs as [| e evs IH]; intros s; simpl.
  - now rewrite orb_false_r.
  - rewrite IH. unfold paid_next. now rewrite orb_assoc.
Qed.

(** When every step succeeds the order API is called once, with a paid
    draft dated by [new Date()]. *)
Lemma success_calls_order_once env items p :
  items <> [] -> succeeds env = true ->
  exists d,
    filter is_order_call (trace (run env (handleCheckout items) p))
    = [Called (api_createOrder d)] /\
    OrderData.isPaid d = true /\ OrderData.paidAt d = Some (now env).
Proof.
  intros Hne Hs.
  destruct items as [| item items]; [congruence |].
  split_env env. unfold succeeds, persisted, loggable in Hs.
  revert Hs; run_cases; cbn; try discriminate; intros _.
  eexists. rewrite !filter_app, (filter_log_events _ _ is_order_call); auto.
Qed.

(** C1. In every checkout attempt the order API is called only after
    the payment sheet has been presented and has returned no error, and
    the draft it is given is paid ([isPaid] true, [paidAt] set); when
    every step succeeds, it is called exactly once, with [isPaid] true. *)
Theorem paid_order_only_after_payment : forall env items p,
  let r := run env (handleCheckout items) p in
  (forall before d after,
      trace r = (before ++ Called (api_createOrder d) :: after)%list ->
      existsb is_payment_confirmed before = true /\
      OrderData.isPaid d = true /\ OrderData.paidAt d <> None) /\
  (items <> [] -> succeeds env = true ->
   exists d,
     filter is_order_call (trace r) = [Called (api_createOrder d)] /\
     OrderData.isPaid d = true /\ OrderData.paidAt d = Some (now env)).
Proof.
  intros env items p r. split.
  - intros before d after Ht.
    pose proof (always_run paid_next submit_ok env _ _ p _
                  (handleCheckout_submits_paid items)) as [Hv _].
    fold r in Hv. rewrite Ht in Hv.
    apply valid_app in Hv as [_ [Hd _]]. simpl in Hd.
    rewrite fold_paid in Hd. exact Hd.
  - intros Hne Hs. now apply success_calls_order_once.
Qed.

Lemma paid_order_only_after_payment_witness :
  exists d,
    filter is_order_call
      (trace (run success_env (handleCheckout sample_cart) (mount sample_cart)))
    = [Called (api_createOrder d)] /\
    OrderData.isPaid d = true /\ OrderData.paidAt d = Some (now success_env).
Proof.
  apply (proj2 (paid_order_only_after_payment success_env sample_cart
                  (mount sample_cart))).
  - discriminate.
  - reflexivity.
Defined.

(** What a successful attempt leaves behind. *)
Lemma run_success env items p :
  items <> [] -> succeeds env = true ->
  let r := run env (handleCheckout items) p in
  final r =
    {| cartItems := cartItems p; loading := false; alertVisible := true;
       alertTitle := "Order Placed";
       alertMessage :=
         "You have successfully purchased the products in your cart. Check your purchase history for details.";
       alertIcon := "checkmark-circle";
       alertButtons := [order_placed_button] |} /\
  existsb is_confirmation (trace r) = true /\
  existsb is_clear (trace r) = false /\
  existsb is_navigate (trace r) = false.
Proof.
  intros Hne Hs.
  destruct items as [| item items]; [congruence |].
  split_env env. unfold succeeds, persisted, loggable in Hs.
  revert Hs; run_cases; cbn; try discriminate; intros _.
  rewrite !existsb_app, (existsb_log_events _ _ is_clear),
    (existsb_log_events _ _ is_navigate); auto.
Qed.

(** C2, as the code has it.  When every step succeeds, the attempt ends
    by showing the 'Order Placed' alert, with the cart as it was and
    nothing cleared or navigated; pressing the alert's OK then hides the
    alert, clears the cart and navigates to the purchase history, in that
    order.  Whatever the inputs, the cart is cleared only after the order
    API has confirmed an order. *)
Theorem success_notifies_then_clears_on_ok : forall env items,
  items <> [] -> succeeds env = true ->
  let shown :=
    exec (PressCheckout env :: repeat (Settle 0 env) 4) (idle (mount items)) in
  let acknowledged := step (PressAlertButton 0) shown in
  alertVisible (page shown) = true /\
  alertTitle (page shown) = "Order Placed" /\
  cartItems (page shown) = items /\
  pending shown = [] /\
  order_confirmed shown = true /\
  existsb is_clear (history shown) = false /\
  existsb is_navigate (history shown) = false /\
  history acknowledged =
    (history shown ++
     [Did (setAlertVisible false) tt;
      Did clearCart tt;
      Did (navigation_navigate "PurchaseHistory") tt])%list /\
  cartItems (page acknowledged) = [] /\
  forall inputs cart before e after,
    history (exec inputs (idle (mount cart))) = (before ++ e :: after)%list ->
    is_clear e = true ->
    existsb is_confirmation before = true.
Proof.
  intros env items Hne Hs shown acknowledged.
  subst acknowledged shown. rewrite (attempt_runs env Hne).
  destruct (run_success env (mount items) Hne Hs) as (Hf & Hc & Hl & Hn).
  destruct (run env (handleCheckout items) (mount items)) as [[a q] evs].
  unfold final, trace, order_confirmed in *. simpl in Hf, Hc, Hl, Hn. subst q.
  cbn.
  repeat split; auto.
  intros inputs cart before e after Hh He.
  destruct (clears_guarded_exec inputs cart) as (Hv & _).
  rewrite Hh in Hv. apply valid_app in Hv as [_ [Hi _]].
  rewrite fold_confirmed in Hi. simpl in Hi.
  destruct e as [R op r | R op]; [| discriminate].
  destruct op; try discriminate. simpl in Hi. apply Hi. reflexivity.
Qed.

Lemma success_notifies_then_clears_on_ok_witness :
  let shown :=
    exec (PressCheckout success_env :: repeat (Settle 0 success_env) 4)
         (idle (mount sample_cart)) in
  cartItems (page shown) = sample_cart /\
  cartItems (page (step (PressAlertButton 0) shown)) = [].
Proof.
  pose proof (@success_notifies_then_clears_on_ok success_env sample_cart
                ltac:(discriminate) eq_refl) as H.
  cbv zeta in H. split; [apply H | apply H].
Defined.

(** C2 as stated fails: on a successful checkout the notification comes
    first, and the cart is cleared and the navigation triggered after it,
    when its OK button is pressed. *)
Lemma notification_precedes_clear :
  let h :=
    history (exec (PressCheckout success_env :: repeat (Settle 0 success_env) 4
                     ++ [PressAlertButton 0])
                  (idle (mount sample_cart))) in
  first_index is_notification h = Some 15%nat /\
  first_index is_clear h = Some 18%nat /\
  first_index is_navigate h = Some 19%nat /\
  ~ clear_navigate_notify h.
Proof.
  cbv zeta.
  assert (H : first_index is_notification
                (history (exec (PressCheckout success_env
                                  :: repeat (Settle 0 success_env) 4
                                  ++ [PressAlertButton 0])
                               (idle (mount sample_cart)))) = Some 15%nat /\
              first_index is_clear
                (history (exec (PressCheckout success_env
                                  :: repeat (Settle 0 success_env) 4
                                  ++ [PressAlertButton 0])
                               (idle (mount sample_cart)))) = Some 18%nat /\
              first_index is_navigate
                (history (exec (PressCheckout success_env
                                  :: repeat (Settle 0 success_env) 4
                                  ++ [PressAlertButton 0])
                               (idle (mount sample_cart)))) = Some 19%nat)
    by (vm_compute; auto).
  destruct H as (Hn & Hc & Hv). repeat split; auto.
  intros (i & j & k & Hi & Hj & Hk & Hij & Hjk).
  rewrite Hc in Hi. rewrite Hv in Hj. rewrite Hn in Hk.
  inversion Hi; inversion Hj; inversion Hk. lia.
Qed.

(** Removing an id that is not in the cart changes nothing. *)
Lemma removeFromCart_absent id cart :
  has_id id cart = false -> Cart.removeFromCart id cart = cart.
Proof.
  unfold Cart.removeFromCart, has_id.
  induction cart as [| x l IH]; simpl; auto.
  intros H. apply orb_false_iff in H as [Hx Hl].
  rewrite Hx; simpl. now rewrite IH.
Qed.

(** Once the alert is hidden and no attempt is in flight, a script in
    which Checkout is not pressed can only remove items. *)
Lemma quiet_tail rest : forall c,
  no_press rest = true ->
  pending c = [] -> alertVisible (page c) = false ->
  let c' := exec rest c in
  pending c' = [] /\ alertVisible (page c') = false /\
  existsb is_clear (history c') = existsb is_clear (history c) /\
  existsb is_navigate (history c') = existsb is_navigate (history c) /\
  cartItems (page c') = after_trash rest (cartItems (page c)).
Proof.
  induction rest as [| i rest IH]; intros c Hnp Hp Hv; simpl.
  - auto.
  - simpl in Hnp. apply andb_true_iff in Hnp as [Hi Hnp].
    destruct i as [env | n env | n | | id]; simpl in Hi; try discriminate; simpl.
    + rewrite Hp. destruct n; simpl; apply IH; auto.
    + rewrite Hv. apply IH; auto.
    + rewrite Hv. apply IH; auto.
    + destruct (has_id id (cartItems (page c))) eqn:Hid.
      * assert (Hp' : pending (start empty_env (do (removeFromCart id)) c) = [])
          by (unfold start; simpl; rewrite Hp; reflexivity).
        assert (Hv' : alertVisible (page (start empty_env (do (removeFromCart id)) c))
                      = false) by (unfold start; simpl; exact Hv).
        specialize (IH _ Hnp Hp' Hv'). unfold start in IH; simpl in IH.
        rewrite !existsb_app in IH. simpl in IH. rewrite !orb_false_r in IH.
        exact IH.
      * specialize (IH c Hnp Hp Hv). simpl in IH.
        pose proof (removeFromCart_absent id (cartItems (page c)) Hid) as Hr.
        rewrite Hr. exact IH.
Qed.

(** C10. After a successful checkout the order is persisted as paid and
    the alert is shown, with the cart untouched; the cart is cleared and
    the navigation triggered by the alert's OK button only.  If the alert
    is closed through [onClose] instead, then, as long as Checkout is not
    pressed again, the cart is never cleared (it only loses what the user
    removes) and no navigation occurs. *)
Theorem closing_success_alert_keeps_cart : forall env items rest,
  items <> [] -> succeeds env = true -> no_press rest = true ->
  let shown :=
    exec (PressCheckout env :: repeat (Settle 0 env) 4) (idle (mount items)) in
  let closed := exec (CloseAlert :: rest) shown in
  (* the order is persisted as paid *)
  order_confirmed shown = true /\
  (exists d, filter is_order_call (history shown) = [Called (api_createOrder d)] /\
             OrderData.isPaid d = true) /\
  (* only the OK button clears and navigates *)
  alertButtons (page shown) = [order_placed_button] /\
  existsb is_clear (history shown) = false /\
  existsb is_navigate (history shown) = false /\
  existsb is_clear (history (step (PressAlertButton 0) shown)) = true /\
  existsb is_navigate (history (step (PressAlertButton 0) shown)) = true /\
  (* closing the alert instead *)
  alertVisible (page closed) = false /\
  existsb is_clear (history closed) = false /\
  existsb is_navigate (history closed) = false /\
  cartItems (page closed) = after_trash rest items.
Proof.
  intros env items rest Hne Hs Hnp shown closed.
  subst closed shown. rewrite (attempt_runs env Hne).
  destruct (run_success env (mount items) Hne Hs) as (Hf & Hc & Hl & Hn).
  destruct (success_calls_order_once env (mount items) Hne Hs) as (d & Hd & Hpaid & _).
  destruct (run env (handleCheckout items) (mount items)) as [[a q] evs].
  unfold final, trace, order_confirmed in *. simpl in Hf, Hc, Hl, Hn, Hd. subst q.
  cbn [fst snd].
  change (exec (CloseAlert :: rest) ?c) with (exec rest (step CloseAlert c)).
  cbn [step page pending history alertVisible alertButtons nth_error].
  unfold start; cbn [advance alert_onClose perform_actions perform_action do
                       Task.perform Task.bind is_await answer update page pending
                       history alertVisible alertButtons cartItems loading
                       alertTitle alertMessage alertIcon opt_list order_placed_button
                       Button.onPress].
  match goal with |- context [exec rest ?c0] =>
    pose proof (@quiet_tail rest c0 Hnp eq_refl eq_refl) as Q end.
  cbn [page pending history alertVisible cartItems] in Q.
  destruct Q as (_ & Qv & Qc & Qn & Qi).
  rewrite Qv, Qc, Qn, Qi.
  rewrite ?app_nil_r, !existsb_app, Hl, Hn. cbn.
  repeat split; eauto.
Qed.

Lemma closing_success_alert_keeps_cart_witness :
  cartItems (page (exec (CloseAlert :: [PressAlertButton 0; CloseAlert])
                    (exec (PressCheckout success_env
                             :: repeat (Settle 0 success_env) 4)
                          (idle (mount sample_cart)))))
  = sample_cart.
Proof.
  pose proof (@closing_success_alert_keeps_cart success_env sample_cart
                [PressAlertButton 0; CloseAlert]
                ltac:(discriminate) eq_refl eq_refl) as H.
  cbv zeta in H. apply H.
Defined.

Lemma run_loading {A} env (m : Task A) p :
  loading (final (run env m p)) = fold_left flag_next (trace (run env m p)) (loading p).
Proof.
  revert p; induction m as [a | R op k IH]; intros p; simpl; auto.
  specialize (IH (answer env op) (update op p)).
  destruct (run env (k (answer env op)) (update op p)) as [[a q] evs].
  unfold final, trace in *; simpl in *.
  rewrite fold_left_app, IH. f_equal.
  destruct op; reflexivity.
Qed.

Lemma within_budget_press env c :
  guarded c -> pending c = [] -> order_calls (history c) = 0%nat ->
  within_budget (step (PressCheckout env) c).
Proof.
  intros G Hp Hn.
  split; [now apply guarded_step |].
  simpl. destruct (checkout_enabled (page c)).
  - unfold start.
    pose proof (always_advance once_next once_ok env _ _ (page c) _
                  (handleCheckout_once (cartItems (page c)))) as H.
    destruct (advance env (handleCheckout (cartItems (page c))) (page c))
      as [[p' evs] susp].
    destruct H as [Hv Hs]. simpl.
    rewrite order_calls_app, Hn, Hp. simpl.
    split; [apply (valid_once_bound evs Hv); lia |].
    intros w Hin. destruct susp as [[R op k] |]; simpl in Hin; [| tauto].
    destruct Hin as [<- | []]. simpl. intros r.
    specialize (Hs r). rewrite fold_once in Hs. exact Hs.
  - rewrite Hn, Hp. split; [lia |]. intros w [].
Qed.

(** C6. The loading flag is set before the cart is looked at and is
    cleared on every way out of the handler.  With the Checkout button
    disabled while the flag is set, at most one attempt is in flight, the
    flag says whether one is, and a press that comes while one is in
    flight changes nothing; so two presses in a row, however the pending
    calls then settle, lead to one call of the order API at most. *)
Theorem checkout_button_guards_reentry :
  (forall items, exists k, handleCheckout items = Task.Vis (setLoading true) k) /\
  (forall env items p, loading (final (run env (handleCheckout items) p)) = false) /\
  (forall inputs items,
      let c := exec inputs (idle (mount items)) in
      (List.length (pending c) <= 1)%nat /\
      (loading (page c) = true <-> pending c <> []) /\
      (forall env, pending c <> [] -> step (PressCheckout env) c = c)) /\
  (forall items e1 e2 rest,
      no_press rest = true ->
      (order_calls
         (history (exec (PressCheckout e1 :: PressCheckout e2 :: rest)
                        (idle (mount items)))) <= 1)%nat).
Proof.
  split; [| split; [| split]].
  - intros items. unfold handleCheckout. cbn. eexists. reflexivity.
  - intros env items p. rewrite run_loading.
    pose proof (always_run flag_next flag_ok env _ _ p _
                  (handleCheckout_closes items (loading p))) as [_ H].
    exact H.
  - intros inputs items c.
    pose proof (guarded_exec inputs items) as G. fold c in G.
    repeat split.
    + destruct G as [[-> _] | (w & -> & _)]; simpl; lia.
    + destruct G as [[Hp Hl] | (w & Hp & Hl & _)]; congruence.
    + destruct G as [[Hp Hl] | (w & Hp & Hl & _)]; intros; congruence.
    + intros env Hne. now apply press_ignored.
  - intros items e1 e2 rest Hnp.
    change (exec (PressCheckout e1 :: PressCheckout e2 :: rest) ?c)
      with (exec rest (step (PressCheckout e2) (step (PressCheckout e1) c))).
    assert (B : within_budget
                  (step (PressCheckout e2)
                     (step (PressCheckout e1) (idle (mount items))))).
    { pose proof (@within_budget_press e1 (idle (mount items))
                    (guarded_idle items) eq_refl eq_refl) as B1.
      destruct items as [| item items].
      - cbn. cbn in B1. exact B1.
      - rewrite press_ignored; auto.
        + apply B1.
        + unfold handleCheckout; cbn. discriminate. }
    apply (exec_invariant_no_press within_budget) with (inputs := rest) in B; auto.
    + apply B.
    + intros i c Hi Hc. now apply within_budget_step.
Qed.

Lemma checkout_button_guards_reentry_witness :
  (order_calls
     (history (exec (PressCheckout success_env :: PressCheckout success_env
                       :: repeat (Settle 0 success_env) 4)
                    (idle (mount sample_cart)))) <= 1)%nat.
Proof.
  apply (proj2 (proj2 (proj2 checkout_button_guards_reentry))).
  reflexivity.
Defined.

(** The handler itself does not look at the flag: started twice, it
    runs twice.  The guard is the disabled button. *)
Lemma handler_alone_runs_twice :
  let twice :=
    start success_env (handleCheckout sample_cart)
      (start success_env (handleCheckout sample_cart) (idle (mount sample_cart))) in
  List.length (pending twice) = 2%nat /\
  order_calls
    (history (exec (repeat (Settle 0 success_env) 8) twice)) = 2%nat.
Proof. vm_compute. auto. Qed.

(* ================================================================== *)
(** * The total                                                         *)
(* ================================================================== *)

Import DecimalTotal.

Lemma pow2_pos e : (0 < JS.pow2 e)%Q.
Proof.
  destruct e as [| p | p]; simpl.
  - reflexivity.
  - unfold Qlt; simpl. rewrite Z.mul_1_r.
    rewrite Z.pow_pos_fold. apply Z.pow_pos_nonneg; lia.
  - unfold Qlt; simpl. lia.
Qed.

(** [toFixed(2)] of a Number whose value is a non-negative amount below
    [10^21] is that amount in hundredths, rounded half up. *)
Lemma toFixed2_value x v :
  JS.value x = Some v -> (0 <= v)%Q -> (v < JS.pow10 21)%Q ->
  JS.toFixed2 x = JS.fixed2_digits (round2 v).
Proof.
  destruct x as [s | s | | s m e]; unfold JS.value, JS.toFixed2; try discriminate.
  - intros H _ _. inversion H; subst. reflexivity.
  - intros H Hpos Hlt. inversion H; subst; clear H.
    destruct s.
    + exfalso. clear Hlt. pose proof (pow2_pos e) as Hp.
      unfold Qle, Qlt in *. simpl in *.
      destruct (Qnum (JS.pow2 e)); simpl in *; lia.
    + cbn [append].
      destruct (Qle_bool (JS.pow10 21) (inject_Z (Z.pos m) * JS.pow2 e)) eqn:E.
      * apply Qle_bool_iff in E. exfalso. apply (Qlt_not_le _ _ Hlt E).
      * reflexivity.
Qed.

Lemma round2_comp q q' : (q == q')%Q -> round2 q = round2 q'.
Proof.
  intros H. unfold round2. apply Qfloor_comp. now rewrite H.
Qed.

(** When no step rounds, the running binary64 sum is the exact sum. *)
Lemma exact_from_value items : forall acc va,
  exact_from acc items = true ->
  JS.value acc = Some va -> (0 <= va)%Q ->
  exists vs q,
    JS.value (fold_left (fun sum item => JS.add sum (parseFloat (price item)))
                        items acc) = Some vs /\
    exact_sum items = Some q /\ (vs == va + q)%Q /\ (0 <= q)%Q.
Proof.
  induction items as [| item rest IH]; intros acc va He Hv Hpos; simpl.
  - exists va, 0%Q. repeat split; auto.
    + ring.
    + apply Qle_refl.
  - simpl in He. apply andb_true_iff in He as [Hs Hr].
    unfold exact_step in Hs. rewrite Hv in Hs.
    destruct (decimal_value (price item)) as [d |]; [| discriminate].
    destruct (JS.value (parseFloat (price item))) as [vx |]; [| discriminate].
    destruct (JS.value (JS.add acc (parseFloat (price item)))) as [vs1 |] eqn:Hv1;
      [| discriminate].
    apply andb_true_iff in Hs as [Hs Hsum]. apply andb_true_iff in Hs as [Hx Hd].
    apply Qeq_bool_iff in Hx, Hsum. apply Qle_bool_iff in Hd.
    assert (Hpos1 : (0 <= vs1)%Q).
    { rewrite Hsum, Hx. 
      setoid_replace 0%Q with (0 + 0)%Q by ring. now apply Qplus_le_compat. }
    destruct (IH _ _ Hr Hv1 Hpos1) as (vs & q & Hf & Hq & Heq & Hq0).
    exists vs, (d + q)%Q. rewrite Hq. repeat split; auto.
    + rewrite Heq, Hsum, Hx. ring.
    + setoid_replace 0%Q with (0 + 0)%Q by ring. now apply Qplus_le_compat.
Qed.

Lemma exact_sum_perm items items' q :
  Permutation items items' ->
  exact_sum items = Some q ->
  exists q', exact_sum items' = Some q' /\ (q' == q)%Q.
Proof.
  intros P; revert q; induction P as [| x l l' P IH | x y l | l l' l'' P1 IH1 P2 IH2];
    intros q; simpl.
  - intros H; exists q; split; auto. reflexivity.
  - destruct (decimal_value (price x)) as [d |]; [| discriminate].
    destruct (exact_sum l) as [ql |]; [| discriminate].
    intros H; inversion H; subst.
    destruct (IH _ eq_refl) as (q' & -> & Hq).
    eexists; split; [reflexivity |]. now rewrite Hq.
  - destruct (decimal_value (price x)) as [dx |],
             (decimal_value (price y)) as [dy |],
             (exact_sum l) as [ql |]; try discriminate.
    intros H; inversion H; subst.
    eexists; split; [reflexivity |]. ring.
  - intros H. destruct (IH1 _ H) as (q1 & H1 & E1).
    destruct (IH2 _ H1) as (q2 & H2 & E2).
    exists q2; split; auto. now rewrite E2.
Qed.

Lemma totalPrice_exact items q :
  exact items = true -> exact_sum items = Some q -> (q < JS.pow10 21)%Q ->
  totalPrice items = JS.fixed2_digits (round2 q).
Proof.
  intros He Hq Hlt.
  destruct (@exact_from_value items JS.pos_zero 0%Q He eq_refl (Qle_refl 0))
    as (vs & q' & Hf & Hq' & Heq & Hpos).
  rewrite Hq in Hq'. inversion Hq'; subst q'.
  assert (Hvs : (vs == q)%Q) by (rewrite Heq; ring).
  unfold totalPrice. rewrite (toFixed2_value _ Hf).
  - now rewrite (round2_comp Hvs).
  - now rewrite Hvs.
  - now rewrite Hvs.
Qed.

(** When no step rounds, the total is the exact decimal sum rounded half
    up, and so is that of every order of the items in which no step
    rounds. *)
Lemma total_of_exact_steps items q :
  exact items = true -> exact_sum items = Some q -> (q < JS.pow10 21)%Q ->
  totalPrice items = JS.fixed2_digits (round2 q) /\
  spec_totalPrice items = Some (totalPrice items) /\
  forall items',
    Permutation items items' -> exact items' = true ->
    totalPrice items' = totalPrice items.
Proof.
  intros He Hq Hlt.
  pose proof (totalPrice_exact items He Hq Hlt) as Ht.
  split; [exact Ht |]. split.
  - unfold spec_totalPrice. now rewrite Hq, Ht.
  - intros items' P He'.
    destruct (exact_sum_perm P Hq) as (q' & Hq' & Heq).
    rewrite Ht, (totalPrice_exact items' He' Hq').
    + now rewrite (round2_comp Heq).
    + now rewrite Heq.
Qed.

(** ** Rounding in binary64

    What [binary_round] of the Standard Library does to a mantissa, and
    from it how far [x + y] and [parseFloat] are from the exact sum and
    from the decimal read. *)

Unset Implicit Arguments.
Local Open Scope Z_scope.

(** A mantissa of [d] bits is at least [2^(d-1)] and below [2^d]. *)
Lemma digits2_pos_bounds m :
  2 ^ (Z.pos (digits2_pos m) - 1) <= Z.pos m < 2 ^ Z.pos (digits2_pos m).
Proof.
  induction m as [m IH | m IH |]; cbn [digits2_pos].
  - rewrite Pos2Z.inj_succ.
    replace (Z.succ (Z.pos (digits2_pos m)) - 1) with (Z.succ (Z.pos (digits2_pos m) - 1)) by lia.
    rewrite !Z.pow_succ_r by lia. lia.
  - rewrite Pos2Z.inj_succ.
    replace (Z.succ (Z.pos (digits2_pos m)) - 1) with (Z.succ (Z.pos (digits2_pos m) - 1)) by lia.
    rewrite !Z.pow_succ_r by lia. lia.
  - simpl. lia.
Qed.

(** [iter_pos f n] applies [f] [n] times. *)
Lemma iter_pos_nat {A} (f : A -> A) n : forall x,
  iter_pos f n x = Nat.iter (Pos.to_nat n) f x.
Proof.
  induction n as [n IH | n IH |]; intros x; cbn [iter_pos].
  - rewrite !IH. rewrite Pos2Nat.inj_xI.
    replace (S (2 * Pos.to_nat n)) with (Pos.to_nat n + (Pos.to_nat n + 1))%nat by lia.
    rewrite !Nat.iter_add. simpl. reflexivity.
  - rewrite !IH. rewrite Pos2Nat.inj_xO.
    replace (2 * Pos.to_nat n)%nat with (Pos.to_nat n + Pos.to_nat n)%nat by lia.
    rewrite Nat.iter_add. reflexivity.
  - reflexivity.
Qed.

(** One shift halves the mantissa, keeps the bit that falls off and
    remembers whether a bit has fallen off before. *)
Lemma shr_1_div2 m r s : 0 <= m ->
  shr_1 (Build_shr_record m r s) = Build_shr_record (Z.div2 m) (Z.odd m) (r || s).
Proof. destruct m as [| [p | p |] | p]; try reflexivity; lia. Qed.

(** After [k] shifts of a non-negative mantissa [m0]. *)
Lemma shr_1_iter m0 : 0 <= m0 -> forall k,
  let mrs := Nat.iter k shr_1 (Build_shr_record m0 false false) in
  exists t,
    2 * m0 = shr_m mrs * (2 * 2 ^ Z.of_nat k) + Z.b2z (shr_r mrs) * 2 ^ Z.of_nat k + t /\
    0 <= t < 2 ^ Z.of_nat k /\
    shr_s mrs = negb (t =? 0) /\
    0 <= shr_m mrs.
Proof.
  intros Hm k. induction k as [| k IH].
  - exists 0. cbv [Nat.iter nat_rect shr_m shr_r shr_s Z.b2z].
    change (2 ^ Z.of_nat 0) with 1.
    repeat split; try lia.
  - cbn zeta in *. rewrite Nat.iter_succ.
    destruct IH as (t & E & Ht & Hs & Hpos).
    destruct (Nat.iter k shr_1 _) as [m r s]. cbn [shr_m shr_r shr_s] in *.
    rewrite (shr_1_div2 _ _ _ Hpos). cbn [shr_m shr_r shr_s].
    exists (Z.b2z r * 2 ^ Z.of_nat k + t).
    assert (Hp : 0 < 2 ^ Z.of_nat k) by (apply Z.pow_pos_nonneg; lia).
    assert (E2 : 2 ^ Z.of_nat (S k) = 2 * 2 ^ Z.of_nat k).
    { rewrite Nat2Z.inj_succ, Z.pow_succ_r by lia. reflexivity. }
    rewrite E2. clear E2.
    remember (2 ^ Z.of_nat k) as P eqn:HP. clear HP.
    pose proof (Z.div2_odd m) as Hd.
    remember (Z.div2 m) as m'. remember (Z.odd m) as r'.
    clear Heqm' Heqr'. subst m.
    assert (Hr : 0 <= Z.b2z r <= 1) by (destruct r; simpl; lia).
    assert (Hr' : 0 <= Z.b2z r' <= 1) by (destruct r'; simpl; lia).
    split; [ rewrite E; ring |].
    split; [ nia |].
    split.
    + subst s. destruct r; cbn [Z.b2z orb].
      * symmetry. apply negb_true_iff, Z.eqb_neq. lia.
      * rewrite Z.mul_0_l, Z.add_0_l. reflexivity.
    + lia.
Qed.

(** Rounding to nearest what [k] shifts have cut off. *)
Lemma round_after_shift m0 k : 0 <= m0 ->
  let mrs := Nat.iter k shr_1 (Build_shr_record m0 false false) in
  let m1 := round_nearest_even (shr_m mrs) (loc_of_shr_record mrs) in
  0 <= m1 /\ m1 * 2 ^ Z.of_nat k <= m0 + 2 ^ Z.of_nat k /\
  - 2 ^ Z.of_nat k <= 2 * m0 - m1 * (2 * 2 ^ Z.of_nat k) <= 2 ^ Z.of_nat k.
Proof.
  intros Hm. cbn zeta.
  destruct (shr_1_iter m0 Hm k) as (t & E & Ht & Hs & Hpos).
  destruct (Nat.iter k shr_1 _) as [m r s]. cbn [shr_m shr_r shr_s] in *.
  assert (Hp : 0 < 2 ^ Z.of_nat k) by (apply Z.pow_pos_nonneg; lia).
  remember (2 ^ Z.of_nat k) as P eqn:HP. clear HP.
  destruct r, s; cbn [loc_of_shr_record round_nearest_even Z.b2z] in *.
  - symmetry in Hs. apply negb_true_iff, Z.eqb_neq in Hs. nia.
  - symmetry in Hs. apply negb_false_iff, Z.eqb_eq in Hs. subst t.
    destruct (Z.even m); nia.
  - symmetry in Hs. apply negb_true_iff, Z.eqb_neq in Hs. nia.
  - symmetry in Hs. apply negb_false_iff, Z.eqb_eq in Hs. subst t. nia.
Qed.

(** Shifting a mantissa left by [d] bits. *)
Lemma Pos_iter_xO m d :
  Z.pos (Pos.iter xO m d) = Z.pos m * 2 ^ Z.pos d /\
  digits2_pos (Pos.iter xO m d) = (digits2_pos m + d)%positive.
Proof.
  induction d as [| d IH] using Pos.peano_ind.
  - simpl. split; [lia |]. now rewrite Pos.add_1_r.
  - rewrite Pos.iter_succ. destruct IH as [IH1 IH2].
    rewrite Pos2Z.inj_xO, IH1. cbn [digits2_pos]. rewrite IH2.
    rewrite Pos2Z.inj_succ, Z.pow_succ_r by lia. split; [lia |].
    now rewrite Pos.add_succ_r.
Qed.

(** The exponent of the format of binary64 for a value of [x] bits. *)
Lemma fexp_eq x : fexp 53 1024 x = Z.max (x - 53) (-1074).
Proof. reflexivity. Qed.

(** [JS.pow2] and [JS.pow10] are the powers of the rationals. *)
Lemma pow2_Qpower e : (JS.pow2 e == 2 ^ e)%Q.
Proof.
  destruct e as [| p | p].
  - reflexivity.
  - unfold JS.pow2. change (Z.pow_pos 2 p) with (2 ^ Z.pos p).
    rewrite Zpower_Qpower by lia. reflexivity.
  - unfold JS.pow2. rewrite (Qpower_decomp_neg_pos p 2 1).
    rewrite Z.pow_1_l by lia. reflexivity.
Qed.

Lemma pow2_add a b : (JS.pow2 (a + b) == JS.pow2 a * JS.pow2 b)%Q.
Proof. rewrite !pow2_Qpower. apply Qpower_plus. discriminate. Qed.

Lemma pow2_Z n : 0 <= n -> (JS.pow2 n == inject_Z (2 ^ n))%Q.
Proof. intros H. rewrite pow2_Qpower, Zpower_Qpower by lia. reflexivity. Qed.

Lemma pow2_le a b : a <= b -> (JS.pow2 a <= JS.pow2 b)%Q.
Proof.
  intros H. rewrite !pow2_Qpower. apply Qpower_le_compat_l; [lia | discriminate].
Qed.

(** The second normalisation of [binary_round_aux]: the rounded mantissa
    has at most 53 bits, or is [2^53]. *)
Lemma renormalise m1 f :
  0 <= m1 <= 2 ^ 53 -> -1074 <= f -> f + 1 <= 971 ->
  exists v,
    JS.value
      (let '(mrs, e) := shr_fexp 53 1024 m1 f loc_Exact in
       match shr_m mrs with
       | Z0 => S754_zero false
       | Zpos m => if Z.leb e (1024 - 53) then S754_finite false m e else S754_infinity false
       | Zneg _ => S754_nan
       end) = Some v /\
    (v == inject_Z m1 * JS.pow2 f)%Q.
Proof.
  intros Hm Hf Hmax.
  unfold shr_fexp. rewrite fexp_eq. cbn [shr_record_of_loc].
  destruct m1 as [| p | p]; [| | lia].
  - cbn [Zdigits2]. unfold shr.
    destruct (Z.max (0 + f - 53) (-1074) - f) eqn:E; try lia.
    + cbn. eexists; split; [reflexivity |]. ring.
    + cbn. eexists; split; [reflexivity |]. ring.
  - cbn [Zdigits2].
    pose proof (digits2_pos_bounds p) as Hd.
    destruct (Z.eq_dec (Z.pos p) (2 ^ 53)) as [E53 | N53].
    + assert (p = Z.to_pos (2 ^ 53)) as -> by lia.
      change (Z.pos (digits2_pos (Z.to_pos (2 ^ 53)))) with 54.
      replace (Z.max (54 + f - 53) (-1074) - f) with 1 by lia.
      cbn [shr iter_pos shr_1 shr_m Z.to_pos Z.pow Z.pow_pos Pos.iter Z.mul Pos.mul].
      cbv beta iota.
      replace (f + 1 <=? 1024 - 53) with true by (symmetry; apply Z.leb_le; lia).
      cbn [JS.value]. eexists; split; [reflexivity |].
      rewrite pow2_add. change (JS.pow2 1) with (inject_Z 2).
      change (inject_Z (Z.pos (Z.to_pos (2 ^ 53)))) with (inject_Z (Z.pos 4503599627370496) * inject_Z 2)%Q.
      ring.
    + assert (Hlt : Z.pos p < 2 ^ 53) by lia.
      assert (Hdig : Z.pos (digits2_pos p) <= 53).
      { destruct (Z.le_gt_cases (Z.pos (digits2_pos p)) 53) as [H | H]; [exact H |].
        exfalso. assert (2 ^ 53 <= 2 ^ (Z.pos (digits2_pos p) - 1)).
        { apply Z.pow_le_mono_r; lia. }
        lia. }
      unfold shr.
      destruct (Z.max (Z.pos (digits2_pos p) + f - 53) (-1074) - f) eqn:E; try lia.
      * cbn [shr_m]. replace (f <=? 1024 - 53) with true by (symmetry; apply Z.leb_le; lia).
        cbn [JS.value]. eexists; split; [reflexivity |]. reflexivity.
      * cbn [shr_m]. replace (f <=? 1024 - 53) with true by (symmetry; apply Z.leb_le; lia).
        cbn [JS.value]. eexists; split; [reflexivity |]. reflexivity.
Qed.

(** [binary_round_aux] on an exact mantissa whose exponent is not above
    the one of its format: the mantissa is cut to 53 bits and rounded to
    nearest. *)
Lemma binary_round_aux_near mz ez :
  let f := fexp 53 1024 (Z.pos (digits2_pos mz) + ez) in
  ez <= f -> f + 1 <= 971 ->
  exists m1 v,
    0 <= m1 <= 2 ^ 53 /\
    - 2 ^ (f - ez) <= 2 * Z.pos mz - m1 * (2 * 2 ^ (f - ez)) <= 2 ^ (f - ez) /\
    JS.value (binary_round_aux 53 1024 false (Z.pos mz) ez loc_Exact) = Some v /\
    (v == inject_Z m1 * JS.pow2 f)%Q.
Proof.
  intros f Hez Hmax.
  assert (Ef : f = fexp 53 1024 (Z.pos (digits2_pos mz) + ez)) by reflexivity.
  clearbody f.
  assert (Hf : -1074 <= f) by (rewrite Ef, fexp_eq; lia).
  pose proof (digits2_pos_bounds mz) as Hd.
  assert (Hdig : Z.pos (digits2_pos mz) <= f - ez + 53)
    by (rewrite Ef, fexp_eq; lia).
  assert (Hmz : Z.pos mz < 2 ^ (f - ez) * 2 ^ 53).
  { rewrite <- Z.pow_add_r by lia.
    apply Z.lt_le_trans with (2 ^ Z.pos (digits2_pos mz)); [lia |].
    apply Z.pow_le_mono_r; lia. }
  unfold binary_round_aux, shr_fexp at 1. cbn [Zdigits2 shr_record_of_loc]. rewrite <- Ef.
  unfold shr at 1.
  destruct (f - ez) as [| p | p] eqn:En; [| | lia].
  - cbn [shr_m loc_of_shr_record round_nearest_even].
    assert (ez = f) by lia. subst ez.
    change (2 ^ 0) with 1 in *.
    destruct (renormalise (Z.pos mz) f ltac:(lia) Hf Hmax) as (v & Hv & Ev).
    exists (Z.pos mz), v. repeat split; try lia; assumption.
  - rewrite iter_pos_nat.
    pose proof (round_after_shift (Z.pos mz) (Pos.to_nat p) ltac:(lia)) as H.
    cbn zeta in H. rewrite positive_nat_Z in H.
    destruct H as (H0 & H1 & H2).
    set (m1 := round_nearest_even _ _) in *.
    assert (Hp : 0 < 2 ^ Z.pos p) by (apply Z.pow_pos_nonneg; lia).
    assert (Hm1 : m1 <= 2 ^ 53) by nia.
    replace (ez + Z.pos p) with f by lia.
    destruct (renormalise m1 f ltac:(lia) Hf Hmax) as (v & Hv & Ev).
    exists m1, v. repeat split; try lia; assumption.
Qed.

(** [binary_round] of a positive mantissa: the value is rounded to the
    nearest multiple of [2^f], [f] the exponent of its format. *)
Lemma binary_round_near m e :
  let f := fexp 53 1024 (Z.pos (digits2_pos m) + e) in
  f + 1 <= 971 ->
  exists v,
    JS.value (binary_round 53 1024 false m e) = Some v /\
    (0 <= v)%Q /\
    (v <= JS.pow2 (f + 53))%Q /\
    (Qabs (v - inject_Z (Z.pos m) * JS.pow2 e) <= JS.pow2 (f - 1))%Q.
Proof.
  intros f Hmax.
  assert (Ef : f = fexp 53 1024 (Z.pos (digits2_pos m) + e)) by reflexivity.
  clearbody f. unfold binary_round. rewrite <- Ef.
  unfold shl_align.
  destruct (f - e) as [| d | d] eqn:En.
  - (* the mantissa fits as it is *)
    pose proof (binary_round_aux_near m e) as H. cbn zeta in H. rewrite <- Ef in H.
    destruct (H ltac:(lia) Hmax) as (m1 & v & Hm1 & Herr & Hv & Ev).
    replace (f - e) with 0 in Herr by lia. change (2 ^ 0) with 1 in Herr.
    assert (m1 = Z.pos m) by lia. subst m1.
    assert (e = f) by lia. subst e.
    exists v. split; [exact Hv |]. rewrite Ev.
    split; [| split].
    + apply Qmult_le_0_compat; [unfold Qle; simpl; lia | apply Qlt_le_weak, pow2_pos].
    + rewrite pow2_add, Qmult_comm. apply Qmult_le_l; [apply pow2_pos |].
      rewrite pow2_Z by lia. rewrite <- Zle_Qle. lia.
    + setoid_replace (inject_Z (Z.pos m) * JS.pow2 f - inject_Z (Z.pos m) * JS.pow2 f)%Q
        with 0%Q by ring.
      simpl. apply Qlt_le_weak, pow2_pos.
  - (* bits are cut off *)
    pose proof (binary_round_aux_near m e) as H. cbn zeta in H. rewrite <- Ef in H.
    destruct (H ltac:(lia) Hmax) as (m1 & v & Hm1 & Herr & Hv & Ev).
    rewrite En in Herr.
    exists v. split; [exact Hv |]. rewrite Ev.
    assert (Hp : 0 < 2 ^ Z.pos d) by (apply Z.pow_pos_nonneg; lia).
    split; [| split].
    + apply Qmult_le_0_compat; [unfold Qle; simpl; lia | apply Qlt_le_weak, pow2_pos].
    + rewrite pow2_add, Qmult_comm. apply Qmult_le_l; [apply pow2_pos |].
      rewrite pow2_Z by lia. rewrite <- Zle_Qle. lia.
    + replace f with (e + Z.pos d) by lia.
      replace (e + Z.pos d - 1) with (e + (Z.pos d - 1)) by lia.
      rewrite !pow2_add, (pow2_Z (Z.pos d)) by lia.
      setoid_replace (inject_Z m1 * (JS.pow2 e * inject_Z (2 ^ Z.pos d)) -
                      inject_Z (Z.pos m) * JS.pow2 e)%Q
        with ((inject_Z m1 * inject_Z (2 ^ Z.pos d) - inject_Z (Z.pos m)) * JS.pow2 e)%Q
        by ring.
      rewrite Qabs_Qmult, (Qabs_pos (JS.pow2 e)) by (apply Qlt_le_weak, pow2_pos).
      rewrite (Qmult_comm (JS.pow2 e)). apply Qmult_le_compat_r; [| apply Qlt_le_weak, pow2_pos].
      rewrite (pow2_Z (Z.pos d - 1)) by lia.
      assert (E2 : 2 ^ Z.pos d = 2 * 2 ^ (Z.pos d - 1)).
      { rewrite <- Z.pow_succ_r by lia. f_equal. lia. }
      unfold Qminus. rewrite <- !inject_Z_mult, <- inject_Z_opp, <- inject_Z_plus.
      apply Qabs_Qle_condition. rewrite <- inject_Z_opp, <- !Zle_Qle.
      remember (2 ^ (Z.pos d - 1)) as P. rewrite E2 in Herr |- *. nia.
  - (* the mantissa is short and is shifted left: nothing is lost *)
    destruct (Pos_iter_xO m d) as [Hz Hdz].
    pose proof (binary_round_aux_near (Pos.iter xO m d) f) as H. cbn zeta in H.
    assert (Ef' : fexp 53 1024 (Z.pos (digits2_pos (Pos.iter xO m d)) + f) = f).
    { rewrite Hdz, Pos2Z.inj_add.
      transitivity (fexp 53 1024 (Z.pos (digits2_pos m) + e)); [f_equal; lia | now symmetry]. }
    rewrite Ef' in H.
    destruct (H ltac:(lia) Hmax) as (m1 & v & Hm1 & Herr & Hv & Ev).
    replace (f - f) with 0 in Herr by lia. change (2 ^ 0) with 1 in Herr.
    assert (m1 = Z.pos m * 2 ^ Z.pos d) as E1 by lia.
    exists v. split; [exact Hv |]. rewrite Ev.
    split; [| split].
    + apply Qmult_le_0_compat; [unfold Qle; simpl; lia | apply Qlt_le_weak, pow2_pos].
    + rewrite pow2_add, Qmult_comm. apply Qmult_le_l; [apply pow2_pos |].
      rewrite pow2_Z by lia. rewrite <- Zle_Qle. lia.
    + rewrite E1, inject_Z_mult, <- (pow2_Z (Z.pos d)) by lia.
      assert (Ee : e = f + Z.pos d) by lia. rewrite Ee, pow2_add.
      setoid_replace (inject_Z (Z.pos m) * JS.pow2 (Z.pos d) * JS.pow2 f -
                      inject_Z (Z.pos m) * (JS.pow2 f * JS.pow2 (Z.pos d)))%Q
        with 0%Q by ring.
      simpl. apply Qlt_le_weak, pow2_pos.
Qed.

(** Aligning a mantissa to a smaller exponent keeps the value. *)
Lemma shl_align_value mx ex ez : ez <= ex ->
  Z.pos (fst (shl_align mx ex ez)) = Z.pos mx * 2 ^ (ex - ez).
Proof.
  intros H. unfold shl_align.
  destruct (ez - ex) as [| d | d] eqn:E; try lia; cbn [fst].
  - replace (ex - ez) with 0 by lia. change (2 ^ 0) with 1. lia.
  - rewrite (proj1 (Pos_iter_xO mx d)). f_equal. f_equal. lia.
Qed.

Lemma shift_value m e e' : e' <= e ->
  (inject_Z (Z.pos m * 2 ^ (e - e')) * JS.pow2 e' == inject_Z (Z.pos m) * JS.pow2 e)%Q.
Proof.
  intros H. rewrite inject_Z_mult, <- pow2_Z by lia.
  replace e with ((e - e') + e') at 2 by lia. rewrite pow2_add. ring.
Qed.

(** The digits of a mantissa are bounded by the size of the value. *)
Lemma digits_below m e k :
  (inject_Z (Z.pos m) * JS.pow2 e < JS.pow2 k)%Q ->
  Z.pos (digits2_pos m) + e <= k.
Proof.
  intros H. pose proof (digits2_pos_bounds m) as [Hlo _].
  destruct (Z.le_gt_cases (Z.pos (digits2_pos m) + e) k) as [L | G]; [exact L |].
  exfalso. apply (Qlt_not_le _ _ H).
  apply Qle_trans with (JS.pow2 (Z.pos (digits2_pos m) - 1) * JS.pow2 e)%Q.
  - rewrite <- pow2_add. apply pow2_le. lia.
  - apply Qmult_le_compat_r; [| apply Qlt_le_weak, pow2_pos].
    rewrite pow2_Z by lia. rewrite <- Zle_Qle. exact Hlo.
Qed.

Lemma nonneg_value x : nonneg x -> exists v, JS.value x = Some v /\ (0 <= v)%Q.
Proof.
  destruct x as [s | s | | s m e]; simpl; try contradiction.
  - intros _. exists 0%Q. split; [reflexivity | apply Qle_refl].
  - intros ->. eexists; split; [reflexivity |].
    apply Qmult_le_0_compat; [unfold Qle; simpl; lia | apply Qlt_le_weak, pow2_pos].
Qed.

(** What [binary_round] makes of a positive mantissa is not negative. *)
Lemma binary_round_nonneg m e v :
  JS.value (binary_round 53 1024 false m e) = Some v ->
  nonneg (binary_round 53 1024 false m e).
Proof.
  unfold binary_round. destruct (shl_align _ _ _) as [mz ez].
  unfold binary_round_aux.
  destruct (shr_fexp 53 1024 (Z.pos mz) ez loc_Exact) as [mrs' e'].
  destruct (shr_fexp 53 1024 _ e' loc_Exact) as [mrs'' e''].
  destruct (shr_m mrs'') as [| p | p].
  - intros _. exact I.
  - destruct (e'' <=? 1024 - 53); intros H; [reflexivity | discriminate H].
  - intros H. discriminate H.
Qed.

(** [x + y] on Numbers that are not negative, with a sum below [2^k]:
    the result is within [2^(k-54)] of the sum. *)
Lemma add_near x y vx vy k :
  nonneg x -> nonneg y ->
  JS.value x = Some vx -> JS.value y = Some vy ->
  -1021 <= k <= 1023 ->
  (vx + vy < JS.pow2 k)%Q ->
  exists v,
    JS.value (JS.add x y) = Some v /\ nonneg (JS.add x y) /\
    (0 <= v)%Q /\ (v <= JS.pow2 k)%Q /\
    (Qabs (v - (vx + vy)) <= JS.pow2 (k - 54))%Q.
Proof.
  intros Hx Hy Vx Vy Hk Hlt.
  assert (Hsmall : forall q : Q, (0 <= q)%Q -> (q < JS.pow2 k)%Q ->
            (q <= JS.pow2 k)%Q /\ (Qabs (q - q) <= JS.pow2 (k - 54))%Q).
  { intros q _ H. split; [now apply Qlt_le_weak |].
    setoid_replace (q - q)%Q with 0%Q by ring. simpl. apply Qlt_le_weak, pow2_pos. }
  destruct x as [sx | sx | | sx mx ex], y as [sy | sy | | sy my ey];
    simpl in Hx, Hy; try contradiction; subst.
  - (* 0 + 0 *)
    inversion Vx; inversion Vy; subst.
    exists 0%Q. unfold JS.add, SFadd.
    assert (Hz : (0 + 0 < JS.pow2 k)%Q) by exact Hlt.
    destruct sx, sy; cbn [JS.value nonneg]; (split; [reflexivity |]); (split; [exact I |]);
      (split; [apply Qle_refl |]); (split; [apply Qlt_le_weak, pow2_pos |]);
      simpl; apply Qlt_le_weak, pow2_pos.
  - (* 0 + y *)
    inversion Vx; subst. exists vy. unfold JS.add, SFadd.
    destruct (nonneg_value (S754_finite false my ey) eq_refl) as (v' & Hv' & Hp).
    rewrite Vy in Hv'. inversion Hv'; subst v'.
    split; [exact Vy |]. split; [reflexivity |]. split; [exact Hp |].
    rewrite Qplus_0_l in Hlt. destruct (Hsmall vy Hp Hlt) as [H1 H2]. split; [exact H1 |].
    setoid_replace (vy - (0 + vy))%Q with (vy - vy)%Q by ring. exact H2.
  - (* x + 0 *)
    inversion Vy; subst. exists vx. unfold JS.add, SFadd.
    destruct (nonneg_value (S754_finite false mx ex) eq_refl) as (v' & Hv' & Hp).
    rewrite Vx in Hv'. inversion Hv'; subst v'.
    split; [exact Vx |]. split; [reflexivity |]. split; [exact Hp |].
    rewrite Qplus_0_r in Hlt. destruct (Hsmall vx Hp Hlt) as [H1 H2]. split; [exact H1 |].
    setoid_replace (vx - (vx + 0))%Q with (vx - vx)%Q by ring. exact H2.
  - (* two positive Numbers *)
    inversion Vx; inversion Vy; subst. clear Vx Vy.
    unfold JS.add, SFadd. cbn [cond_Zopp].
    set (ez := Z.min ex ey).
    rewrite (shl_align_value mx ex ez), (shl_align_value my ey ez) by (unfold ez; lia).
    assert (Hsum : exists M, Z.pos mx * 2 ^ (ex - ez) + Z.pos my * 2 ^ (ey - ez) = Z.pos M).
    { assert (0 < 2 ^ (ex - ez)) by (apply Z.pow_pos_nonneg; unfold ez; lia).
      assert (0 < 2 ^ (ey - ez)) by (apply Z.pow_pos_nonneg; unfold ez; lia).
      destruct (Z.pos mx * 2 ^ (ex - ez) + Z.pos my * 2 ^ (ey - ez)) as [| M | M] eqn:E;
        try nia. now exists M. }
    destruct Hsum as (M & EM). rewrite EM. cbn [binary_normalize].
    assert (Eval : (inject_Z (Z.pos M) * JS.pow2 ez ==
                    inject_Z (Z.pos mx) * JS.pow2 ex + inject_Z (Z.pos my) * JS.pow2 ey)%Q).
    { rewrite <- EM, inject_Z_plus, Qmult_plus_distr_l.
      rewrite !shift_value by (unfold ez; lia). reflexivity. }
    rewrite <- Eval in Hlt.
    pose proof (digits_below _ _ _ Hlt) as Hd.
    pose proof (binary_round_near M ez) as H. cbn zeta in H.
    rewrite fexp_eq in H.
    destruct (H ltac:(lia)) as (v & Hv & Hv0 & Hvk & Herr).
    exists v. split; [exact Hv |]. split; [exact (binary_round_nonneg _ _ _ Hv) |].
    split; [exact Hv0 |]. split.
    + eapply Qle_trans; [exact Hvk |]. apply pow2_le. lia.
    + rewrite <- Eval. eapply Qle_trans; [exact Herr |]. apply pow2_le. lia.
Qed.

Lemma pow10_Z n : 0 <= n -> (JS.pow10 n == inject_Z (10 ^ n))%Q.
Proof. intros H. destruct n as [| p | p]; try lia; reflexivity. Qed.

Lemma pow10_neg p : (JS.pow10 (Z.neg p) == / inject_Z (10 ^ Z.pos p))%Q.
Proof.
  unfold JS.pow10. rewrite <- Pos2Z.inj_pow. reflexivity.
Qed.

Lemma Z_to_pos_id z : 0 < z -> Z.pos (Z.to_pos z) = z.
Proof. intros H. now apply Z2Pos.id. Qed.

(** [of_decimal] on an integer. *)
Lemma of_decimal_integer_near M k :
  0 < M -> 0 <= k <= 1023 ->
  (inject_Z M < JS.pow2 k)%Q ->
  exists v,
    JS.value (binary_round 53 1024 false (Z.to_pos M) 0) = Some v /\
    nonneg (binary_round 53 1024 false (Z.to_pos M) 0) /\
    (0 <= v)%Q /\
    (Qabs (v - inject_Z M) <= JS.pow2 (k - 54))%Q.
Proof.
  intros HM Hk Hlt.
  assert (Hlt' : (inject_Z (Z.pos (Z.to_pos M)) * JS.pow2 0 < JS.pow2 k)%Q).
  { rewrite Z_to_pos_id by lia. change (JS.pow2 0) with 1%Q. now rewrite Qmult_1_r. }
  pose proof (digits_below _ _ _ Hlt') as Hd.
  pose proof (binary_round_near (Z.to_pos M) 0) as H. cbn zeta in H.
  rewrite fexp_eq in H.
  destruct (H ltac:(lia)) as (v & Hv & Hv0 & Hvk & Herr).
  exists v. split; [exact Hv |]. split; [exact (binary_round_nonneg _ _ _ Hv) |].
  split; [exact Hv0 |].
  rewrite Z_to_pos_id in Herr by lia. change (JS.pow2 0) with 1%Q in Herr.
  rewrite Qmult_1_r in Herr.
  eapply Qle_trans; [exact Herr |]. apply pow2_le. lia.
Qed.

(** [of_decimal] on a quotient: the quotient is cut after at least 64
    bits, with a sticky bit, and rounded once. *)
Lemma of_decimal_fraction_near c D k :
  0 < c -> 0 < D -> 0 <= k <= 1023 ->
  (inject_Z c / inject_Z D < JS.pow2 k)%Q ->
  let s := Z.max 0 (Z.log2 D + 64 - Z.log2 c) in
  let m := 2 * fst (Z.div_eucl (c * 2 ^ s) D) +
           (if snd (Z.div_eucl (c * 2 ^ s) D) =? 0 then 0 else 1) in
  exists v,
    JS.value (binary_round 53 1024 false (Z.to_pos m) (- s - 1)) = Some v /\
    nonneg (binary_round 53 1024 false (Z.to_pos m) (- s - 1)) /\
    (0 <= v)%Q /\
    (Qabs (v - inject_Z c / inject_Z D) <= JS.pow2 (k - 54) + JS.pow2 (k - 65))%Q.
Proof.
  intros Hc HD Hk Hlt s m.
  assert (Hs : 0 <= s) by (unfold s; lia).
  pose proof (Z_div_mod (c * 2 ^ s) D ltac:(lia)) as Hdiv.
  unfold m. clear m.
  destruct (Z.div_eucl (c * 2 ^ s) D) as [q r]. cbn [fst snd].
  destruct Hdiv as [Eq Hr].
  set (t := if r =? 0 then 0 else 1).
  assert (Ht : (t = 0 /\ r = 0) \/ (t = 1 /\ 0 < r)).
  { unfold t. destruct (Z.eqb_spec r 0); [left | right]; lia. }
  clearbody t.
  (* the quotient has at least 64 bits *)
  assert (Hq : 2 ^ 63 <= q).
  { pose proof (Z.log2_spec c Hc) as [Hc1 _].
    pose proof (Z.log2_spec D HD) as [_ HD2].
    pose proof (Z.log2_nonneg c) as Ha. pose proof (Z.log2_nonneg D) as Hb.
    rewrite Z.pow_succ_r in HD2 by lia.
    assert (Hle : 2 ^ (Z.log2 D + 64) <= 2 ^ (Z.log2 c + s))
      by (apply Z.pow_le_mono_r; unfold s; lia).
    rewrite !Z.pow_add_r in Hle by lia.
    assert (0 < 2 ^ Z.log2 c) by (apply Z.pow_pos_nonneg; lia).
    assert (0 < 2 ^ Z.log2 D) by (apply Z.pow_pos_nonneg; lia).
    assert (0 < 2 ^ s) by (apply Z.pow_pos_nonneg; lia).
    remember (2 ^ Z.log2 c) as A. remember (2 ^ Z.log2 D) as B. remember (2 ^ s) as S.
    change (2 ^ 64) with 18446744073709551616 in Hle.
    change (2 ^ 63) with 9223372036854775808.
    assert (D * 9223372036854775808 < D * q + D) by nia.
    nia. }
  (* it is below 2^(k+s) *)
  assert (HcD : c < 2 ^ k * D).
  { apply (Qmult_lt_r _ _ (inject_Z D)) in Hlt; [| rewrite <- (Zlt_Qlt 0); lia].
    rewrite pow2_Z in Hlt by lia.
    setoid_replace (inject_Z c / inject_Z D * inject_Z D)%Q with (inject_Z c) in Hlt
      by (field; intros E; apply (inject_Z_injective D 0) in E; lia).
    rewrite <- inject_Z_mult, <- Zlt_Qlt in Hlt. exact Hlt. }
  assert (Hm : 2 ^ 64 <= 2 * q + t < 2 ^ (k + s + 1)).
  { rewrite !Z.pow_add_r by lia. change (2 ^ 1) with 2.
    assert (0 < 2 ^ s) by (apply Z.pow_pos_nonneg; lia).
    assert (0 < 2 ^ k) by (apply Z.pow_pos_nonneg; lia).
    remember (2 ^ s) as S. remember (2 ^ k) as K.
    change (2 ^ 64) with 18446744073709551616.
    change (2 ^ 63) with 9223372036854775808 in Hq.
    assert (q < K * S) by nia.
    lia. }
  assert (Hexp : - s - 1 <= k - 65).
  { assert (64 < k + s + 1); [| lia].
    apply (Z.pow_lt_mono_r_iff 2); lia. }
  assert (Hz : - D <= (2 * q + t) * D - c * (2 * 2 ^ s) <= D) by nia.
  remember (2 * q + t) as m eqn:Em.
  assert (Hm0 : 0 < m) by (change (2 ^ 64) with 18446744073709551616 in Hm; lia).
  (* in Q *)
  set (u := JS.pow2 (- s - 1)).
  assert (Hu : (0 < u)%Q) by apply pow2_pos.
  assert (W : (inject_Z (2 * 2 ^ s) * u == 1)%Q).
  { unfold u. rewrite <- Z.pow_succ_r by lia. rewrite <- pow2_Z by lia.
    rewrite <- pow2_add. replace (Z.succ s + (- s - 1)) with 0 by lia. reflexivity. }
  assert (HDq : (0 < inject_Z D)%Q) by (rewrite <- (Zlt_Qlt 0); lia).
  assert (HDn : ~ (inject_Z D == 0)%Q).
  { intros E. rewrite E in HDq. discriminate. }
  assert (Hy : (inject_Z (Z.pos (Z.to_pos m)) * u < JS.pow2 k)%Q).
  { rewrite Z_to_pos_id by lia.
    apply Qlt_le_trans with (inject_Z (2 ^ (k + s + 1)) * u)%Q.
    - apply Qmult_lt_compat_r; [exact Hu |]. rewrite <- Zlt_Qlt. lia.
    - rewrite <- pow2_Z by lia. unfold u. rewrite <- pow2_add.
      apply pow2_le. lia. }
  pose proof (digits_below _ _ _ Hy) as Hd.
  pose proof (binary_round_near (Z.to_pos m) (- s - 1)) as H. cbn zeta in H.
  rewrite fexp_eq in H.
  destruct (H ltac:(lia)) as (v & Hv & Hv0 & Hvk & Herr).
  exists v. split; [exact Hv |]. split; [exact (binary_round_nonneg _ _ _ Hv) |].
  split; [exact Hv0 |].
  rewrite Z_to_pos_id in Herr by lia. fold u in Herr.
  setoid_replace (v - inject_Z c / inject_Z D)%Q
    with ((v - inject_Z m * u) + (inject_Z m * u - inject_Z c / inject_Z D))%Q by ring.
  eapply Qle_trans; [apply Qabs_triangle |].
  apply Qplus_le_compat.
  - eapply Qle_trans; [exact Herr |]. apply pow2_le. lia.
  - apply Qle_trans with u; [| apply pow2_le; exact Hexp].
    setoid_replace (inject_Z m * u - inject_Z c / inject_Z D)%Q
      with (inject_Z (m * D - c * (2 * 2 ^ s)) * (u / inject_Z D))%Q.
    + rewrite Qabs_Qmult.
      assert (Hpos : (0 <= u / inject_Z D)%Q).
      { apply Qle_shift_div_l; [exact HDq |]. rewrite Qmult_0_l. now apply Qlt_le_weak. }
      rewrite (Qabs_pos (u / inject_Z D)) by exact Hpos.
      apply Qle_trans with (inject_Z D * (u / inject_Z D))%Q.
      * apply Qmult_le_compat_r; [| exact Hpos].
        apply Qabs_Qle_condition. rewrite <- inject_Z_opp, <- !Zle_Qle. lia.
      * setoid_replace (inject_Z D * (u / inject_Z D))%Q with u by (field; exact HDn).
        apply Qle_refl.
    + setoid_replace (inject_Z c / inject_Z D)%Q
        with (inject_Z c / inject_Z D * (inject_Z (2 * 2 ^ s) * u))%Q
        by (rewrite W; ring).
      unfold Zminus. rewrite inject_Z_plus, inject_Z_opp, !inject_Z_mult.
      field. exact HDn.
Qed.

(** [JS.of_decimal] is within [read_error k] of a decimal below [2^k]. *)
Lemma of_decimal_near c j k :
  0 <= c -> 0 <= k <= 1023 ->
  (inject_Z c * JS.pow10 j < JS.pow2 k)%Q ->
  exists v,
    JS.value (JS.of_decimal false c j) = Some v /\
    nonneg (JS.of_decimal false c j) /\
    (0 <= v)%Q /\
    (Qabs (v - inject_Z c * JS.pow10 j) <= JS.pow2 (k - 54) + JS.pow2 (k - 65))%Q.
Proof.
  intros Hc Hk Hlt.
  assert (Hweak : forall a b c' : Q, (a <= b)%Q -> (0 < c')%Q -> (a <= b + c')%Q).
  { intros a b c' H1 H2. lra. }
  destruct c as [| p | p]; [| | lia].
  - exists 0%Q. cbn [JS.of_decimal JS.value nonneg].
    split; [reflexivity |]. split; [exact I |]. split; [apply Qle_refl |].
    setoid_replace (0 - inject_Z 0 * JS.pow10 j)%Q with 0%Q by ring.
    simpl Qabs. apply Qlt_le_weak.
    pose proof (pow2_pos (k - 54)). pose proof (pow2_pos (k - 65)). lra.
  - destruct j as [| n | n].
    + cbn [JS.of_decimal]. unfold JS.prec, JS.emax.
      change (JS.pow10 0) with 1%Q in Hlt. rewrite Qmult_1_r in Hlt.
      change (10 ^ 0) with 1. rewrite Z.mul_1_r.
      destruct (of_decimal_integer_near (Z.pos p) k ltac:(lia) Hk Hlt)
        as (v & Hv & Hn & Hv0 & Herr).
      exists v. repeat split; auto.
      change (JS.pow10 0) with 1%Q. rewrite Qmult_1_r.
      apply Hweak; [exact Herr | apply pow2_pos].
    + cbn [JS.of_decimal]. unfold JS.prec, JS.emax.
      rewrite pow10_Z in Hlt by lia. rewrite <- inject_Z_mult in Hlt.
      assert (0 < 10 ^ Z.pos n) by (apply Z.pow_pos_nonneg; lia).
      destruct (of_decimal_integer_near (Z.pos p * 10 ^ Z.pos n) k ltac:(lia) Hk Hlt)
        as (v & Hv & Hn & Hv0 & Herr).
      exists v. repeat split; auto.
      rewrite pow10_Z by lia. rewrite <- inject_Z_mult.
      apply Hweak; [exact Herr | apply pow2_pos].
    + cbn [JS.of_decimal]. unfold JS.prec, JS.emax.
      change (Z.pow_pos 10 n) with (10 ^ Z.pos n).
      assert (HD : 0 < 10 ^ Z.pos n) by (apply Z.pow_pos_nonneg; lia).
      rewrite pow10_neg in Hlt.
      pose proof (of_decimal_fraction_near (Z.pos p) (10 ^ Z.pos n) k
                    ltac:(lia) HD Hk Hlt) as H.
      cbn zeta in H.
      destruct (Z.div_eucl _ _) as [q r]. cbn [fst snd] in H.
      destruct H as (v & Hv & Hn & Hv0 & Herr).
      exists v. repeat split; auto.
      rewrite pow10_neg. exact Herr.
Qed.

Lemma pow10_Qpower e : (JS.pow10 e == 10 ^ e)%Q.
Proof.
  destruct e as [| p | p].
  - reflexivity.
  - unfold JS.pow10. change (Z.pow_pos 10 p) with (10 ^ Z.pos p).
    rewrite Zpower_Qpower by lia. reflexivity.
  - unfold JS.pow10. rewrite (Qpower_decomp_neg_pos p 10 1).
    rewrite Z.pow_1_l by lia. reflexivity.
Qed.

Lemma pow10_add a b : (JS.pow10 (a + b) == JS.pow10 a * JS.pow10 b)%Q.
Proof. rewrite !pow10_Qpower. apply Qpower_plus. discriminate. Qed.

(** What [cents_of] reads: a decimal [c * 10^j] that is [t]
    hundredths. *)
Lemma cents_of_spec l t :
  cents_of l = Some t ->
  exists c j,
    l = JS.Decimal false c j /\ 0 <= c /\ 0 <= t /\
    (inject_Z c * JS.pow10 j == inject_Z t / inject_Z 100)%Q.
Proof.
  unfold cents_of. destruct l as [| neg | neg c j]; try discriminate.
  destruct neg; [discriminate |].
  destruct (Z.ltb_spec c 0) as [Hc | Hc]; [discriminate |].
  destruct (Z.leb_spec 0 (j + 2)) as [Hj | Hj].
  - intros H. inversion H; subst t. exists c, j.
    repeat split; auto.
    + apply Z.mul_nonneg_nonneg; [lia | apply Z.pow_nonneg; lia].
    + rewrite inject_Z_mult, <- pow10_Z by lia.
      rewrite pow10_add. change (JS.pow10 2) with (inject_Z 100). field.
  - destruct (Z.eqb_spec (c mod 10 ^ (- (j + 2))) 0) as [Hm | Hm]; [| discriminate].
    intros H. inversion H; subst t. exists c, j.
    assert (Hp : 0 < 10 ^ (- (j + 2))) by (apply Z.pow_pos_nonneg; lia).
    repeat split; auto.
    + apply Z.div_pos; lia.
    + pose proof (Z.div_mod c (10 ^ (- (j + 2))) ltac:(lia)) as E.
      rewrite Hm, Z.add_0_r in E.
      rewrite E at 1. rewrite inject_Z_mult, <- pow10_Z by lia.
      setoid_replace (JS.pow10 (- (j + 2)) * inject_Z (c / 10 ^ (- (j + 2))) * JS.pow10 j)%Q
        with (inject_Z (c / 10 ^ (- (j + 2))) * (JS.pow10 (- (j + 2)) * JS.pow10 j))%Q by ring.
      rewrite <- pow10_add. replace (- (j + 2) + j) with (-2) by lia.
      change (JS.pow10 (-2)) with (1 # 100)%Q. field.
Qed.

Lemma Number_eqb_eq x y : JS.Number_eqb x y = true -> x = y.
Proof.
  destruct x as [s | s | | s m e], y as [s' | s' | | s' m' e']; simpl; try discriminate.
  - intros H. apply Bool.eqb_prop in H. now subst.
  - intros H. apply Bool.eqb_prop in H. now subst.
  - reflexivity.
  - intros H. apply andb_true_iff in H as [H He]. apply andb_true_iff in H as [Hs Hm].
    apply Bool.eqb_prop in Hs. apply Pos.eqb_eq in Hm. apply Z.eqb_eq in He. now subst.
Qed.

(** The String that [parseFloat] reads. *)
Lemma parseFloat_scan v t :
  cents v = Some t ->
  exists s, parseFloat v = JS.number_of (JS.scan s) /\ cents_of (JS.scan s) = Some t /\
    (decimal_value v = JS.literal_value (JS.scan s) \/
     decimal_value v = JS.value (JS.number_of (JS.scan s))).
Proof.
  destruct v as [x | s]; cbn [cents].
  - destruct (JS.Number_eqb (JS.parseFloat_number x) x) eqn:E; [| discriminate].
    intros H. exists (JS.toString x). split; [reflexivity |]. split; [exact H |].
    right. apply Number_eqb_eq in E. cbn [decimal_value].
    unfold JS.parseFloat_number, JS.parseFloat_string in E. now rewrite E.
  - intros H. exists s. split; [reflexivity |]. split; [exact H |]. left. reflexivity.
Qed.

Lemma cents_nonneg v t : cents v = Some t -> 0 <= t.
Proof.
  intros H. destruct (parseFloat_scan v t H) as (s & _ & Hs & _).
  destruct (cents_of_spec _ _ Hs) as (c & j & _ & _ & Ht & _). exact Ht.
Qed.

(** [parseFloat] reads a price of [t] cents, below [2^k], to within
    [2^(k-54) + 2^(k-65)], and the amount the price denotes is as near. *)
Lemma parseFloat_near v t k :
  cents v = Some t ->
  0 <= k <= 1023 -> (inject_Z t / inject_Z 100 < JS.pow2 k)%Q ->
  exists vx d,
    JS.value (parseFloat v) = Some vx /\ nonneg (parseFloat v) /\
    (Qabs (vx - inject_Z t / inject_Z 100) <= JS.pow2 (k - 54) + JS.pow2 (k - 65))%Q /\
    decimal_value v = Some d /\
    (Qabs (d - inject_Z t / inject_Z 100) <= JS.pow2 (k - 54) + JS.pow2 (k - 65))%Q.
Proof.
  intros H Hk Hlt. destruct (parseFloat_scan v t H) as (s & Ep & Hs & Hd).
  destruct (cents_of_spec _ _ Hs) as (c & j & Es & Hc & Ht & E).
  rewrite Ep. rewrite Es in *. cbn [JS.number_of JS.literal_value] in *.
  rewrite <- E in Hlt.
  destruct (of_decimal_near c j k Hc Hk Hlt) as (vx & Hvx & Hn & Hv0 & Herr).
  rewrite E in Herr.
  destruct Hd as [Hd | Hd].
  - exists vx, (inject_Z c * JS.pow10 j)%Q. repeat split; auto.
    setoid_replace (inject_Z c * JS.pow10 j - inject_Z t / inject_Z 100)%Q with 0%Q
      by (rewrite E; ring).
    simpl Qabs. pose proof (pow2_pos (k - 54)). pose proof (pow2_pos (k - 65)). lra.
  - exists vx, vx. rewrite Hd. repeat split; auto.
Qed.

Section SumNear.
Variable k : Z.
Hypothesis Hk : 0 <= k <= 1023.

Lemma step_error_split : (step_error k == read_error k + JS.pow2 (k - 54))%Q.
Proof.
  unfold step_error, read_error. replace (k - 53) with (1 + (k - 54)) by lia.
  rewrite pow2_add. change (JS.pow2 1) with (inject_Z 2). ring.
Qed.

Lemma read_error_pos : (0 < read_error k)%Q.
Proof.
  unfold read_error. pose proof (pow2_pos (k - 54)). pose proof (pow2_pos (k - 65)). lra.
Qed.

Lemma cents_sum_nonneg items : forall T, cents_sum items = Some T -> 0 <= T.
Proof.
  induction items as [| item rest IH]; intros T H.
  - inversion H. lia.
  - cbn [cents_sum] in H.
    destruct (cents (price item)) as [t |] eqn:Et; [| discriminate].
    destruct (cents_sum rest) as [Tr |]; [| discriminate].
    inversion H; subst. pose proof (cents_nonneg _ _ Et). pose proof (IH Tr eq_refl). lia.
Qed.

(** The exact sum of the amounts is as near to the sum of the cents. *)
Lemma exact_sum_near items : forall T,
  cents_sum items = Some T ->
  (inject_Z T / inject_Z 100 < JS.pow2 k)%Q ->
  exists q,
    exact_sum items = Some q /\
    (Qabs (q - inject_Z T / inject_Z 100)
     <= inject_Z (Z.of_nat (List.length items)) * read_error k)%Q.
Proof.
  pose proof read_error_pos as He.
  induction items as [| item rest IH]; intros T H Hlt.
  - inversion H; subst. exists 0%Q. split; [reflexivity |].
    cbn [List.length Z.of_nat]. simpl. discriminate.
  - cbn [cents_sum] in H.
    destruct (cents (price item)) as [t |] eqn:Et; [| discriminate].
    destruct (cents_sum rest) as [Tr |] eqn:Er; [| discriminate].
    inversion H; subst T. clear H.
    pose proof (cents_nonneg _ _ Et) as Ht. pose proof (cents_sum_nonneg _ _ Er) as HTr.
    assert (Hsplit : (inject_Z (t + Tr) / inject_Z 100 ==
                      inject_Z t / inject_Z 100 + inject_Z Tr / inject_Z 100)%Q)
      by (rewrite inject_Z_plus; field).
    assert (Ht' : (0 <= inject_Z t / inject_Z 100)%Q).
    { apply Qle_shift_div_l; [reflexivity |]. rewrite Qmult_0_l. rewrite <- (Zle_Qle 0). lia. }
    assert (HTr' : (0 <= inject_Z Tr / inject_Z 100)%Q).
    { apply Qle_shift_div_l; [reflexivity |]. rewrite Qmult_0_l. rewrite <- (Zle_Qle 0). lia. }
    rewrite Hsplit in Hlt.
    destruct (parseFloat_near _ t k Et Hk ltac:(lra)) as (vx & d & _ & _ & _ & Hd & Hde).
    destruct (IH Tr eq_refl ltac:(lra)) as (qr & Hqr & Hqe).
    exists (d + qr)%Q. cbn [exact_sum]. rewrite Hd, Hqr. split; [reflexivity |].
    rewrite Hsplit.
    cbn [List.length]. rewrite Nat2Z.inj_succ. unfold Z.succ. rewrite inject_Z_plus.
    change (inject_Z 1) with 1%Q.
    fold (read_error k) in Hde.
    remember (inject_Z (Z.of_nat (List.length rest)) * read_error k)%Q as B eqn:EB.
    setoid_replace ((inject_Z (Z.of_nat (List.length rest)) + 1) * read_error k)%Q
      with (B + read_error k)%Q by (rewrite EB; ring).
    apply Qabs_Qle_condition in Hde, Hqe. apply Qabs_Qle_condition. lra.
Qed.

Lemma sum_near items : forall acc va Ta T i,
  cents_sum items = Some T ->
  nonneg acc -> JS.value acc = Some va ->
  0 <= Ta -> 0 <= i ->
  (Qabs (va - inject_Z Ta / inject_Z 100) <= inject_Z i * step_error k)%Q ->
  (inject_Z (Ta + T) / inject_Z 100
   + inject_Z (i + Z.of_nat (List.length items)) * step_error k < JS.pow2 k)%Q ->
  exists vs,
    JS.value (fold_left (fun sum item => JS.add sum (parseFloat (price item))) items acc)
    = Some vs /\
    (0 <= vs)%Q /\
    (Qabs (vs - inject_Z (Ta + T) / inject_Z 100)
     <= inject_Z (i + Z.of_nat (List.length items)) * step_error k)%Q.
Proof.
  pose proof read_error_pos as He. pose proof step_error_split as Es.
  pose proof (pow2_pos (k - 54)) as H54.
  induction items as [| item rest IH]; intros acc va Ta T i Hc Hn Hv HTa Hi Hva Hb.
  - inversion Hc; subst T. exists va. split; [exact Hv |].
    split.
    { destruct (nonneg_value acc Hn) as (v' & Hv' & Hp). rewrite Hv in Hv'.
      inversion Hv'; subst. exact Hp. }
    cbn [List.length Z.of_nat]. rewrite !Z.add_0_r. exact Hva.
  - cbn [cents_sum] in Hc.
    destruct (cents (price item)) as [t |] eqn:Et; [| discriminate].
    destruct (cents_sum rest) as [Tr |] eqn:Er; [| discriminate].
    inversion Hc; subst T. clear Hc.
    pose proof (cents_nonneg _ _ Et) as Ht. pose proof (cents_sum_nonneg _ _ Er) as HTr.
    cbn [List.length] in Hb |- *. rewrite Nat2Z.inj_succ in Hb |- *.
    replace (i + Z.succ (Z.of_nat (List.length rest)))
      with ((i + 1) + Z.of_nat (List.length rest)) in Hb |- * by lia.
    replace (Ta + (t + Tr)) with ((Ta + t) + Tr) in Hb |- * by lia.
    assert (Hlen : 0 <= Z.of_nat (List.length rest)) by lia.
    remember (Z.of_nat (List.length rest)) as n eqn:Hnn. clear Hnn.
    assert (Hi' : (0 <= inject_Z i)%Q) by (rewrite <- (Zle_Qle 0); lia).
    assert (Hn' : (0 <= inject_Z n)%Q) by (rewrite <- (Zle_Qle 0); lia).
    assert (Hie : (0 <= inject_Z i * step_error k)%Q)
      by (apply Qmult_le_0_compat; [exact Hi' | lra]).
    assert (Hne : (0 <= inject_Z n * step_error k)%Q)
      by (apply Qmult_le_0_compat; [exact Hn' | lra]).
    assert (Hb' : (inject_Z Ta / inject_Z 100 + inject_Z t / inject_Z 100
                   + inject_Z Tr / inject_Z 100
                   + (inject_Z i * step_error k + step_error k + inject_Z n * step_error k)
                   < JS.pow2 k)%Q).
    { eapply Qle_lt_trans; [| exact Hb]. apply Qle_lteq. right.
      rewrite !inject_Z_plus. change (inject_Z 1) with 1%Q. field. }
    assert (HTa' : (0 <= inject_Z Ta / inject_Z 100)%Q).
    { apply Qle_shift_div_l; [reflexivity |]. rewrite Qmult_0_l. rewrite <- (Zle_Qle 0). lia. }
    assert (Ht' : (0 <= inject_Z t / inject_Z 100)%Q).
    { apply Qle_shift_div_l; [reflexivity |]. rewrite Qmult_0_l. rewrite <- (Zle_Qle 0). lia. }
    assert (HTr' : (0 <= inject_Z Tr / inject_Z 100)%Q).
    { apply Qle_shift_div_l; [reflexivity |]. rewrite Qmult_0_l. rewrite <- (Zle_Qle 0). lia. }
    remember (inject_Z i * step_error k)%Q as Bi eqn:HEi.
    remember (inject_Z n * step_error k)%Q as Bn eqn:HEn.
    remember (inject_Z Ta / inject_Z 100)%Q as A eqn:HA.
    remember (inject_Z t / inject_Z 100)%Q as P eqn:HP.
    remember (inject_Z Tr / inject_Z 100)%Q as R eqn:HR.
    apply Qabs_Qle_condition in Hva.
    (* the price is read *)
    assert (Hdk : (P < JS.pow2 k)%Q) by lra.
    rewrite HP in Hdk.
    destruct (parseFloat_near _ t k Et Hk Hdk) as (vx & d & Hvx & Hnx & Hex & _).
    fold (read_error k) in Hex. rewrite <- HP in Hex.
    apply Qabs_Qle_condition in Hex.
    (* and added *)
    assert (Hsum : (va + vx < JS.pow2 k)%Q) by lra.
    destruct (add_near acc (parseFloat (price item)) va vx k Hn Hnx Hv Hvx ltac:(lia) Hsum)
      as (v1 & Hv1 & Hn1 & Hv10 & _ & Hea).
    apply Qabs_Qle_condition in Hea.
    cbn [fold_left].
    assert (EAP : (inject_Z (Ta + t) / inject_Z 100 == A + P)%Q)
      by (rewrite HA, HP, inject_Z_plus; field).
    assert (EAPR : (inject_Z (Ta + t + Tr) / inject_Z 100 == A + P + R)%Q)
      by (rewrite HA, HP, HR, !inject_Z_plus; field).
    destruct (IH (JS.add acc (parseFloat (price item))) v1 (Ta + t) Tr (i + 1)
                 eq_refl Hn1 Hv1) as (vs & Hvs & Hvs0 & Hes).
    + lia.
    + lia.
    + rewrite (inject_Z_plus i 1). change (inject_Z 1) with 1%Q.
      apply Qabs_Qle_condition.
      setoid_replace ((inject_Z i + 1) * step_error k)%Q
        with (Bi + step_error k)%Q by (rewrite HEi; ring).
      rewrite EAP. lra.
    + rewrite (inject_Z_plus (i + 1) n), (inject_Z_plus i 1). change (inject_Z 1) with 1%Q.
      setoid_replace ((inject_Z i + 1 + inject_Z n) * step_error k)%Q
        with (Bi + step_error k + Bn)%Q by (rewrite HEi, HEn; ring).
      rewrite EAPR. lra.
    + exists vs. split; [exact Hvs |]. split; [exact Hvs0 |]. exact Hes.
Qed.

End SumNear.

Lemma Qfloor_between x T :
  (inject_Z T <= x)%Q -> (x < inject_Z (T + 1))%Q -> Qfloor x = T.
Proof.
  intros Hlo Hhi.
  pose proof (Qfloor_resp_le _ _ Hlo) as H1. rewrite Qfloor_Z in H1.
  pose proof (Qfloor_le x) as H2.
  assert (H3 : (inject_Z (Qfloor x) < inject_Z (T + 1))%Q)
    by (eapply Qle_lt_trans; eassumption).
  rewrite <- Zlt_Qlt in H3. lia.
Qed.

(** An amount within half a cent of a whole number of cents rounds to
    it. *)
Lemma round2_near v T :
  (Qabs (v - inject_Z T / inject_Z 100) < 1 # 200)%Q -> round2 v = T.
Proof.
  intros H. unfold round2.
  assert (E : (inject_Z T / inject_Z 100 * 100 == inject_Z T)%Q) by field.
  change (inject_Z 100) with 100%Q in *.
  remember (inject_Z T / 100)%Q as X eqn:EX. clear EX.
  assert (H' : (- (1 # 200) <= v - X <= 1 # 200)%Q)
    by (apply Qabs_Qle_condition; now apply Qlt_le_weak).
  apply Qfloor_between.
  - lra.
  - rewrite inject_Z_plus. change (inject_Z 1) with 1%Q.
    destruct (Qlt_le_dec (v - X) 0) as [Hn | Hp].
    + lra.
    + rewrite Qabs_pos in H by exact Hp. lra.
Qed.

(** The sum of the cents does not depend on the order. *)
Lemma cents_sum_perm items items' T :
  Permutation items items' -> cents_sum items = Some T -> cents_sum items' = Some T.
Proof.
  intros P; revert T; induction P as [| x l l' P IH | x y l | l l' l'' P1 IH1 P2 IH2];
    intros T; cbn [cents_sum].
  - auto.
  - destruct (cents (price x)) as [t |]; [| discriminate].
    destruct (cents_sum l) as [Tl |]; [| discriminate].
    intros H. rewrite (IH _ eq_refl). exact H.
  - destruct (cents (price x)) as [tx |], (cents (price y)) as [ty |],
             (cents_sum l) as [Tl |]; try discriminate.
    intros H; inversion H; subst. f_equal. lia.
  - intros H. apply IH2, IH1, H.
Qed.

(** The binary64 sum of prices in cents stays within half a cent of the
    sum of the cents as long as the number of items times the size of
    the sum stays below [2^45]. *)
Lemma totalPrice_in_cents items T k :
  cents_sum items = Some T ->
  0 <= k -> T < 100 * 2 ^ k ->
  Z.of_nat (List.length items) * 2 ^ k <= 2 ^ 45 ->
  totalPrice items = JS.fixed2_digits T /\
  spec_totalPrice items = Some (JS.fixed2_digits T).
Proof.
  intros Hc Hk HT Hn.
  destruct items as [| item rest].
  { inversion Hc; subst. split; reflexivity. }
  remember (item :: rest) as items eqn:Ei.
  assert (Hlen : 1 <= Z.of_nat (List.length items)) by (subst items; cbn [List.length]; lia).
  clear Ei item rest.
  assert (Hp : 0 < 2 ^ k) by (apply Z.pow_pos_nonneg; lia).
  assert (Hk45 : k <= 45).
  { apply (Z.pow_le_mono_r_iff 2); [lia | lia | nia]. }
  pose proof (cents_sum_nonneg _ _ Hc) as HT0.
  (* what the items may add up to in error *)
  assert (Herr : (inject_Z (Z.of_nat (List.length items)) * step_error k
                  <= JS.pow2 (-8) + JS.pow2 (-20))%Q).
  { unfold step_error.
    replace (k - 53) with (k + -53) by lia. replace (k - 65) with (k + -65) by lia.
    rewrite !pow2_add, (pow2_Z k) by lia.
    setoid_replace (inject_Z (Z.of_nat (List.length items)) *
                    (inject_Z (2 ^ k) * JS.pow2 (-53) + inject_Z (2 ^ k) * JS.pow2 (-65)))%Q
      with (inject_Z (Z.of_nat (List.length items) * 2 ^ k) *
            (JS.pow2 (-53) + JS.pow2 (-65)))%Q
      by (rewrite inject_Z_mult; ring).
    apply Qle_trans with (inject_Z (2 ^ 45) * (JS.pow2 (-53) + JS.pow2 (-65)))%Q.
    - apply Qmult_le_compat_r; [rewrite <- Zle_Qle; exact Hn | discriminate].
    - discriminate. }
  assert (Herr' : (inject_Z (Z.of_nat (List.length items)) * read_error k
                   <= JS.pow2 (-8) + JS.pow2 (-20))%Q).
  { eapply Qle_trans; [| exact Herr].
    rewrite (Qmult_comm _ (read_error k)), (Qmult_comm _ (step_error k)).
    apply Qmult_le_compat_r; [| rewrite <- (Zle_Qle 0); lia].
    rewrite (step_error_split k). pose proof (pow2_pos (k - 54)). lra. }
  assert (Hq2 : (inject_Z T / inject_Z 100 <= JS.pow2 k - (1 # 100))%Q).
  { rewrite pow2_Z by lia.
    apply Qle_shift_div_r; [reflexivity |].
    setoid_replace ((inject_Z (2 ^ k) - (1 # 100)) * inject_Z 100)%Q
      with (inject_Z (100 * 2 ^ k - 1)).
    - rewrite <- Zle_Qle. lia.
    - unfold Zminus. rewrite inject_Z_plus, inject_Z_mult.
      change (inject_Z (- (1))) with (- (1))%Q. field. }
  assert (C : (JS.pow2 (-8) + JS.pow2 (-20) < 1 # 200)%Q) by reflexivity.
  destruct (@exact_sum_near k ltac:(lia) items T Hc ltac:(lra)) as (q & Hq & Hqe).
  assert (Hqnear : (Qabs (q - inject_Z T / inject_Z 100) < 1 # 200)%Q) by lra.
  split.
  2: { unfold spec_totalPrice. rewrite Hq. now rewrite (round2_near _ _ Hqnear). }
  destruct (@sum_near k ltac:(lia) items JS.pos_zero 0%Q 0 T 0 Hc I eq_refl
              (Z.le_refl 0) (Z.le_refl 0)) as (vs & Hvs & Hvs0 & Hes).
  - simpl. discriminate.
  - rewrite !Z.add_0_l. lra.
  - rewrite !Z.add_0_l in Hes.
    assert (Hnear : (Qabs (vs - inject_Z T / inject_Z 100) < 1 # 200)%Q) by lra.
    unfold totalPrice. rewrite (toFixed2_value _ Hvs Hvs0).
    + now rewrite (round2_near _ _ Hnear).
    + apply Qabs_Qle_condition in Hes.
      assert (K : (JS.pow2 k <= inject_Z (2 ^ 45))%Q).
      { rewrite pow2_Z by lia. rewrite <- Zle_Qle. apply Z.pow_le_mono_r; lia. }
      assert (C2 : (inject_Z (2 ^ 45) + 1 < JS.pow10 21)%Q) by reflexivity.
      lra.
Qed.

Set Implicit Arguments.
Local Open Scope string_scope.

(** C5, as the code has it.  The total is computed from the items of the
    current snapshot alone, as their binary64 floating-point sum taken in
    order, printed with two decimals.  When every price is an amount in
    whole cents that is not negative (a String that spells such a
    decimal, or a Number that prints as one), and the number of items
    times a power of two above the sum is at most [2^45] (1024 items
    that total less than [2^35], say), the binary64 sum stays within half
    a cent of the sum of the cents: the total is the exact decimal sum,
    printed with two decimals, and every order of the items gives it. *)
Theorem total_is_exact_for_prices_in_cents : forall items T k,
  cents_sum items = Some T ->
  0 <= k -> T < 100 * 2 ^ k ->
  Z.of_nat (List.length items) * 2 ^ k <= 2 ^ 45 ->
  totalPrice items = JS.fixed2_digits T /\
  spec_totalPrice items = Some (totalPrice items) /\
  forall items', Permutation items items' -> totalPrice items' = totalPrice items.
Proof.
  intros items T k Hc Hk HT Hn.
  destruct (totalPrice_in_cents items T k Hc Hk HT Hn) as [Ht Hs].
  split; [exact Ht |]. split; [now rewrite Ht |].
  intros items' P.
  destruct (totalPrice_in_cents items' T k (cents_sum_perm items items' T P Hc) Hk HT)
    as [Ht' _].
  - now rewrite <- (Permutation_length P).
  - now rewrite Ht, Ht'.
Qed.

Lemma total_is_exact_for_prices_in_cents_witness :
  totalPrice ordinary_cart = "25.30"%string /\
  spec_totalPrice ordinary_cart = Some "25.30"%string /\
  totalPrice (rev ordinary_cart) = "25.30"%string.
Proof.
  assert (Hc : cents_sum ordinary_cart = Some 2530) by (vm_compute; reflexivity).
  assert (Hk : 0 <= 5) by lia.
  assert (HT : 2530 < 100 * 2 ^ 5) by (vm_compute; reflexivity).
  assert (Hn : Z.of_nat (List.length ordinary_cart) * 2 ^ 5 <= 2 ^ 45)
    by (vm_compute; discriminate).
  destruct (total_is_exact_for_prices_in_cents ordinary_cart Hc Hk HT Hn) as (Ht & Hs & Hp).
  assert (Hd : JS.fixed2_digits 2530 = "25.30"%string) by (vm_compute; reflexivity).
  rewrite Hd in Ht.
  split; [exact Ht |]. split; [now rewrite Hs, Ht |].
  rewrite (Hp (rev ordinary_cart) (Permutation_rev ordinary_cart)). exact Ht.
Defined.

(** The bound is not far from where the total goes wrong: one price in
    cents a cent above [2^46] is printed a cent too high. *)
Lemma total_beyond_the_bound :
  cents_sum beyond_cart = Some 7036874417766401 /\
  spec_totalPrice beyond_cart = Some "70368744177664.01"%string /\
  totalPrice beyond_cart = "70368744177664.02"%string.
Proof. vm_compute. repeat split. Qed.

(** C5 as stated fails: the prices are parsed to binary64 numbers and
    added as such.  Beyond [2^53] the sum drops the small items and
    depends on their order; and a price half a cent above a cent, which
    binary64 holds a little low, is rounded down. *)
Lemma total_is_binary_floating_point :
  totalPrice large_cart = "10000000000000000.00"%string /\
  spec_totalPrice large_cart = Some "10000000000000002.00"%string /\
  totalPrice (rev large_cart) = "10000000000000002.00"%string /\
  totalPrice tie_cart = "1.01"%string /\
  spec_totalPrice tie_cart = Some "1.02"%string.
Proof. vm_compute. repeat split. Qed.

(* ================================================================== *)
(** * Adding to the cart                                                *)
(* ================================================================== *)

Lemma has_id_app id cart cart' :
  has_id id (cart ++ cart') = has_id id cart || has_id id cart'.
Proof. unfold has_id. apply existsb_app. Qed.

(** After [addToCart item] the id of [item] is in the cart. *)
Lemma addToCart_has_id item cart :
  has_id (_id item) (snd (Cart.addToCart item cart)) = true.
Proof.
  unfold Cart.addToCart. destruct (has_id (_id item) cart) eqn:H; simpl; auto.
  rewrite has_id_app. unfold has_id at 2. simpl.
  rewrite String.eqb_refl. now rewrite orb_true_r.
Qed.

(** C9. Adding an item and then an item with the same id leaves the
    size of the cart unchanged, and the second add returns false; the
    caller then shows the 'Info' alert that the item is already in the
    cart, with the information icon and the OK button, and the cart is
    as it was. *)
Theorem second_add_is_informational : forall cart item item' alert,
  _id item' = _id item ->
  let cart1 := snd (Cart.addToCart item cart) in
  let second := Cart.addToCart item' cart1 in
  fst second = false /\
  List.length (snd second) = List.length cart1 /\
  snd second = cart1 /\
  let p :=
    {| MarketPage.cartItems := cart1;
       MarketPage.alertVisible := MarketPage.alertVisible alert;
       MarketPage.alertTitle := MarketPage.alertTitle alert;
       MarketPage.alertMessage := MarketPage.alertMessage alert;
       MarketPage.alertIcon := MarketPage.alertIcon alert;
       MarketPage.alertButtons := MarketPage.alertButtons alert |} in
  MarketPage.handleAddToCart item' p =
    (false,
     {| MarketPage.cartItems := cart1;
        MarketPage.alertVisible := true;
        MarketPage.alertTitle := "Info";
        MarketPage.alertMessage := name item' ++ " is already in your cart.";
        MarketPage.alertIcon := "information-circle";
        MarketPage.alertButtons := [ok_button] |}).
Proof.
  intros cart item item' alert Hid cart1 second.
  assert (H : has_id (_id item') cart1 = true)
    by (rewrite Hid; apply addToCart_has_id).
  subst second. unfold Cart.addToCart at 1 2 3.
  unfold MarketPage.handleAddToCart, MarketPage.addToCart, Cart.addToCart at 1.
  cbn [MarketPage.cartItems]. rewrite H. cbn. repeat split.
Qed.

Lemma second_add_is_informational_witness :
  fst (Cart.addToCart sample_item (snd (Cart.addToCart sample_item []))) = false.
Proof.
  apply (@second_add_is_informational [] sample_item sample_item
           {| MarketPage.cartItems := []; MarketPage.alertVisible := false;
              MarketPage.alertTitle := ""; MarketPage.alertMessage := "";
              MarketPage.alertIcon := ""; MarketPage.alertButtons := [] |}).
  reflexivity.
Defined.

(* ================================================================== *)
(** * What an attempt sends, and on which cart                        *)
(* ================================================================== *)

Import Calls.

(** ** What an attempt sends *)

Lemma flat_map_log_events {B} env items (f : Event -> list B) :
  (forall R (op : Op R) r, f (Did op r) = []) ->
  flat_map f (log_events env items) = [].
Proof.
  intros Hf; induction items as [| i rest IH]; simpl; auto.
  destruct (CreatedItem.product i); simpl; rewrite ?Hf, ?IH; auto.
Qed.

(** [walk], keeping what the test of the client secret has found. *)
Ltac walk_secret tac :=
  repeat first
    [ progress cbn
    | match goal with
      | |- _ /\ _ => split
      | |- forall _ : Settled Response.t, _ => intros [[? ? ?] | ?]
      | |- forall _, _ => intro
      | |- always _ _ _ (if negb (truthy ?c) then _ else _) _ =>
          let s := fresh "secret" in
          let E := fresh "E" in
          destruct c as [s |]; unfold truthy;
          [destruct (String.eqb s "") eqn:E |]
      | |- always _ _ _ (match ?x with _ => _ end) _ => destruct x
      | |- always _ _ _ (and_then _ _) _ => unfold and_then
      | |- always _ _ _ (Task.bind _ _) _ => apply always_bind
      | |- always _ _ _ (forEach_log _) _ =>
          apply forEach_log_always; [tac | tac | tac | tac | ]
      end
    | solve [tac] ].

Lemma handleCheckout_on_snapshot items :
  always secret_next (snapshot_ok items) (fun _ _ => True)
    (handleCheckout items) None.
Proof.
  unfold handleCheckout.
  destruct items as [| item items];
    walk_secret ltac:(unfold snapshot_ok, secret_next; cbn; intros;
                      repeat match goal with
                             | H : String.eqb _ _ = _ |- _ => rewrite H
                             end;
                      repeat split; reflexivity || auto).
Qed.

(** X1. Whenever an attempt submits an order, the order is the cart of
    the press, item for item (the product is the item's id, the quantity
    1), its total is the number the displayed total reads as and its
    method is 'Card'; the intent was requested for the displayed total,
    and the secret the provider answered is the one the payment sheet was
    initialised with and the one the order carries, with the date of the
    engine as [paidAt]. *)
Theorem order_carries_what_was_charged : forall env items p d,
  let r := run env (handleCheckout items) p in
  In d (drafts (trace r)) ->
  mirrors items d /\
  map OrderItem.product (OrderData.orderItems d) = map _id items /\
  Forall (fun i => OrderItem.quantity i = 1%Z) (OrderData.orderItems d) /\
  amounts (trace r) = [totalPrice items] /\
  sheets (trace r) =
    [{| SheetParams.paymentIntentClientSecret :=
          PaymentResult.clientSecret (OrderData.paymentResult d);
        SheetParams.merchantDisplayName := "Your App Name" |}] /\
  intent env = Some (PaymentResult.clientSecret (OrderData.paymentResult d)) /\
  OrderData.paidAt d = Some (now env).
Proof.
  intros env items p d.
  assert (Hmap : forall l : list CartItem,
            map OrderItem.product (map order_item l) = map _id l /\
            Forall (fun i => OrderItem.quantity i = 1%Z) (map order_item l)).
  { induction l as [| x l [IH1 IH2]]; simpl; split; auto.
    now rewrite IH1. }
  destruct items as [| item items]; split_env env.
  - cbn. tauto.
  - unfold drafts, amounts, sheets, mirrors. run_cases; cbn;
      rewrite ?flat_map_app, ?(flat_map_log_events _ _ _ (fun _ _ _ => eq_refl));
      cbn; try tauto;
      (intros [<- | []]; cbn;
       destruct (Hmap items) as [H1 H2];
       repeat split; auto; try (now f_equal)).
Qed.

Lemma valid_snapshot items s evs :
  valid secret_next (snapshot_ok items) s evs ->
  (forall a, In a (amounts evs) -> a = totalPrice items) /\
  (forall d, In d (drafts evs) -> mirrors items d).
Proof.
  unfold amounts, drafts, mirrors.
  revert s; induction evs as [| e evs IH]; intros s; simpl.
  - intros _; split; intros ? [].
  - intros [He Hv]. destruct (IH _ Hv) as [IHa IHd].
    destruct e as [R op r | R op]; [simpl; auto |].
    destruct op; simpl in *; auto.
    + split; auto. intros a [<- | H]; auto.
    + split; auto. intros d [<- | H]; auto. tauto.
Qed.

Lemma on_snapshot_history items h evs s :
  valid secret_next (snapshot_ok items) s evs ->
  (forall a, In a (amounts h) -> a = totalPrice items) ->
  (forall d, In d (drafts h) -> mirrors items d) ->
  (forall a, In a (amounts (h ++ evs)) -> a = totalPrice items) /\
  (forall d, In d (drafts (h ++ evs)) -> mirrors items d).
Proof.
  intros Hv Ha Hd. destruct (valid_snapshot _ _ _ Hv) as [Ha' Hd'].
  unfold amounts, drafts in *. split; intros x; rewrite flat_map_app, in_app_iff;
    intros [H | H]; auto.
Qed.

Lemma start_on_snapshot env m c items s :
  always secret_next (snapshot_ok items) (fun _ _ => True) m s ->
  on_snapshot items c -> on_snapshot items (start env m c).
Proof.
  intros Hm (Ha & Hd & Hp). unfold start.
  pose proof (@always_advance _ secret_next (snapshot_ok items) env
                (fun _ _ => True) m (page c) s Hm) as H.
  destruct (advance env m (page c)) as [[p' evs] susp].
  destruct H as [Hv Hs].
  destruct (@on_snapshot_history items (history c) evs s Hv Ha Hd) as [Ha' Hd'].
  split; [| split]; simpl; auto.
  intros w Hw. apply in_app_iff in Hw as [Hw | Hw]; auto.
  destruct susp as [[R op k] |]; simpl in Hw; [| tauto].
  destruct Hw as [<- | []]. simpl. intros r. eauto.
Qed.

Lemma perform_actions_on_snapshot items acts s :
  always secret_next (snapshot_ok items) (fun _ _ => True)
    (perform_actions acts) s.
Proof.
  revert s; induction acts as [| a acts IH]; intros s; simpl; auto.
  destruct a; simpl; split; auto.
Qed.

Lemma on_snapshot_step items i c :
  is_press i = false -> on_snapshot items c -> on_snapshot items (step i c).
Proof.
  intros Hi Hc. destruct i as [env | n env | n | | id]; simpl; try discriminate.
  - destruct (nth_error (pending c) n) as [[R op k] |] eqn:En; auto.
    destruct Hc as (Ha & Hd & Hp).
    pose proof (Hp _ (nth_error_In _ _ En)) as Hk. simpl in Hk.
    destruct (Hk (answer env op)) as [s Hs].
    pose proof (@always_advance _ secret_next (snapshot_ok items) env
                  (fun _ _ => True) _ (page c) s Hs) as H.
    destruct (advance env (k (answer env op)) (page c)) as [[p' evs] susp].
    destruct H as [Hv Hsusp].
    destruct (@on_snapshot_history items (history c) evs s Hv Ha Hd) as [Ha' Hd'].
    unfold amounts, drafts in *.
    split; [| split]; cbn [history pending]; unfold amounts, drafts.
    + intros a. rewrite flat_map_app. simpl. rewrite <- flat_map_app. auto.
    + intros d. rewrite flat_map_app. simpl. rewrite <- flat_map_app. auto.
    + intros w Hw. apply in_app_iff in Hw as [Hw | Hw].
      * apply Hp. eapply In_remove_nth; eauto.
      * destruct susp as [[R' op' k'] |]; simpl in Hw; [| tauto].
        destruct Hw as [<- | []]. simpl. intros r. eauto.
  - destruct (alertVisible (page c)); auto.
    destruct (nth_error (alertButtons (page c)) n); auto.
    eapply start_on_snapshot with (s := None);
      eauto using perform_actions_on_snapshot.
  - destruct (alertVisible (page c)); auto.
    eapply start_on_snapshot with (s := None); eauto. simpl; auto.
  - destruct (has_id id (cartItems (page c))); auto.
    eapply start_on_snapshot with (s := None); eauto. simpl; auto.
Qed.

(** X2. The amount charged and the order placed are those of the cart
    as it was when Checkout was pressed: whatever happens on the page
    while the attempt is in flight (items removed, alerts closed, calls
    settling in any order), every intent is requested for the total of
    that snapshot and every order submitted mirrors it. *)
Theorem order_is_placed_on_the_snapshot : forall env items rest,
  no_press rest = true ->
  let c := exec (PressCheckout env :: rest) (idle (mount items)) in
  (forall a, In a (amounts (history c)) -> a = totalPrice items) /\
  (forall d, In d (drafts (history c)) -> mirrors items d).
Proof.
  intros env items rest Hnp c.
  assert (H : on_snapshot items c).
  { subst c. simpl.
    apply (@exec_invariant_no_press (on_snapshot items)); auto.
    - intros i c; apply on_snapshot_step.
    - assert (H0 : on_snapshot items (idle (mount items))).
      { split; [| split]; simpl; intros ? []. }
      destruct (checkout_enabled (mount items)) eqn:En; auto.
      change (cartItems (page (idle (mount items)))) with items.
      eapply start_on_snapshot; eauto using handleCheckout_on_snapshot. }
  destruct H as (Ha & Hd & _). auto.
Qed.

Lemma settle_first env c R (op : Op R) k :
  pending c = [Waiting op k] ->
  step (Settle 0 env) c =
  start env (k (answer env op))
    {| page := page c; pending := [];
       history := history c ++ [Did op (answer env op)] |}.
Proof.
  intros Hp. unfold start. simpl. rewrite Hp. simpl.
  destruct (advance env (k (answer env op)) (page c)) as [[p' evs] susp].
  now rewrite <- app_assoc.
Qed.

(** Pressing Checkout on a cart that is not empty: the handler raises
    the flag and is suspended at the request for the intent. *)
Lemma press_suspends items :
  items <> [] ->
  exists k : option string -> Task unit,
    (forall env p,
        advance env (handleCheckout items) p =
        (update (setLoading true) p,
         [Did (setLoading true) tt; Called (fetchPaymentIntent (totalPrice items))],
         Some (Waiting (fetchPaymentIntent (totalPrice items)) k))) /\
    (forall env p,
        run env (handleCheckout items) p =
        let '(a, p', evs) := run env (k (intent env)) (update (setLoading true) p) in
        (a, p',
         Did (setLoading true) tt :: Called (fetchPaymentIntent (totalPrice items))
           :: Did (fetchPaymentIntent (totalPrice items)) (intent env) :: evs)) /\
    (forall env, awaits env (handleCheckout items) = S (awaits env (k (intent env)))).
Proof.
  intros Hne. destruct items as [| item items]; [congruence |].
  unfold handleCheckout. cbn.
  eexists. split; [intros; reflexivity | split; intros; [| reflexivity]].
  match goal with
  | |- context [run ?e ?m ?q] => destruct (run e m q) as [[a q'] evs]
  end.
  reflexivity.
Qed.

Lemma run_keeps_cart env items p :
  cartItems (final (run env (handleCheckout items) p)) = cartItems p.
Proof.
  destruct items as [| item items]; split_env env.
  - reflexivity.
  - run_cases; reflexivity.
Qed.

Lemma run_submits_once env items p :
  items <> [] -> succeeds env = true ->
  exists d, drafts (trace (run env (handleCheckout items) p)) = [d].
Proof.
  intros Hne Hs.
  destruct items as [| item items]; [congruence |].
  split_env env. unfold succeeds, persisted, loggable in Hs.
  unfold drafts. revert Hs; run_cases; cbn; try discriminate; intros _.
  rewrite ?flat_map_app, ?(flat_map_log_events _ _ _ (fun _ _ _ => eq_refl)).
  cbn. eauto.
Qed.

Lemma run_on_snapshot env items p d :
  In d (drafts (trace (run env (handleCheckout items) p))) -> mirrors items d.
Proof.
  pose proof (@always_run _ secret_next (snapshot_ok items) _ env
                (fun _ _ => True) (handleCheckout items) p None
                (handleCheckout_on_snapshot items)) as [Hv _].
  apply (valid_snapshot _ _ _ Hv).
Qed.

Lemma trash_step id c :
  has_id id (cartItems (page c)) = true ->
  step (PressTrash id) c =
  {| page := update (removeFromCart id) (page c); pending := pending c;
     history := history c ++ [Did (removeFromCart id) tt] |}.
Proof.
  intros H. simpl. rewrite H. unfold start. simpl. now rewrite app_nil_r.
Qed.

Lemma has_id_In id items : has_id id items = true -> In id (map _id items).
Proof.
  unfold has_id. induction items as [| item items IH]; simpl; [discriminate |].
  destruct (String.eqb (_id item) id) eqn:E; simpl; auto.
  apply String.eqb_eq in E. auto.
Qed.

Lemma map_product_order_item items :
  map OrderItem.product (map order_item items) = map _id items.
Proof. induction items as [| item items IH]; simpl; congruence. Qed.

(** X3. An item removed with the trash icon after Checkout was pressed
    is removed from the cart (by the cart context, as the specification
    has it) and is ordered all the same: when every step succeeds the
    one order submitted still lists it. *)
Theorem removal_in_flight_is_still_ordered : forall env items id,
  has_id id items = true -> succeeds env = true ->
  let c := exec (PressCheckout env :: PressTrash id :: repeat (Settle 0 env) 4)
                (idle (mount items)) in
  In (Did (removeFromCart id) tt) (history c) /\
  cartItems (page c) = Cart.removeFromCart id items /\
  exists d,
    drafts (history c) = [d] /\ mirrors items d /\
    In id (map OrderItem.product (OrderData.orderItems d)).
Proof.
  intros env items id Hid Hs.
  assert (Hne : items <> []) by (intros ->; discriminate).
  destruct (press_suspends Hne) as (k & Hadv & Hrun & Haw).
  pose proof (handleCheckout_awaits env items) as Hn. rewrite Haw in Hn.
  set (p' := update (removeFromCart id) (mount items)).
  pose proof (run_keeps_cart env items p') as Hcart.
  destruct (run_submits_once env p' Hne Hs) as [d Hd].
  pose proof (@run_on_snapshot env items p' d) as Hm.
  rewrite Hrun in Hcart, Hd, Hm.
  change (update (setLoading true) p')
    with (update (removeFromCart id) (update (setLoading true) (mount items)))
    in Hcart, Hd, Hm.
  set (p2 := update (removeFromCart id) (update (setLoading true) (mount items))) in *.
  assert (H1 : step (PressCheckout env) (idle (mount items)) =
               {| page := update (setLoading true) (mount items);
                  pending := [Waiting (fetchPaymentIntent (totalPrice items)) k];
                  history := [Did (setLoading true) tt;
                              Called (fetchPaymentIntent (totalPrice items))] |}).
  { transitivity (start env (handleCheckout items) (idle (mount items))).
    - destruct items; [congruence | reflexivity].
    - unfold start. rewrite Hadv. reflexivity. }
  unfold exec. cbn [fold_left repeat]. rewrite H1.
  rewrite trash_step by exact Hid. cbn [page pending history app].
  match goal with
  | |- context [step (Settle 0 env)
                  {| page := ?p; pending := [Waiting ?op ?kk]; history := ?h |}] =>
      rewrite (@settle_first env {| page := p; pending := [Waiting op kk];
                                    history := h |} _ op kk eq_refl)
  end.
  cbn [page pending history app answer]. fold p2.
  change (step (Settle 0 env) (step (Settle 0 env) (step (Settle 0 env) ?c)))
    with (exec (repeat (Settle 0 env) 3) c).
  replace 3%nat with (awaits env (k (intent env))
                      + (3 - awaits env (k (intent env))))%nat by lia.
  rewrite repeat_app, exec_app, start_settles, settle_nothing by reflexivity.
  cbn [page history].
  destruct (run env (k (intent env)) p2) as [[a q] evs].
  unfold final, trace, drafts in *. cbn [fst snd] in *.
  split; [do 2 right; left; reflexivity |].
  split; [exact Hcart |].
  exists d. rewrite flat_map_app. cbn in Hd, Hm |- *.
  assert (Hmd : mirrors items d) by (apply Hm; rewrite Hd; now left).
  split; [exact Hd |]. split; [exact Hmd |].
  destruct Hmd as [-> _]. rewrite map_product_order_item. now apply has_id_In.
Qed.

Lemma removal_in_flight_is_still_ordered_witness :
  let c := exec (PressCheckout success_env :: PressTrash "p1"
                   :: repeat (Settle 0 success_env) 4)
                (idle (mount sample_cart)) in
  cartItems (page c) = [] /\
  exists d, drafts (history c) = [d] /\
            In "p1" (map OrderItem.product (OrderData.orderItems d)).
Proof.
  destruct (@removal_in_flight_is_still_ordered success_env sample_cart "p1"
              eq_refl eq_refl) as (_ & Hc & d & Hd & _ & Hi).
  split; [exact Hc |]. exists d. split; assumption.
Defined.

(** X4. The collaborators are called in the order of the pipeline,
    each once at most, and one is called exactly when all those before it
    have succeeded: the calls of an attempt are the first [reached env
    items] of intent, sheet initialisation, sheet presentation, order. *)
Theorem collaborators_are_called_in_order : forall env items p,
  let r := run env (handleCheckout items) p in
  callees (trace r) = firstn (reached env items) pipeline.
Proof.
  intros env items p.
  destruct items as [| item items]; split_env env.
  - cbn. auto.
  - unfold callees, reached. run_cases; cbn;
      rewrite ?flat_map_app, ?(flat_map_log_events _ _ _ (fun _ _ _ => eq_refl));
      cbn; auto.
Qed.

(** ** The empty-cart branch *)

Lemma valid_not_cart_empty evs :
  valid (fun s _ => s) not_cart_empty tt evs ->
  existsb is_cart_empty_alert evs = false.
Proof.
  induction evs as [| e evs IH]; simpl; auto.
  intros [He Hv]. rewrite IH by auto.
  rewrite orb_false_r. destruct e as [R op r | R op]; auto.
  simpl in He. destruct op; simpl in *; auto.
Qed.

Lemma handleCheckout_not_empty items :
  items <> [] ->
  always (fun s _ => s) not_cart_empty (fun _ _ => True) (handleCheckout items) tt.
Proof.
  intros Hne. unfold handleCheckout.
  destruct items as [| item items]; [congruence |].
  walk ltac:(unfold not_cart_empty; cbn; intros; reflexivity || auto).
Qed.

Lemma start_never_empty env m c :
  always (fun s _ => s) not_cart_empty (fun _ _ => True) m tt ->
  never_empty c -> never_empty (start env m c).
Proof.
  intros Hm (Hh & Hp). unfold start.
  pose proof (@always_advance _ (fun s _ => s) not_cart_empty env
                (fun _ _ => True) m (page c) tt Hm) as H.
  pose proof (@advance_suspends_at_await env m (page c)) as Haw.
  destruct (advance env m (page c)) as [[p' evs] susp].
  destruct H as [Hv Hs].
  split; cbn [history pending].
  - rewrite existsb_app, Hh, (valid_not_cart_empty _ Hv). reflexivity.
  - intros w Hw. apply in_app_iff in Hw as [Hw | Hw]; auto.
    destruct susp as [w' |]; simpl in Hw; [| tauto].
    destruct Hw as [<- | []].
    split; [eapply Haw; reflexivity |].
    destruct w' as [R op k]. simpl. intros r.
    specialize (Hs r).
    replace (fold_left (fun s _ => s) evs tt) with tt in Hs
      by (now destruct (fold_left (fun s _ => s) evs tt)).
    exact Hs.
Qed.

Lemma perform_actions_not_empty acts :
  always (fun s _ => s) not_cart_empty (fun _ _ => True) (perform_actions acts) tt.
Proof.
  induction acts as [| a acts IH]; simpl; auto.
  destruct a; simpl; split; auto.
Qed.

Lemma never_empty_step i c : never_empty c -> never_empty (step i c).
Proof.
  intros Hc. destruct i as [env | n env | n | | id]; simpl.
  - unfold checkout_enabled.
    destruct (cartItems (page c)) as [| item items] eqn:Ec; simpl; auto.
    destruct (loading (page c)); simpl; auto.
    apply start_never_empty; auto.
    apply handleCheckout_not_empty. discriminate.
  - destruct (nth_error (pending c) n) as [w |] eqn:En; [| destruct Hc; split; auto].
    assert (Hc' := Hc). destruct Hc' as (Hh & Hp).
    destruct (Hp _ (nth_error_In _ _ En)) as [Haw Hk].
    destruct w as [R op k]. simpl in Hk, Haw.
    pose proof (@always_advance _ (fun s _ => s) not_cart_empty env
                  (fun _ _ => True) _ (page c) tt (Hk (answer env op))) as H.
    pose proof (@advance_suspends_at_await env (k (answer env op)) (page c)) as Haw'.
    destruct (advance env (k (answer env op)) (page c)) as [[p' evs] susp].
    destruct H as [Hv Hsusp].
    split; cbn [history pending].
    + rewrite existsb_app, Hh. simpl.
      rewrite (valid_not_cart_empty _ Hv), orb_false_r.
      destruct op; simpl in Haw; reflexivity || discriminate.
    + intros w Hw. apply in_app_iff in Hw as [Hw | Hw].
      * apply Hp. eapply In_remove_nth; eauto.
      * destruct susp as [w' |]; simpl in Hw; [| tauto].
        destruct Hw as [<- | []].
        split; [eapply Haw'; reflexivity |].
        destruct w' as [R' op' k']. simpl. intros r.
        specialize (Hsusp r).
        replace (fold_left (fun s _ => s) evs tt) with tt in Hsusp
          by (now destruct (fold_left (fun s _ => s) evs tt)).
        exact Hsusp.
  - destruct (alertVisible (page c)); auto.
    destruct (nth_error (alertButtons (page c)) n); auto.
    apply start_never_empty; auto using perform_actions_not_empty.
  - destruct (alertVisible (page c)); auto.
    apply start_never_empty; auto. simpl; auto.
  - destruct (has_id id (cartItems (page c))); auto.
    apply start_never_empty; auto. simpl; auto.
Qed.

(** X5. On the page the empty-cart branch of [handleCheckout] is never
    taken: the footer with the Checkout button is rendered only when the
    cart is not empty, so whatever the inputs, and whatever the cart at
    mount, the 'Cart Empty' alert is never configured. *)
Theorem cart_empty_alert_is_unreachable : forall items inputs,
  existsb is_cart_empty_alert (history (exec inputs (idle (mount items)))) = false.
Proof.
  intros items inputs.
  assert (H : never_empty (exec inputs (idle (mount items)))).
  { apply (@exec_invariant never_empty).
    - intros i c; apply never_empty_step.
    - split; simpl; auto. intros ? []. }
  apply H.
Qed.

Lemma order_carries_what_was_charged_witness :
  let r := run success_env (handleCheckout sample_cart) (mount sample_cart) in
  exists d,
    In d (drafts (trace r)) /\
    mirrors sample_cart d /\
    amounts (trace r) = [totalPrice sample_cart] /\
    intent success_env = Some (PaymentResult.clientSecret (OrderData.paymentResult d)).
Proof.
  set (d := {| OrderData.orderItems := map order_item sample_cart;
               OrderData.totalPrice := JS.parseFloat_string (totalPrice sample_cart);
               OrderData.paymentMethod := "Card";
               OrderData.isPaid := true;
               OrderData.paidAt := Some (now success_env);
               OrderData.paymentResult := {| PaymentResult.clientSecret := "pi_secret" |} |}).
  assert (Hd : In d (drafts (trace (run success_env (handleCheckout sample_cart)
                                      (mount sample_cart))))).
  { left. reflexivity. }
  pose proof (@order_carries_what_was_charged success_env sample_cart
                (mount sample_cart) d Hd) as H.
  cbv zeta in H. destruct H as (Hm & _ & _ & Ha & _ & Hi & _).
  exists d. auto.
Defined.

Lemma order_is_placed_on_the_snapshot_witness :
  let c := exec [PressCheckout success_env; PressTrash "p1";
                 Settle 0 success_env; Settle 0 success_env;
                 Settle 0 success_env; Settle 0 success_env]
                (idle (mount sample_cart)) in
  exists d, In d (drafts (history c)) /\ mirrors sample_cart d.
Proof.
  eexists. split; [left; reflexivity |].
  apply (proj2 (@order_is_placed_on_the_snapshot success_env sample_cart
                  [PressTrash "p1"; Settle 0 success_env; Settle 0 success_env;
                   Settle 0 success_env; Settle 0 success_env] eq_refl)).
  left. reflexivity.
Defined.

(** ** A price that does not parse *)

Lemma add_NaN_r x : JS.add x JS.NaN = JS.NaN.
Proof. destruct x; reflexivity. Qed.

Lemma fold_NaN items :
  fold_left (fun sum item => JS.add sum (parseFloat (price item))) items JS.NaN = JS.NaN.
Proof.
  induction items as [| item items IH]; simpl; auto.
Qed.

Lemma fold_poisoned items acc :
  Exists (fun item => parseFloat (price item) = JS.NaN) items ->
  fold_left (fun sum item => JS.add sum (parseFloat (price item))) items acc = JS.NaN.
Proof.
  intros H; revert acc; induction H as [item items Hn | item items _ IH]; intros acc; simpl.
  - rewrite Hn, add_NaN_r. apply fold_NaN.
  - apply IH.
Qed.

(** X27. A price that [parseFloat] cannot read poisons the total: if
    one item of the cart has such a price, the displayed total is "NaN"
    whatever the other prices, the number an order would carry is NaN,
    and a checkout on that cart requests a payment intent for "NaN"
    without any check of its own. *)
Theorem unreadable_price_poisons_the_total : forall items,
  Exists (fun item => parseFloat (price item) = JS.NaN) items ->
  totalPrice items = "NaN" /\
  JS.parseFloat_string (totalPrice items) = JS.NaN /\
  forall env p,
    amounts (trace (run env (handleCheckout items) p)) = ["NaN"].
Proof.
  intros items H.
  assert (Ht : totalPrice items = "NaN").
  { unfold totalPrice. rewrite fold_poisoned by exact H. reflexivity. }
  split; [exact Ht | split].
  - rewrite Ht. vm_compute. reflexivity.
  - intros env p.
    destruct items as [| item items]; [inversion H |].
    split_env env. unfold amounts. run_cases; cbn;
      rewrite ?flat_map_app, ?(flat_map_log_events _ _ _ (fun _ _ _ => eq_refl));
      cbn; rewrite ?Ht; reflexivity.
Qed.

Lemma unreadable_price_poisons_the_total_witness :
  totalPrice [priced "a" "12.50"; priced "b" "free"; priced "c" "7.25"] = "NaN".
Proof.
  apply unreadable_price_poisons_the_total.
  apply Exists_cons_tl, Exists_cons_hd. vm_compute. reflexivity.
Defined.

(* ================================================================== *)
(** * Sorting                                                           *)
(* ================================================================== *)

Section SortFacts.
Variable A : Type.
Variable cmp : A -> A -> comparison.


Lemma insert_perm x l : Permutation (JSString.insert cmp x l) (x :: l).
Proof.
  induction l as [| y l IH]; simpl; auto.
  destruct (cmp x y); auto.
  rewrite IH. apply perm_swap.
Qed.

Lemma Array_sort_perm l : Permutation (JSString.Array_sort cmp l) l.
Proof.
  induction l as [| x l IH]; simpl; auto.
  rewrite insert_perm. now constructor.
Qed.

Lemma consistent_preorder l : JSString.consistent cmp l = true -> JSString.preorder_on cmp l.
Proof.
  unfold JSString.consistent. intros H.
  rewrite forallb_forall in H. split.
  - intros a b Ha Hb. specialize (H a Ha). rewrite forallb_forall in H.
    specialize (H b Hb). apply andb_true_iff in H as [H _].
    destruct (cmp a b), (cmp b a); simpl; congruence.
  - intros a b c Ha Hb Hc Hab Hbc. specialize (H a Ha). rewrite forallb_forall in H.
    specialize (H b Hb). apply andb_true_iff in H as [_ H].
    rewrite forallb_forall in H. specialize (H c Hc).
    rewrite Hab, Hbc in H. exact H.
Qed.

Lemma preorder_on_incl l l' : incl l' l -> JSString.preorder_on cmp l -> JSString.preorder_on cmp l'.
Proof.
  intros Hi [H1 H2]; split; intros.
  - apply H1; auto.
  - apply H2 with (b := b); auto.
Qed.

Lemma insert_sorted x s :
  JSString.preorder_on cmp (x :: s) ->
  StronglySorted (fun a b => JSString.before cmp a b = true) s ->
  StronglySorted (fun a b => JSString.before cmp a b = true) (JSString.insert cmp x s).
Proof.
  intros Hp Hs. induction Hs as [| y s Hs IH Hy]; simpl.
  - repeat constructor.
  - destruct Hp as [Hanti Htrans].
    assert (Hp' : JSString.preorder_on cmp (x :: s)).
    { split; intros; [apply Hanti | eapply Htrans with (b := b)]; simpl in *; tauto. }
    destruct (cmp x y) eqn:E.
    + constructor; [constructor; auto |].
      constructor; [unfold JSString.before; now rewrite E |].
      rewrite Forall_forall in *. intros z Hz.
      apply Htrans with (b := y); simpl; auto.
      unfold JSString.before; now rewrite E.
    + constructor; [constructor; auto |].
      constructor; [unfold JSString.before; now rewrite E |].
      rewrite Forall_forall in *. intros z Hz.
      apply Htrans with (b := y); simpl; auto.
      unfold JSString.before; now rewrite E.
    + constructor; auto.
      rewrite Forall_forall in *. intros z Hz.
      apply (Permutation_in _ (insert_perm x s)) in Hz. destruct Hz as [<- | Hz]; auto.
      unfold JSString.before. rewrite (Hanti y x), E by (simpl; auto). reflexivity.
Qed.

Lemma Array_sort_sorted l :
  JSString.preorder_on cmp l -> StronglySorted (fun a b => JSString.before cmp a b = true) (JSString.Array_sort cmp l).
Proof.
  induction l as [| x l IH]; intros Hp; simpl.
  - constructor.
  - apply insert_sorted.
    + eapply preorder_on_incl; [| exact Hp].
      intros z [<- | Hz]; [now left | right].
      eapply Permutation_in; [apply Array_sort_perm | exact Hz].
    + apply IH. eapply preorder_on_incl; [| exact Hp]. intros z Hz; now right.
Qed.

Lemma Array_sort_of_sorted s :
  StronglySorted (fun a b => JSString.before cmp a b = true) s -> JSString.Array_sort cmp s = s.
Proof.
  induction 1 as [| x s Hs IH Hx]; simpl; auto.
  rewrite IH. destruct s as [| y s]; simpl; auto.
  inversion Hx as [| ? ? Hxy _]; subst. unfold JSString.before in Hxy.
  destruct (cmp x y); auto. discriminate.
Qed.

Lemma same_as_insert a x s :
  JSString.preorder_on cmp (a :: x :: s) ->
  JSString.same_as cmp a (JSString.insert cmp x s) = JSString.same_as cmp a (x :: s).
Proof.
  intros Hp. induction s as [| y s IH]; simpl; auto.
  assert (Hp' : JSString.preorder_on cmp (a :: x :: s)).
  { eapply preorder_on_incl; [| exact Hp]. intros z; simpl; tauto. }
  specialize (IH Hp'). unfold JSString.same_as in *. simpl in IH.
  destruct (cmp x y) eqn:E; simpl; auto.
  rewrite IH.
  destruct (cmp a x) eqn:Eax; auto.
  destruct (cmp a y) eqn:Eay; auto.
  (* a, x and y compare equal, yet x comes after y *)
  exfalso. destruct Hp as [Hanti Htrans].
  assert (Hxa : JSString.before cmp x a = true).
  { unfold JSString.before. rewrite (Hanti x a), Eax by (simpl; auto). reflexivity. }
  assert (Hay : JSString.before cmp a y = true) by (unfold JSString.before; now rewrite Eay).
  pose proof (Htrans x a y ltac:(simpl; auto) ltac:(simpl; auto) ltac:(simpl; auto)
                Hxa Hay) as Hxy.
  unfold JSString.before in Hxy. rewrite E in Hxy. discriminate.
Qed.

Lemma same_as_Array_sort a l :
  JSString.preorder_on cmp (a :: l) ->
  JSString.same_as cmp a (JSString.Array_sort cmp l) = JSString.same_as cmp a l.
Proof.
  induction l as [| x l IH]; intros Hp; simpl; auto.
  rewrite same_as_insert.
  - unfold JSString.same_as in *. simpl. rewrite IH; auto.
    eapply preorder_on_incl; [| exact Hp]. intros z; simpl; tauto.
  - eapply preorder_on_incl; [| exact Hp].
    intros z [<- | [<- | Hz]]; simpl; auto.
    right; right. eapply Permutation_in; [apply Array_sort_perm | exact Hz].
Qed.
End SortFacts.

(* ================================================================== *)
(** * The product list of the market screen                             *)
(* ================================================================== *)

Import MarketList.
Arguments sortData : simpl never.

Section MarketListFacts.
Variable localeCompare : string -> string -> comparison.

Lemma sortData_comparator l o :
  sortData localeCompare l o =
  match comparator localeCompare o with
  | Some cmp => JSString.Array_sort cmp l
  | None => l
  end.
Proof.
  unfold sortData, comparator.
  repeat match goal with |- context [if ?b then _ else _] => destruct b end;
    reflexivity.
Qed.

(** X6. Whatever the option, [sortData] returns the products it was
    given, each as often as it occurred: nothing is dropped or added. *)
Theorem sortData_keeps_every_product : forall l o,
  Permutation (sortData localeCompare l o) l.
Proof.
  intros l o. rewrite sortData_comparator.
  destruct (comparator localeCompare o); auto using Array_sort_perm.
Qed.

(** X7. When [sortData] sorts (one of the four named options) and the
    comparator is consistent on the products, the result is in ascending
    order of the comparator, and the products that compare equal keep
    the order they had: the sort is stable. *)
Theorem sortData_orders_and_is_stable : forall l o cmp,
  comparator localeCompare o = Some cmp ->
  JSString.consistent cmp l = true ->
  StronglySorted (fun a b => JSString.before cmp a b = true)
                 (sortData localeCompare l o) /\
  forall a, In a l ->
    JSString.same_as cmp a (sortData localeCompare l o) = JSString.same_as cmp a l.
Proof.
  intros l o cmp Ho Hc. rewrite sortData_comparator, Ho.
  apply consistent_preorder in Hc. split.
  - now apply Array_sort_sorted.
  - intros a Ha. apply same_as_Array_sort.
    eapply preorder_on_incl; [| exact Hc]. intros z [<- | Hz]; auto.
Qed.

(** X8. Choosing the same sort option twice changes nothing: sorting a
    list already sorted by the option returns it as it is (the
    comparator being consistent on it). *)
Theorem sorting_again_changes_nothing : forall l o,
  (forall cmp, comparator localeCompare o = Some cmp ->
               JSString.consistent cmp l = true) ->
  sortData localeCompare (sortData localeCompare l o) o = sortData localeCompare l o.
Proof.
  intros l o Hc. rewrite !sortData_comparator.
  destruct (comparator localeCompare o) as [cmp |]; auto.
  apply Array_sort_of_sorted, Array_sort_sorted, consistent_preorder; auto.
Qed.

(** X9. 'Default' sorts nothing, and [handleSortOption] sorts the list
    on display, not the catalogue: after a sort by any option, choosing
    'Default' leaves the list in the order of that sort and only resets
    the option; the order in which the products were fetched is not
    restored. *)
Theorem default_does_not_restore_the_order : forall env s o,
  let s1 := final (run env (handleSortOption localeCompare (filteredData s) o) s) in
  let s2 := final (run env (handleSortOption localeCompare (filteredData s1) "Default") s1) in
  filteredData s1 = sortData localeCompare (filteredData s) o /\
  filteredData s2 = filteredData s1 /\
  sortOption s2 = "Default" /\
  products s2 = products s.
Proof.
  intros env s o. cbn. repeat split.
Qed.

(** ** Searching *)

Lemma prefix_app q post : prefix q (q ++ post) = true.
Proof.
  induction q as [| a q IH]; simpl.
  - destruct post; reflexivity.
  - destruct (Ascii.ascii_dec a a); [exact IH | congruence].
Qed.

Lemma prefix_split q s : prefix q s = true -> exists post, s = q ++ post.
Proof.
  revert s; induction q as [| a q IH]; intros s; simpl.
  - intros _. now exists s.
  - destruct s as [| b s]; simpl; [discriminate |].
    destruct (Ascii.ascii_dec a b) as [-> |]; [| discriminate].
    intros H. destruct (IH _ H) as [post ->]. now exists post.
Qed.

Lemma index_String q a s :
  String.index 0 q (String a s) =
  if prefix q (String a s) then Some 0%nat
  else match String.index 0 q s with
       | Some n => Some (S n)
       | None => None
       end.
Proof. reflexivity. Qed.

Lemma index_occurs pre q post : String.index 0 q (pre ++ q ++ post) <> None.
Proof.
  induction pre as [| a pre IH].
  - change ("" ++ q ++ post) with (q ++ post).
    destruct q as [| a q].
    + destruct post; simpl; discriminate.
    + change (String a q ++ post) with (String a (q ++ post)).
      rewrite index_String.
      change (String a (q ++ post)) with (String a q ++ post).
      rewrite prefix_app. discriminate.
  - change (String a pre ++ q ++ post) with (String a (pre ++ q ++ post)).
    rewrite index_String.
    destruct (prefix q (String a (pre ++ q ++ post))); [discriminate |].
    destruct (String.index 0 q (pre ++ q ++ post)); [discriminate | congruence].
Qed.

Lemma index_split q s m :
  String.index 0 q s = Some m -> exists pre post, s = pre ++ q ++ post.
Proof.
  revert m; induction s as [| a s IH]; intros m.
  - simpl. destruct q; [| discriminate]. intros _. now exists "", "".
  - rewrite index_String. destruct (prefix q (String a s)) eqn:P.
    + intros _. destruct (prefix_split _ _ P) as [post ->]. now exists "", post.
    + destruct (String.index 0 q s) as [k |]; [| discriminate].
      intros _. destruct (IH k eq_refl) as (pre & post & ->).
      now exists (String a pre), post.
Qed.

Lemma append_assoc' (a b c : string) : (a ++ b) ++ c = a ++ b ++ c.
Proof. induction a as [| x a IH]; simpl; congruence. Qed.

Lemma toUpperCase_app a b :
  JSString.toUpperCase (a ++ b) = JSString.toUpperCase a ++ JSString.toUpperCase b.
Proof. induction a as [| x a IH]; simpl; congruence. Qed.

(** The query occurs in the text [s]. *)
Lemma occurs_inside a s c q :
  JSString.indexOf s q <> (-1)%Z -> JSString.indexOf (a ++ s ++ c) q <> (-1)%Z.
Proof.
  unfold JSString.indexOf.
  destruct (String.index 0 q s) as [m |] eqn:E; [| congruence].
  intros _. destruct (index_split _ _ E) as (pre & post & ->).
  replace (a ++ (pre ++ q ++ post) ++ c) with ((a ++ pre) ++ q ++ (post ++ c))
    by (now rewrite !append_assoc').
  pose proof (index_occurs (a ++ pre) q (post ++ c)) as H.
  destruct (String.index 0 q ((a ++ pre) ++ q ++ post ++ c)); [lia | congruence].
Qed.

Lemma matches_iff text item :
  matches text item = true <->
  JSString.indexOf (itemData item) (JSString.toUpperCase text) <> (-1)%Z.
Proof.
  unfold matches, JSString.indexOf.
  destruct (String.index 0 _ _); rewrite Z.ltb_lt; split; intros; lia || congruence.
Qed.

(** X10. The search reads the subject name, the subject code and the
    name, ignoring the case of ASCII letters: a product one of whose
    three fields contains the query once both are upper-cased is among
    the results, and two queries with the same upper case give the same
    results. *)
Theorem search_reads_the_three_fields_ignoring_case : forall env ps so text s item,
  In item ps ->
  JSString.indexOf (JSString.toUpperCase (subjectName item))
                   (JSString.toUpperCase text) <> (-1)%Z \/
  JSString.indexOf (JSString.toUpperCase (subjectCode item))
                   (JSString.toUpperCase text) <> (-1)%Z \/
  JSString.indexOf (JSString.toUpperCase (name item))
                   (JSString.toUpperCase text) <> (-1)%Z ->
  let r := run env (filterData localeCompare (Some ps) so text) s in
  In item (filteredData (final r)) /\
  forall text',
    JSString.toUpperCase text' = JSString.toUpperCase text ->
    run env (filterData localeCompare (Some ps) so text') s = r.
Proof.
  intros env ps so text s item Hin Hocc. cbn. split.
  - eapply Permutation_in; [symmetry; apply sortData_keeps_every_product |].
    apply filter_In. split; auto. apply matches_iff.
    set (q := JSString.toUpperCase text) in *.
    set (u1 := JSString.toUpperCase (subjectName item)) in *.
    set (u2 := JSString.toUpperCase (subjectCode item)) in *.
    set (u3 := JSString.toUpperCase (name item)) in *.
    set (indent := "        ").
    destruct Hocc as [H | [H | H]].
    + replace (itemData item)
        with ((JSString.LF ++ indent) ++ u1 ++
              (JSString.LF ++ indent ++ u2 ++ JSString.LF ++ indent ++ u3 ++
               JSString.LF ++ "      "))
        by (unfold itemData; rewrite !append_assoc'; reflexivity).
      now apply occurs_inside.
    + replace (itemData item)
        with ((JSString.LF ++ indent ++ u1 ++ JSString.LF ++ indent) ++ u2 ++
              (JSString.LF ++ indent ++ u3 ++ JSString.LF ++ "      "))
        by (unfold itemData; rewrite !append_assoc'; reflexivity).
      now apply occurs_inside.
    + replace (itemData item)
        with ((JSString.LF ++ indent ++ u1 ++ JSString.LF ++ indent ++ u2 ++
               JSString.LF ++ indent) ++ u3 ++ (JSString.LF ++ "      "))
        by (unfold itemData; rewrite !append_assoc'; reflexivity).
      now apply occurs_inside.
  - intros text' Ht. unfold matches. rewrite Ht. reflexivity.
Qed.

Lemma filter_all {A} (f : A -> bool) l : (forall x, f x = true) -> filter f l = l.
Proof.
  intros H; induction l as [| x l IH]; simpl; auto. now rewrite H, IH.
Qed.

Lemma toUpperCase_spaces n : JSString.toUpperCase (JSString.spaces n) = JSString.spaces n.
Proof. induction n as [| n IH]; simpl; auto. rewrite IH. reflexivity. Qed.

(** X11. A query of up to eight spaces, the empty query included,
    keeps every product: the text searched is the template literal of
    lines 149-153 with its own line breaks and indentation. *)
Theorem blank_query_keeps_every_product : forall env ps so n s,
  (n <= 8)%nat ->
  let r := run env (filterData localeCompare (Some ps) so (JSString.spaces n)) s in
  fst (fst r) = inr tt /\
  filteredData (final r) = sortData localeCompare ps so.
Proof.
  intros env ps so n s Hn. cbn. split; auto.
  rewrite filter_all; auto.
  intros item. apply matches_iff. rewrite toUpperCase_spaces.
  unfold JSString.indexOf.
  pose proof (index_occurs JSString.LF (JSString.spaces n)
                (JSString.spaces (8 - n) ++
                 JSString.toUpperCase (subjectName item) ++
                 JSString.LF ++ "        " ++ JSString.toUpperCase (subjectCode item) ++
                 JSString.LF ++ "        " ++ JSString.toUpperCase (name item) ++
                 JSString.LF ++ "      ")) as H.
  replace (itemData item) with
    (JSString.LF ++ JSString.spaces n ++ JSString.spaces (8 - n) ++
     JSString.toUpperCase (subjectName item) ++
     JSString.LF ++ "        " ++ JSString.toUpperCase (subjectCode item) ++
     JSString.LF ++ "        " ++ JSString.toUpperCase (name item) ++
     JSString.LF ++ "      ").
  - destruct (String.index 0 _ _); [lia | congruence].
  - do 9 (destruct n as [| n]; [reflexivity |]). lia.
Qed.

(** ** Fetching *)

(** X12. [fetchAllProducts] lowers the flag it raised on every path
    ([refreshing] when refreshing, [loading] otherwise), lowers both when
    it fails, and calls [fetchProducts] exactly once. *)
Theorem fetch_lowers_the_flag_it_raised : forall env so isRefreshing s,
  let s' := final (run env (fetchAllProducts localeCompare so isRefreshing) s) in
  (if isRefreshing then refreshing s' else loading s') = false /\
  (failure env <> None -> loading s' = false /\ refreshing s' = false) /\
  List.length (filter is_fetch
                 (trace (run env (fetchAllProducts localeCompare so isRefreshing) s)))
  = 1%nat.
Proof.
  intros [[[ok [[[data |]] |] msg] | e] te] so [] s; cbn;
    try destruct ok; cbn; repeat split; auto; congruence.
Qed.

(** X13. On a mounted page, whose [products] is an array, a failure of
    the fetch that does not reach [setProducts] (a rejection,
    [success: false], a response without its data object) leaves the
    page mounted, with the state the handler left: the 'Error' alert with
    the single Retry button of the same mode, and the list as it was.
    The alert falls back to 'Failed to fetch products.' when the error
    has no message, the inline error does not: it is rendered, and the
    list hidden, only when the message is not empty. *)
Theorem fetch_failure_shows_the_retry_alert : forall env so isRefreshing s err,
  products s <> None ->
  failure env = Some err ->
  stores_undefined env = false ->
  let r := run env (fetchAllProducts localeCompare so isRefreshing) s in
  let s' := final r in
  rendered localeCompare env r = Mounted s' /\
  alertVisible s' = true /\
  alertTitle s' = "Error" /\
  alertMessage s' = CartPage.or_else (JsError.message err) "Failed to fetch products." /\
  alertIcon s' = "alert-circle" /\
  alertButtons s' = [retry_button so isRefreshing] /\
  error s' = JsError.message err /\
  filteredData s' = filteredData s /\
  shows_inline_error s' = CartPage.truthy (JsError.message err) /\
  shows_list s' = negb (CartPage.truthy (JsError.message err)).
Proof.
  intros [[[ok [[[data |]] |] msg] | e] te] so [] s err _; cbn;
    try destruct ok; cbn; intros H; inversion H; subst; cbn;
    try discriminate; intros _;
    unfold shows_inline_error, shows_list; cbn;
    rewrite ?andb_true_r; repeat split; auto.
Qed.

(** X14. A fetch that succeeds stores the products, clears a previous
    error so that the list is rendered, and does not touch the alert: an
    error alert still on display stays. *)
Theorem fetch_success_clears_the_error : forall env so isRefreshing s data,
  delivers env = Some data ->
  let s' := final (run env (fetchAllProducts localeCompare so isRefreshing) s) in
  products s' = Some data /\
  error s' = None /\
  shows_list s' = true /\
  alertVisible s' = alertVisible s /\
  alertButtons s' = alertButtons s.
Proof.
  intros [[[ok [[[data' |]] |] msg] | e] te] so [] s data; cbn;
    try destruct ok; cbn; intros H; inversion H; subst; cbn;
    repeat split; auto.
Qed.


(** X16. A response with [success] and a data object without [data]
    takes the page down.  [setProducts(undefined)] runs before [sortData]
    throws, so the [catch] block runs with [products] undefined; the
    effect on [products] then spreads undefined outside any [try], and
    React unmounts the page, whatever the state held before. *)
Theorem response_without_data_unmounts_the_page : forall env so isRefreshing s,
  stores_undefined env = true ->
  let r := run env (fetchAllProducts localeCompare so isRefreshing) s in
  failure env = Some (typeError env) /\
  In (Handler.Did (setProducts None) tt) (trace r) /\
  products (final r) = None /\
  forall env', rendered localeCompare env' r = Unmounted.
Proof.
  intros [[[ok [[[data |]] |] msg] | e] te] so [] s; cbn;
    try destruct ok; cbn; try discriminate; intros _;
    repeat split; auto 10.
Qed.
End MarketListFacts.

(** ** Columns *)

Lemma le_trans a b c :
  JSString.le a b = true -> JSString.le b c = true -> JSString.le a c = true.
Proof.
  unfold JSString.le, SFleb, SFcompare.
  destruct a as [sa | sa | | sa ma ea], b as [sb | sb | | sb mb eb],
           c as [sc | sc | | sc mc ec];
    try destruct sa; try destruct sb; try destruct sc;
    try reflexivity; try discriminate;
    change (Pos.compare_cont Eq ?x ?y) with (Pos.compare x y);
    repeat match goal with
           | |- context [Z.compare ?x ?y] => destruct (Z.compare_spec x y)
           | |- context [Pos.compare ?x ?y] => destruct (Pos.compare_spec x y)
           end;
    simpl; try reflexivity; try discriminate; intros; subst; try lia.
Qed.

(** X28. A wider window never gets fewer columns: [getNumberOfColumns]
    is monotone in the width, and its result is between 1 and 4. *)
Theorem wider_windows_get_no_fewer_columns : forall w1 w2,
  JSString.le w1 w2 = true ->
  1 <= getNumberOfColumns w1 <= getNumberOfColumns w2 /\ getNumberOfColumns w2 <= 4.
Proof.
  intros w1 w2 H. unfold getNumberOfColumns.
  destruct (JSString.le w2 (JSString.literal 375)) eqn:E1.
  { rewrite (le_trans _ _ _ H E1). lia. }
  destruct (JSString.le w2 (JSString.literal 800)) eqn:E2.
  { rewrite (le_trans _ _ _ H E2). destruct (JSString.le w1 (JSString.literal 375)); lia. }
  destruct (JSString.le w2 (JSString.literal 1200)) eqn:E3.
  { rewrite (le_trans _ _ _ H E3).
    destruct (JSString.le w1 (JSString.literal 375)); [lia |]. destruct (JSString.le w1 (JSString.literal 800)); lia. }
  destruct (JSString.le w1 (JSString.literal 375)); [lia |]. destruct (JSString.le w1 (JSString.literal 800)); [lia |].
  destruct (JSString.le w1 (JSString.literal 1200)); lia.
Qed.

Lemma wider_windows_get_no_fewer_columns_witness :
  getNumberOfColumns (JSString.literal 360) = 1 /\
  getNumberOfColumns (JSString.literal 1024) = 3 /\
  getNumberOfColumns (JSString.literal 360) <= getNumberOfColumns (JSString.literal 1024).
Proof.
  split; [vm_compute; reflexivity | split; [vm_compute; reflexivity |]].
  apply (@wider_windows_get_no_fewer_columns (JSString.literal 360)
           (JSString.literal 1024)).
  vm_compute. reflexivity.
Defined.

(** ** The theorems above on the sample products, names compared as
    [String.compare] does *)

Lemma sortData_orders_and_is_stable_witness :
  sortData String.compare sample_products "Price (Low to High)" =
    [product "p2" "Algebra notes" "Mathematics" "MTH101" "12.50";
     product "p3" "calculus drills" "Mathematics" "MTH102" "12.50";
     product "p1" "Physics notes" "Physics" "PHY101" "20.00"] /\
  StronglySorted (fun a b => JSString.before by_price a b = true)
                 (sortData String.compare sample_products "Price (Low to High)").
Proof.
  split; [vm_compute; reflexivity |].
  apply (@sortData_orders_and_is_stable String.compare sample_products
           "Price (Low to High)" by_price eq_refl).
  vm_compute. reflexivity.
Defined.

Lemma sorting_again_changes_nothing_witness :
  sortData String.compare
    (sortData String.compare sample_products "Price (Low to High)")
    "Price (Low to High)"
  = sortData String.compare sample_products "Price (Low to High)".
Proof.
  apply sorting_again_changes_nothing.
  intros cmp H. injection H as <-. vm_compute. reflexivity.
Defined.

Lemma blank_query_keeps_every_product_witness :
  filteredData
    (final (run delivering_env
              (filterData String.compare (Some sample_products) "Default" " ") mount))
  = sample_products.
Proof.
  apply (@blank_query_keeps_every_product String.compare delivering_env
           sample_products "Default" 1 mount).
  lia.
Defined.

Lemma search_reads_the_three_fields_ignoring_case_witness :
  In (product "p2" "Algebra notes" "Mathematics" "MTH101" "12.50")
     (filteredData
        (final (run delivering_env
                  (filterData String.compare (Some sample_products) "Default" "algebra")
                  mount))).
Proof.
  apply (@search_reads_the_three_fields_ignoring_case String.compare delivering_env
           sample_products "Default" "algebra" mount).
  - simpl. auto.
  - right. right. vm_compute. discriminate.
Defined.

Lemma fetch_failure_shows_the_retry_alert_witness :
  let r := run null_message_env (fetchAllProducts String.compare "Default" false) mount in
  rendered String.compare null_message_env r = Mounted (final r) /\
  alertMessage (final r) = "null" /\
  shows_inline_error (final r) = true /\
  shows_list (final r) = false.
Proof.
  pose proof (@fetch_failure_shows_the_retry_alert String.compare null_message_env
                "Default" false mount (new_Error Null) ltac:(discriminate)
                eq_refl eq_refl) as H.
  cbv zeta in H. destruct H as (Hr & _ & _ & Hm & _ & _ & _ & _ & Hi & Hl).
  repeat split; assumption.
Defined.

Lemma fetch_success_clears_the_error_witness :
  let s' := final (run delivering_env (fetchAllProducts String.compare "Default" true) mount) in
  products s' = Some sample_products /\ error s' = None.
Proof.
  pose proof (@fetch_success_clears_the_error String.compare delivering_env
                "Default" true mount sample_products eq_refl) as H.
  cbv zeta in H. destruct H as (Hp & He & _). split; assumption.
Defined.


Lemma response_without_data_unmounts_the_page_witness :
  let r := run empty_handed_env (fetchAllProducts String.compare "Default" false) mount in
  products (final r) = None /\
  rendered String.compare empty_handed_env r = Unmounted.
Proof.
  pose proof (@response_without_data_unmounts_the_page String.compare empty_handed_env
                "Default" false mount eq_refl) as H.
  cbv zeta in H. destruct H as (_ & _ & Hp & Hu).
  split; [exact Hp | apply Hu].
Defined.

(* ================================================================== *)
(** * The review popup                                                  *)
(* ================================================================== *)

Import ReviewPopup.

(** ** Submitting a review *)

(** X17. A review whose rating is outside 1..5, or whose comment is
    blank once trimmed (of the white space of ECMAScript, NO-BREAK SPACE
    and the other Unicode spaces included), is not sent: the handler
    calls no collaborator,
    shows the alert of the check that failed (the rating is checked
    first) with the OK button, and leaves the form, [submitting]
    included, as it was. *)
Theorem rejected_form_calls_nothing : forall env productId rating comment s,
  acceptable rating comment = false ->
  let r := run env (handleSubmitReview productId rating comment) s in
  existsb is_call (trace r) = false /\
  final r =
    {| reviews := reviews s; loading := loading s; error := error s;
       showAddReviewForm := showAddReviewForm s;
       ReviewPopup.rating := ReviewPopup.rating s;
       ReviewPopup.comment := ReviewPopup.comment s;
       submitting := submitting s;
       alertVisible := true;
       alertTitle :=
         if (rating <? 1)%Z || (5 <? rating)%Z then "Error" else "Empty Comment";
       alertMessage :=
         if (rating <? 1)%Z || (5 <? rating)%Z
         then "Please provide a rating between 1 and 5."
         else "Please enter a comment.";
       alertIcon :=
         if (rating <? 1)%Z || (5 <? rating)%Z
         then "alert-circle-outline" else "information-circle";
       alertButtons := [ok_button] |}.
Proof.
  intros env productId rating comment s Ha.
  unfold acceptable in Ha. unfold handleSubmitReview.
  destruct ((rating <? 1)%Z || (5 <? rating)%Z) eqn:E.
  - cbn. auto.
  - destruct (JSString.trim comment =? "") eqn:T.
    + cbn. auto.
    + exfalso. apply orb_false_iff in E as [E1 E2].
      apply Z.ltb_ge in E1, E2.
      destruct (1 <=? rating)%Z eqn:L1; [| apply Z.leb_gt in L1; lia].
      destruct (rating <=? 5)%Z eqn:L2; [| apply Z.leb_gt in L2; lia].
      simpl in Ha. congruence.
Qed.

Lemma acceptable_passes rating comment :
  acceptable rating comment = true ->
  (rating <? 1)%Z || (5 <? rating)%Z = false /\ (JSString.trim comment =? "") = false.
Proof.
  unfold acceptable. intros H.
  apply andb_true_iff in H as [H Ht]. apply andb_true_iff in H as [H1 H2].
  apply Z.leb_le in H1, H2. apply negb_true_iff in Ht.
  split; auto. apply orb_false_iff; split; apply Z.ltb_ge; lia.
Qed.

(** X18. A review that passes the checks is sent exactly once, with the
    rating and the comment of the form, and on every path, a rejected
    call included, the handler ends with [submitting] lowered. *)
Theorem submission_always_lowers_submitting : forall env productId rating comment s,
  acceptable rating comment = true ->
  let r := run env (handleSubmitReview productId rating comment) s in
  submitting (final r) = false /\
  filter is_submission (trace r) =
    [Handler.Called (api_addOrUpdateReview productId rating comment)].
Proof.
  intros env productId rating comment s Ha.
  destruct (acceptable_passes _ _ Ha) as [E T].
  unfold handleSubmitReview. rewrite E, T.
  destruct env as [[[d m] | e] [[[] m'] | e']]; try destruct d; cbn; auto.
Qed.

(** X19. When the call that submits the review rejects, the visitor is
    told nothing: no alert is configured or shown, the error only goes to
    the console, and the state is as before but for [submitting]. *)
Theorem rejected_submission_is_silent : forall env productId rating comment s e,
  acceptable rating comment = true ->
  submitResult env = Rejected e ->
  let r := run env (handleSubmitReview productId rating comment) s in
  existsb is_alert (trace r) = false /\
  final r = update (setSubmitting false) s /\
  In (Handler.Did (console_error (Some "Review submission error:") e) tt) (trace r).
Proof.
  intros env productId rating comment s e Ha He.
  destruct (acceptable_passes _ _ Ha) as [E T].
  unfold handleSubmitReview. rewrite E, T.
  destruct env as [rr sr]; cbn in He; subst sr. cbn.
  repeat split; auto.
Qed.


(** X21. When the backend refuses the review ([success: false]) the
    'Error' alert carries its message, or 'Failed to submit review.'; the
    reviews are not fetched again and the form keeps its rating and its
    comment. *)
Theorem refused_review_keeps_the_form : forall env productId rating comment s msg,
  acceptable rating comment = true ->
  submitResult env = Fulfilled {| Submitted.success := false; Submitted.message := msg |} ->
  let r := run env (handleSubmitReview productId rating comment) s in
  filter is_call (trace r) =
    [Handler.Called (api_addOrUpdateReview productId rating comment)] /\
  final r =
    {| reviews := reviews s; loading := loading s; error := error s;
       showAddReviewForm := showAddReviewForm s;
       ReviewPopup.rating := ReviewPopup.rating s;
       ReviewPopup.comment := ReviewPopup.comment s;
       submitting := false;
       alertVisible := true; alertTitle := "Error";
       alertMessage := or_else msg "Failed to submit review.";
       alertIcon := "close-circle"; alertButtons := [ok_button] |}.
Proof.
  intros env productId rating comment s msg Ha He.
  destruct (acceptable_passes _ _ Ha) as [E T].
  unfold handleSubmitReview. rewrite E, T.
  destruct env as [rr sr]; cbn in He; subst sr. cbn. auto.
Qed.

(** ** Fetching the reviews *)

(** X22. [fetchReviews] calls the review API once and ends with
    [loading] lowered on every path.  With data it stores the reviews and
    leaves [error] as it was; without data, or on a rejection, it keeps
    the reviews and sets [error] to the message of the failure, or to a
    fallback that is never empty. *)
Theorem fetchReviews_lowers_loading : forall env productId s,
  let r := run env (fetchReviews productId) s in
  loading (final r) = false /\
  filter is_call (trace r) = [Handler.Called (api_getProductReviewsAPI productId)] /\
  match reviewsResult env with
  | Fulfilled {| Reviews.data := Some data |} =>
      reviews (final r) = data /\ error (final r) = error s
  | Fulfilled {| Reviews.data := None; Reviews.message := m |} =>
      reviews (final r) = reviews s /\
      error (final r) =
        Some (or_else (Some (or_else m "Failed to fetch reviews."))
                      "An error occurred while fetching reviews.")
  | Rejected e =>
      reviews (final r) = reviews s /\
      error (final r) =
        Some (or_else (JsError.message e) "An error occurred while fetching reviews.")
  end.
Proof.
  intros [[[[d |] m] | e] sr] productId s; cbn; repeat split; auto.
Qed.

Lemma or_else_truthy a b : b <> "" -> truthy (Some (or_else a b)) = true.
Proof.
  intros Hb. unfold truthy, or_else. apply negb_true_iff.
  destruct a as [x |].
  - destruct (x =? "") eqn:X; auto. now apply String.eqb_neq.
  - now apply String.eqb_neq.
Qed.

Lemma error_view s :
  loading s = false -> truthy (error s) = true ->
  (exists message, view s = ErrorView message) /\ add_review_enabled s = false.
Proof.
  intros Hl Ht. unfold view, add_review_enabled. rewrite Hl, Ht.
  rewrite andb_false_r. eauto.
Qed.

(** X23. [fetchReviews] never clears [error]: once a fetch has failed,
    a later fetch that succeeds stores the reviews but the popup still
    renders the error in place of the list, and the 'Add a Review' button
    stays hidden. *)
Theorem fetch_error_is_never_cleared : forall env productId s,
  truthy (error s) = true ->
  let s' := final (run env (fetchReviews productId) s) in
  truthy (error s') = true /\
  (exists message, view s' = ErrorView message) /\
  add_review_enabled s' = false.
Proof.
  intros env productId s Hs s'.
  assert (H : loading s' = false /\ truthy (error s') = true).
  { subst s'. destruct env as [[[[d |] m] | e] sr]; cbn; split; auto.
    - exact (@or_else_truthy (Some (or_else m "Failed to fetch reviews."))
               "An error occurred while fetching reviews." ltac:(discriminate)).
    - exact (@or_else_truthy (JsError.message e)
               "An error occurred while fetching reviews." ltac:(discriminate)). }
  destruct H as [Hl Ht]. split; auto. now apply error_view.
Qed.

(** ** The popup of a visitor who is not logged in *)

Lemma harmless_step R (op : Op R) k :
  harmless (Task.Vis op k) -> anonymous_ok tt op /\ forall r, harmless (k r).
Proof.
  unfold harmless; simpl. intros [Hok Hk]. split; auto. intros r.
  specialize (Hk r).
  now destruct (fold_left (fun g _ => g) (Handler.events_of Op (@is_await) op r) tt).
Qed.

Lemma advance_harmless env m s :
  harmless m -> showAddReviewForm s = false ->
  let '(s', evs, w) :=
    Handler.advance Op State Env (@is_await) (@update) (@answer) env m s in
  showAddReviewForm s' = false /\
  existsb is_submission evs = false /\
  match w with
  | None => True
  | Some w =>
      Handler.awaits_call Op (@is_await) w = true /\
      Handler.resumes Op w (fun _ _ _ m' => harmless m')
  end.
Proof.
  revert s; induction m as [[] | R op k IH]; intros s Hm Hs; simpl; auto.
  apply harmless_step in Hm as [Hok Hk].
  destruct (is_await op) eqn:E.
  - repeat split; auto.
    simpl. destruct op; simpl in *; auto. contradiction.
  - assert (Hs' : showAddReviewForm (update op s) = false).
    { destruct op; simpl in *; auto. }
    specialize (IH (answer env op) (update op s) (Hk _) Hs').
    destruct (Handler.advance Op State Env (@is_await) (@update) (@answer) env
                (k (answer env op)) (update op s)) as [[s' evs] w].
    destruct IH as (H1 & H2 & H3). repeat split; auto.
Qed.

Lemma start_anonymous env m c :
  harmless m -> anonymous c -> anonymous (start env m c).
Proof.
  intros Hm (Hs & Hh & Hp). unfold start, Handler.start. unfold Event in *.
  pose proof (advance_harmless env m (Handler.state c) Hm Hs) as H.
  destruct (Handler.advance Op State Env (@is_await) (@update) (@answer) env m
              (Handler.state c)) as [[s' evs] w].
  destruct H as (H1 & H2 & H3). unfold Event in *.
  split; [| split]; cbn [Handler.state Handler.history Handler.pending]; auto.
  - now rewrite existsb_app, Hh, H2.
  - intros w' Hw. apply in_app_iff in Hw as [Hw | Hw]; auto.
    destruct w as [w |]; simpl in Hw; [| tauto].
    destruct Hw as [<- | []]. exact H3.
Qed.

Lemma perform_actions_harmless acts : harmless (perform_actions acts).
Proof.
  unfold harmless. induction acts as [| a acts IH]; simpl; auto.
  destruct a; simpl; split; auto.
Qed.

Lemma fetchReviews_harmless productId : harmless (fetchReviews productId).
Proof.
  unfold harmless, fetchReviews, fetch_reviews. cbn.
  repeat split. intros [[[d |] m] | e]; cbn; repeat split; auto.
Qed.

Lemma step_anonymous props i c :
  isAuthenticated props = false -> anonymous c -> anonymous (step props i c).
Proof.
  intros Hp Hc. assert (Hc' := Hc). destruct Hc' as (Hs & Hh & Hpend).
  unfold Event in *.
  unfold step, add_review_enabled, form_rendered, submit_enabled, form_rendered.
  rewrite Hs, ?andb_false_r. simpl.
  destruct i as [n env | | index | text | | | n | |]; auto.
  - unfold Handler.settle.
    destruct (nth_error (Handler.pending c) n) as [w |] eqn:En; auto.
    destruct (Hpend _ (nth_error_In _ _ En)) as [Haw Hk].
    destruct w as [R op k]. simpl in Hk, Haw.
    pose proof (advance_harmless env (k (answer env op)) (Handler.state c)
                  (Hk _) Hs) as H.
    destruct (Handler.advance Op State Env (@is_await) (@update) (@answer) env
                (k (answer env op)) (Handler.state c)) as [[s' evs] w].
    destruct H as (H1 & H2 & H3). unfold Event in *.
    split; [| split]; cbn [Handler.state Handler.history Handler.pending]; auto.
    + rewrite existsb_app, Hh. simpl. exact H2.
    + intros w' Hw. apply in_app_iff in Hw as [Hw | Hw].
      * apply Hpend. eapply In_remove_nth; eauto.
      * destruct w as [w |]; simpl in Hw; [| tauto].
        destruct Hw as [<- | []]. exact H3.
  - destruct (negb (loading (Handler.state c)) &&
              negb (truthy (error (Handler.state c)))); auto.
    apply start_anonymous; auto. rewrite Hp. unfold harmless. cbn. repeat split; auto.
  - destruct (alertVisible (Handler.state c)); auto.
    destruct (nth_error (alertButtons (Handler.state c)) n); auto.
    apply start_anonymous; auto using perform_actions_harmless.
  - destruct (alertVisible (Handler.state c)); auto.
    apply start_anonymous; auto. unfold harmless; cbn; auto.
  - apply start_anonymous; auto. unfold harmless; cbn; auto.
Qed.

(** X24. A visitor who is not logged in cannot submit a review
    through the popup: 'Add a Review' only shows the 'Authentication
    Required' alert, the form is never opened, and whatever the inputs
    and however the calls settle, [api.addOrUpdateReview] is never
    called. *)
Theorem anonymous_visitor_cannot_submit : forall props inputs,
  isAuthenticated props = false ->
  let c := exec props inputs (mounted props) in
  existsb is_submission (Handler.history c) = false /\
  showAddReviewForm (Handler.state c) = false.
Proof.
  intros props inputs Hp c.
  assert (H : anonymous c).
  { subst c. unfold exec.
    assert (H0 : anonymous (mounted props)).
    { apply start_anonymous; [apply fetchReviews_harmless |].
      split; [| split]; simpl; auto. intros ? []. }
    revert H0. generalize (mounted props).
    induction inputs as [| i inputs IH]; intros c0 H0; simpl; auto.
    apply IH. now apply step_anonymous. }
  destruct H as (Hs & Hh & _). auto.
Qed.

(** ** The theorems above on sample data *)

Lemma rejected_form_calls_nothing_witness :
  let r := run accepting_env
             (handleSubmitReview "p1" 3 (JSString.NBSP ++ " " ++ JSString.EM_SPACE)) mount in
  existsb is_call (trace r) = false /\ alertTitle (final r) = "Empty Comment".
Proof.
  pose proof (@rejected_form_calls_nothing accepting_env "p1" 3
                (JSString.NBSP ++ " " ++ JSString.EM_SPACE) mount eq_refl) as H.
  cbv zeta in H |- *. destruct H as [Hc Hf]. split; [exact Hc |].
  rewrite Hf. reflexivity.
Defined.

Lemma submission_always_lowers_submitting_witness :
  submitting (final (run offline_env (handleSubmitReview "p1" 5 "Clear notes.") mount))
  = false.
Proof.
  apply (@submission_always_lowers_submitting offline_env "p1" 5 "Clear notes." mount).
  reflexivity.
Defined.

Lemma rejected_submission_is_silent_witness :
  let r := run offline_env (handleSubmitReview "p1" 5 "Clear notes.") mount in
  existsb is_alert (trace r) = false /\ alertVisible (final r) = false.
Proof.
  pose proof (@rejected_submission_is_silent offline_env "p1" 5 "Clear notes." mount
                {| JsError.message := Some "Network Error" |} eq_refl eq_refl) as H.
  cbv zeta in H |- *. destruct H as (Ha & Hf & _). split; [exact Ha |].
  rewrite Hf. reflexivity.
Defined.


Lemma refused_review_keeps_the_form_witness :
  let r := run refusing_env (handleSubmitReview "p1" 5 "Clear notes.") mount in
  alertMessage (final r) = "Purchase the product first." /\
  ReviewPopup.comment (final r) = ReviewPopup.comment mount.
Proof.
  pose proof (@refused_review_keeps_the_form refusing_env "p1" 5 "Clear notes." mount
                (Some "Purchase the product first.") eq_refl eq_refl) as H.
  cbv zeta in H |- *. destruct H as [_ Hf]. rewrite Hf. split; reflexivity.
Defined.

Lemma fetch_error_is_never_cleared_witness :
  let s' := final (run accepting_env (fetchReviews "p1") failed_state) in
  reviews s' = [sample_review] /\ view s' = ErrorView "Network Error".
Proof.
  pose proof (@fetch_error_is_never_cleared accepting_env "p1" failed_state eq_refl) as H.
  cbv zeta in H |- *. destruct H as (_ & [message Hv] & _).
  split; [reflexivity |]. rewrite Hv. revert Hv. vm_compute. intros Hv; inversion Hv.
  reflexivity.
Defined.

Lemma anonymous_visitor_cannot_submit_witness :
  let c := exec visitor
             [Settle 0 accepting_env; PressAddReview; PressAlertButton 0;
              PressStar 4; ChangeComment "Clear notes."; PressSubmit]
             (mounted visitor) in
  existsb is_submission (Handler.history c) = false /\
  showAddReviewForm (Handler.state c) = false.
Proof.
  exact (@anonymous_visitor_cannot_submit visitor
           [Settle 0 accepting_env; PressAddReview; PressAlertButton 0;
            PressStar 4; ChangeComment "Clear notes."; PressSubmit] eq_refl).
Defined.

(** ** One submission at a time *)

Lemma quiet_step R (op : Op R) k :
  quiet (Task.Vis op k) -> quiet_ok tt op /\ forall r, quiet (k r).
Proof.
  unfold quiet; simpl. intros [Hok Hk]. split; auto. intros r.
  specialize (Hk r).
  now destruct (fold_left (fun g _ => g) (Handler.events_of Op (@is_await) op r) tt).
Qed.

Lemma update_submitting R (op : Op R) r s :
  submitting (update op s) = submitting_next (submitting s) (Handler.Did op r).
Proof. destruct op; reflexivity. Qed.

Lemma advance_quiet env m s :
  quiet m ->
  let '(s', evs, w) :=
    Handler.advance Op State Env (@is_await) (@update) (@answer) env m s in
  submitting s' = submitting s /\
  (forall n, fold_left unanswered_next evs n = n) /\
  match w with
  | None => True
  | Some w' => quiet_handler w'
  end.
Proof.
  revert s; induction m as [[] | R op k IH]; intros s Hm; simpl; auto.
  apply quiet_step in Hm as [Hok Hk].
  destruct (is_await op) eqn:E.
  - split; [reflexivity | split].
    + intros n. destruct op; simpl in *; auto. contradiction.
    + split; [| exact Hk]. destruct op; simpl in *; auto. contradiction.
  - specialize (IH (answer env op) (update op s) (Hk _)).
    destruct (Handler.advance Op State Env (@is_await) (@update) (@answer) env
                (k (answer env op)) (update op s)) as [[s' evs] w].
    destruct IH as (H1 & H2 & H3). split; [| split; [| exact H3]].
    + rewrite H1. destruct op; simpl in *; auto. contradiction.
    + intros n. simpl. rewrite H2. destruct op; simpl in *; auto. contradiction.
Qed.

Lemma advance_finishing env m s :
  finishing m (submitting s) ->
  let '(s', evs, w) :=
    Handler.advance Op State Env (@is_await) (@update) (@answer) env m s in
  (forall n, fold_left unanswered_next evs n = n) /\
  match w with
  | None => submitting s' = false
  | Some w' =>
      submitting s' = true /\ awaits_submission w' = false /\ submitting_handler w'
  end.
Proof.
  unfold finishing.
  revert s; induction m as [[] | R op k IH]; intros s Hm; simpl in *; auto.
  destruct Hm as [Hok Hk].
  destruct (is_await op) eqn:E.
  - unfold Handler.events_of in Hk. rewrite E in Hk. simpl in Hk.
    destruct op; simpl in *; try discriminate; try contradiction.
    split; [auto | split; [exact Hok | split; [reflexivity |]]].
    intros r. specialize (Hk r). rewrite Hok in Hk. exact Hk.
  - specialize (Hk (answer env op)).
    unfold Handler.events_of in Hk. rewrite E in Hk. cbn [fold_left] in Hk.
    rewrite <- update_submitting in Hk.
    specialize (IH (answer env op) (update op s) Hk).
    destruct (Handler.advance Op State Env (@is_await) (@update) (@answer) env
                (k (answer env op)) (update op s)) as [[s' evs] w].
    destruct IH as (H1 & H2). split; auto.
    intros n. simpl. rewrite H1. destruct op; simpl in *; auto; discriminate.
Qed.

Lemma show_alert_quiet title message icon buttons (k : Task unit) :
  quiet k -> quiet (Task.bind (show_alert title message icon buttons) (fun _ => k)).
Proof. intros Hk. unfold quiet in *. cbn. repeat split; auto. Qed.

Lemma fetchReviews_quiet productId : quiet (fetchReviews productId).
Proof.
  unfold quiet, fetchReviews, fetch_reviews. cbn.
  repeat split. intros [[[d |] m] | e]; cbn; repeat split; auto.
Qed.

Lemma perform_actions_quiet acts : quiet (perform_actions acts).
Proof.
  unfold quiet. induction acts as [| a acts IH]; simpl; auto.
  destruct a; simpl; split; auto.
Qed.

Lemma handleAddReviewClick_quiet b : quiet (handleAddReviewClick b).
Proof. unfold quiet. destruct b; cbn; repeat split; auto. Qed.

(** Pressing Submit while [submitting] is lowered: the form is refused
    and nothing is sent, or the review is sent and [submitting] stays
    raised until the handler ends. *)
Lemma advance_handleSubmitReview env productId rating comment s :
  submitting s = false ->
  let '(s', evs, w) :=
    Handler.advance Op State Env (@is_await) (@update) (@answer) env
      (handleSubmitReview productId rating comment) s in
  match w with
  | None => submitting s' = false /\ forall n, fold_left unanswered_next evs n = n
  | Some w' =>
      submitting s' = true /\ awaits_submission w' = true /\
      submitting_handler w' /\
      forall n, fold_left unanswered_next evs n = S n
  end.
Proof.
  intros Hs. unfold handleSubmitReview.
  destruct ((rating <? 1)%Z || (5 <? rating)%Z); [cbn; auto |].
  destruct (JSString.trim comment =? ""); [cbn; auto |].
  cbn. repeat split; auto.
  unfold finishing.
  intros [[[] msg] | e]; cbn; repeat split; auto.
  intros [[[d |] m] | e]; cbn; repeat split; auto.
Qed.

Lemma nth_error_remove_nth {A} (l : list A) n w :
  nth_error l n = Some w -> Permutation l (w :: remove_nth n l).
Proof.
  revert n; induction l as [| a l IH]; intros [| n]; simpl; try discriminate.
  - intros H; inversion H; subst. reflexivity.
  - intros H. rewrite (IH _ H) at 1. apply perm_swap.
Qed.

Lemma unanswered_app h evs :
  unanswered (h ++ evs)%list = fold_left unanswered_next evs (unanswered h).
Proof. unfold unanswered. apply fold_left_app. Qed.

Lemma start_quiet env m c :
  quiet m -> one_at_a_time c -> one_at_a_time (start env m c).
Proof.
  intros Hm (owner & others & Hperm & Hq & Ho). unfold start, Handler.start.
  pose proof (advance_quiet env m (Handler.state c) Hm) as H.
  destruct (Handler.advance Op State Env (@is_await) (@update) (@answer) env m
              (Handler.state c)) as [[s' evs] w].
  destruct H as (H1 & H2 & H3).
  exists owner, (others ++ opt_list w)%list.
  cbn [Handler.state Handler.pending Handler.history].
  split; [| split].
  - rewrite app_assoc. now apply Permutation_app_tail.
  - apply Forall_app. split; auto. destruct w; simpl; auto.
  - rewrite unanswered_app, H2, H1. exact Ho.
Qed.

Lemma settle_one_at_a_time n env c :
  one_at_a_time c ->
  one_at_a_time (Handler.settle Op State Env (@is_await) (@update) (@answer) n env c).
Proof.
  intros Hc. unfold Handler.settle.
  destruct (nth_error (Handler.pending c) n) as [w |] eqn:En; auto.
  destruct Hc as (owner & others & Hperm & Hq & Ho).
  pose proof (nth_error_remove_nth _ _ En) as Hrem.
  assert (Hin : In w (opt_list owner ++ others)%list).
  { eapply Permutation_in; [exact Hperm |]. eapply nth_error_In; eauto. }
  apply in_app_or in Hin as [Hin | Hin].
  - (* the handler that is submitting resumes *)
    destruct owner as [w0 |]; simpl in Hin; [| tauto].
    destruct Hin as [-> | []].
    destruct Ho as (Hs & Hw & Hu).
    assert (Hrest : Permutation (remove_nth n (Handler.pending c)) others).
    { apply Permutation_cons_inv with (a := w).
      rewrite <- Hrem. exact Hperm. }
    destruct w as [R op k]. simpl in Hw.
    pose proof (advance_finishing env (k (answer env op)) (Handler.state c)) as H.
    rewrite Hs in H. specialize (H (Hw _)).
    destruct (Handler.advance Op State Env (@is_await) (@update) (@answer) env
                (k (answer env op)) (Handler.state c)) as [[s' evs] w'].
    destruct H as (H1 & H2).
    assert (Hu' : unanswered (Handler.history c ++ Handler.Did op (answer env op) :: evs)%list
                  = O).
    { rewrite unanswered_app. cbn [fold_left]. rewrite H1, Hu.
      destruct op; reflexivity. }
    destruct w' as [w' |].
    + destruct H2 as (Hs' & Ha' & Hw').
      exists (Some w'), others.
      cbn [Handler.state Handler.pending Handler.history].
      split; [| split; [exact Hq |]].
      * simpl. rewrite Hrest. symmetry. apply Permutation_cons_append.
      * rewrite Ha', Hu'. auto.
    + exists None, others.
      cbn [Handler.state Handler.pending Handler.history].
      split; [| split; [exact Hq |]]; auto.
      simpl. now rewrite app_nil_r.
  - (* another handler resumes *)
    apply in_split in Hin as (l1 & l2 & ->).
    apply Forall_app in Hq as [Hq1 Hq2].
    inversion Hq2 as [| ? ? Hqw Hq2']; subst.
    assert (Hrest : Permutation (remove_nth n (Handler.pending c))
                      (opt_list owner ++ l1 ++ l2)%list).
    { apply Permutation_cons_inv with (a := w).
      rewrite <- Hrem, Hperm.
      rewrite app_assoc. rewrite <- Permutation_middle.
      now rewrite <- app_assoc. }
    destruct Hqw as [Haw Hk]. destruct w as [R op k]. simpl in Hk, Haw.
    pose proof (advance_quiet env (k (answer env op)) (Handler.state c) (Hk _)) as H.
    destruct (Handler.advance Op State Env (@is_await) (@update) (@answer) env
                (k (answer env op)) (Handler.state c)) as [[s' evs] w'].
    destruct H as (H1 & H2 & H3).
    exists owner, (l1 ++ l2 ++ opt_list w')%list.
    cbn [Handler.state Handler.pending Handler.history].
    split; [| split].
    + rewrite Hrest. rewrite !app_assoc. reflexivity.
    + rewrite !Forall_app. repeat split; auto. destruct w'; simpl; auto.
    + rewrite unanswered_app. cbn [fold_left]. rewrite H2, H1.
      replace (unanswered_next (unanswered (Handler.history c))
                 (Handler.Did op (answer env op)))
        with (unanswered (Handler.history c))
        by (destruct op; simpl in *; auto; discriminate).
      exact Ho.
Qed.

Lemma step_one_at_a_time props i c :
  one_at_a_time c -> one_at_a_time (step props i c).
Proof.
  intros Hc. destruct i as [n env | | index | text | | | n | |]; simpl.
  - now apply settle_one_at_a_time.
  - destruct (add_review_enabled (Handler.state c)); auto.
    apply start_quiet; auto using handleAddReviewClick_quiet.
  - destruct (form_rendered (Handler.state c) && (0 <=? index)%Z && (index <? 5)%Z); auto.
    apply start_quiet; auto. unfold quiet; cbn; auto.
  - destruct (form_rendered (Handler.state c)); auto.
    apply start_quiet; auto. unfold quiet; cbn; auto.
  - unfold submit_enabled.
    destruct (form_rendered (Handler.state c)); simpl; auto.
    destruct (submitting (Handler.state c)) eqn:Hs; simpl; auto.
    destruct Hc as (owner & others & Hperm & Hq & Ho).
    destruct owner as [w0 |]; [destruct Ho; congruence |].
    destruct Ho as [_ Hu].
    unfold start, Handler.start.
    pose proof (advance_handleSubmitReview no_env (productId props)
                  (rating (Handler.state c)) (comment (Handler.state c))
                  (Handler.state c) Hs) as H.
    destruct (Handler.advance Op State Env (@is_await) (@update) (@answer) no_env
                (handleSubmitReview (productId props) (rating (Handler.state c))
                   (comment (Handler.state c)))
                (Handler.state c)) as [[s' evs] w].
    destruct w as [w |].
    + destruct H as (Hs' & Ha & Hw & Hn).
      exists (Some w), others.
      cbn [Handler.state Handler.pending Handler.history].
      split; [| split; [exact Hq |]].
      * simpl in *. rewrite Hperm. symmetry. apply Permutation_cons_append.
      * rewrite Ha, unanswered_app, Hn, Hu. auto.
    + destruct H as (Hs' & Hn).
      exists None, others.
      cbn [Handler.state Handler.pending Handler.history].
      split; [| split; [exact Hq |]].
      * simpl in *. now rewrite app_nil_r.
      * rewrite unanswered_app, Hn. auto.
  - destruct (form_rendered (Handler.state c)); auto.
    apply start_quiet; auto. unfold quiet, cancel_form; cbn; auto.
  - destruct (alertVisible (Handler.state c)); auto.
    destruct (nth_error (alertButtons (Handler.state c)) n); auto.
    apply start_quiet; auto using perform_actions_quiet.
  - destruct (alertVisible (Handler.state c)); auto.
    apply start_quiet; auto. unfold quiet; cbn; auto.
  - apply start_quiet; auto. unfold quiet; cbn; auto.
Qed.

(** X25. At most one submission is unanswered at any time: the Submit
    button is disabled from the moment a review is sent until its handler
    has ended, so whatever the inputs and however the calls settle, a
    second [api.addOrUpdateReview] is never issued while one is pending;
    [submitting] is raised whenever one is, and a press on Submit while
    it is raised changes nothing. *)
Theorem one_submission_at_a_time : forall props inputs,
  let c := exec props inputs (mounted props) in
  (unanswered (Handler.history c) <= 1)%nat /\
  (unanswered (Handler.history c) = 1%nat -> submitting (Handler.state c) = true) /\
  (submitting (Handler.state c) = true -> step props PressSubmit c = c).
Proof.
  intros props inputs c.
  assert (H : one_at_a_time c).
  { subst c. unfold exec.
    assert (H0 : one_at_a_time (mounted props)).
    { apply start_quiet; [apply fetchReviews_quiet |].
      exists None, []. simpl. auto. }
    revert H0. generalize (mounted props).
    induction inputs as [| i inputs IH]; intros c0 H0; simpl; auto.
    apply IH. now apply step_one_at_a_time. }
  destruct H as (owner & others & _ & _ & Ho).
  split; [| split].
  - destruct owner as [w |].
    + destruct Ho as (_ & _ & ->). destruct (awaits_submission w); lia.
    + destruct Ho as [_ ->]. lia.
  - destruct owner as [w |]; [tauto |]. destruct Ho as [_ ->]. discriminate.
  - intros Hs. simpl. unfold submit_enabled. rewrite Hs.
    now rewrite andb_false_r.
Qed.

(** ** The rating of the form *)

Lemma rates_step R (op : Op R) k :
  rates_in_range (Task.Vis op k) -> rating_ok tt op /\ forall r, rates_in_range (k r).
Proof.
  unfold rates_in_range; simpl. intros [Hok Hk]. split; auto. intros r.
  specialize (Hk r).
  now destruct (fold_left (fun g _ => g) (Handler.events_of Op (@is_await) op r) tt).
Qed.

Lemma advance_rated env m s :
  rates_in_range m -> (0 <= rating s <= 5)%Z ->
  let '(s', evs, w) :=
    Handler.advance Op State Env (@is_await) (@update) (@answer) env m s in
  (0 <= rating s' <= 5)%Z /\
  match w with
  | None => True
  | Some w' => Handler.resumes Op w' (fun _ _ _ m' => rates_in_range m')
  end.
Proof.
  revert s; induction m as [[] | R op k IH]; intros s Hm Hs; simpl; auto.
  apply rates_step in Hm as [Hok Hk].
  destruct (is_await op) eqn:E.
  - split; auto.
  - assert (Hs' : (0 <= rating (update op s) <= 5)%Z).
    { destruct op; simpl in *; auto. }
    specialize (IH (answer env op) (update op s) (Hk _) Hs').
    destruct (Handler.advance Op State Env (@is_await) (@update) (@answer) env
                (k (answer env op)) (update op s)) as [[s' evs] w].
    exact IH.
Qed.

Lemma start_rated env m c : rates_in_range m -> rated c -> rated (start env m c).
Proof.
  intros Hm (Hs & Hp). unfold start, Handler.start.
  pose proof (advance_rated env m (Handler.state c) Hm Hs) as H.
  destruct (Handler.advance Op State Env (@is_await) (@update) (@answer) env m
              (Handler.state c)) as [[s' evs] w].
  destruct H as (H1 & H2).
  split; cbn [Handler.state Handler.pending Handler.history]; auto.
  intros w' Hw. apply in_app_iff in Hw as [Hw | Hw]; auto.
  destruct w as [w |]; simpl in Hw; [| tauto].
  destruct Hw as [<- | []]. exact H2.
Qed.

Lemma handleSubmitReview_rates productId rating comment :
  rates_in_range (handleSubmitReview productId rating comment).
Proof.
  unfold rates_in_range, handleSubmitReview.
  destruct ((rating <? 1)%Z || (5 <? rating)%Z); [cbn; repeat split; auto |].
  destruct (JSString.trim comment =? ""); [cbn; repeat split; auto |].
  cbn. repeat split; auto.
  intros [[[] msg] | e]; cbn; repeat split; auto.
  intros [[[d |] m] | e]; cbn; repeat split; auto; lia.
Qed.

Lemma perform_actions_rates acts : rates_in_range (perform_actions acts).
Proof.
  unfold rates_in_range. induction acts as [| a acts IH]; simpl; auto.
  destruct a; simpl; split; auto.
Qed.

Lemma fetchReviews_rates productId : rates_in_range (fetchReviews productId).
Proof.
  unfold rates_in_range, fetchReviews, fetch_reviews. cbn.
  repeat split. intros [[[d |] m] | e]; cbn; repeat split; auto.
Qed.

Lemma step_rated props i c : rated c -> rated (step props i c).
Proof.
  intros Hc. destruct i as [n env | | index | text | | | n | |]; simpl.
  - unfold Handler.settle.
    destruct (nth_error (Handler.pending c) n) as [w |] eqn:En; auto.
    destruct Hc as (Hs & Hp).
    pose proof (Hp _ (nth_error_In _ _ En)) as Hk.
    destruct w as [R op k]. simpl in Hk.
    pose proof (advance_rated env (k (answer env op)) (Handler.state c) (Hk _) Hs) as H.
    destruct (Handler.advance Op State Env (@is_await) (@update) (@answer) env
                (k (answer env op)) (Handler.state c)) as [[s' evs] w].
    destruct H as (H1 & H2).
    split; cbn [Handler.state Handler.pending Handler.history]; auto.
    intros w' Hw. apply in_app_iff in Hw as [Hw | Hw].
    + apply Hp. eapply In_remove_nth; eauto.
    + destruct w as [w |]; simpl in Hw; [| tauto].
      destruct Hw as [<- | []]. exact H2.
  - destruct (add_review_enabled (Handler.state c)); auto.
    apply start_rated; auto. unfold rates_in_range.
    destruct (isAuthenticated props); cbn; repeat split; auto.
  - destruct (form_rendered (Handler.state c)); simpl; auto.
    destruct (0 <=? index)%Z eqn:E0; simpl; auto.
    destruct (index <? 5)%Z eqn:E5; simpl; auto.
    apply start_rated; auto. unfold rates_in_range; cbn.
    apply Z.leb_le in E0. apply Z.ltb_lt in E5. split; auto. lia.
  - destruct (form_rendered (Handler.state c)); auto.
    apply start_rated; auto. unfold rates_in_range; cbn; auto.
  - destruct (submit_enabled (Handler.state c)); auto.
    apply start_rated; auto using handleSubmitReview_rates.
  - destruct (form_rendered (Handler.state c)); auto.
    apply start_rated; auto. unfold rates_in_range, cancel_form; cbn.
    repeat split; auto; lia.
  - destruct (alertVisible (Handler.state c)); auto.
    destruct (nth_error (alertButtons (Handler.state c)) n); auto.
    apply start_rated; auto using perform_actions_rates.
  - destruct (alertVisible (Handler.state c)); auto.
    apply start_rated; auto. unfold rates_in_range; cbn; auto.
  - apply start_rated; auto. unfold rates_in_range; cbn; auto.
Qed.

(** X26. Through the popup the rating is always an integer from 0 to 5:
    it is only set to the number of a star or reset to 0.  So the alert
    'Please provide a rating between 1 and 5.' can only mean that no
    star was chosen. *)
Theorem rating_alert_means_no_star : forall props inputs,
  let s := Handler.state (exec props inputs (mounted props)) in
  (0 <= rating s <= 5)%Z /\
  ((rating s <? 1)%Z || (5 <? rating s)%Z = true <-> rating s = 0%Z).
Proof.
  intros props inputs s.
  assert (H : rated (exec props inputs (mounted props))).
  { unfold exec.
    assert (H0 : rated (mounted props)).
    { apply start_rated; [apply fetchReviews_rates |].
      split; simpl; [lia | intros ? []]. }
    revert H0. generalize (mounted props).
    induction inputs as [| i inputs IH]; intros c0 H0; simpl; auto.
    apply IH. now apply step_rated. }
  destruct H as [Hr _]. fold s in Hr. split; auto.
  rewrite orb_true_iff, !Z.ltb_lt. lia.
Qed.
